(** * SoundSight: waveform sampler, renderer and tonal classifier

    A shallow embedding of [waveform_generator.py] and the statements
    of its specification that were checked against it.

    Python integers are [Z]; Python [float] and numpy [float64] values are
    IEEE-754 binary64 numbers, taken from the standard library's executable
    specification [SpecFloat] at precision 53 and maximal exponent 1024;
    byte strings are [list byte]; text strings are [string], one character
    per code point below 256.  Exceptions are an explicit error type. *)

From Stdlib.Strings Require Import String Ascii Byte.
From Stdlib Require Import ZArith List Bool Lia.
From Stdlib Require Import Permutation Sorted.
From Stdlib Require Import SpecFloat.
Import ListNotations.
Open Scope Z_scope.

(** ** Exceptions and the result monad *)

Inductive exn : Type :=
| StructError            (* struct.error: unpack on a short buffer *)
| ZeroDivisionError      (* integer modulo by zero *)
| OverflowError          (* int too large for a float, or int(inf) *)
| NanConversion          (* ValueError raised by int(nan) *)
| InvalidDimension       (* ValueError: width or height not positive *)
| NoData                 (* ValueError: no data points extracted *)
| InvalidColor           (* ValueError raised by html2rgb *)
| InvalidLiteral.        (* ValueError raised by int(text, 16) *)

Inductive result (A : Type) : Type :=
| Ok (a : A)
| Raise (e : exn).
Arguments Ok {A} a.
Arguments Raise {A} e.

Definition bind {A B : Type} (r : result A) (k : A -> result B) : result B :=
  match r with
  | Ok a => k a
  | Raise e => Raise e
  end.

Notation "x <- r ;; k" := (bind r (fun x => k))
  (at level 61, r at next level, right associativity).

Fixpoint mapM {A B : Type} (f : A -> result B) (l : list A) : result (list B) :=
  match l with
  | [] => Ok []
  | a :: l' => b <- f a ;; bs <- mapM f l' ;; Ok (b :: bs)
  end.


(** ** Python floats *)

Module PyFloat.

Definition prec : Z := 53.
Definition emax : Z := 1024.

Definition float : Type := spec_float.

(** [float(n)] for an integer: the nearest binary64 value, ties to even;
    [OverflowError] when the integer is beyond the finite range. *)
Definition of_int (n : Z) : result float :=
  match binary_normalize prec emax n 0 false with
  | S754_infinity _ => Raise OverflowError
  | f => Ok f
  end.

(** An integer as an unrounded significand with exponent 0. *)
Definition raw (n : Z) : float :=
  match n with
  | Z0 => S754_zero false
  | Zpos p => S754_finite false p 0
  | Zneg p => S754_finite true p 0
  end.

(** [a / b] on two integers: the correctly rounded quotient of the exact
    integers (Python does not convert the operands to floats first). *)
Definition truediv (a b : Z) : result float :=
  if b =? 0 then Raise ZeroDivisionError
  else
    match SFdiv prec emax (raw a) (raw b) with
    | S754_infinity _ => Raise OverflowError
    | f => Ok f
    end.

(** [x * n] with a float on the left and an integer on the right. *)
Definition mul_int (x : float) (n : Z) : result float :=
  fn <- of_int n ;;
  Ok (SFmul prec emax x fn).

(** The integer part of a finite float, rounded towards zero. *)
Definition trunc (x : float) : result Z :=
  match x with
  | S754_zero _ => Ok 0
  | S754_finite s m e =>
      let a := match e with
               | Z0 => Zpos m
               | Zpos p => Zpos m * 2 ^ Zpos p
               | Zneg p => Zpos m / 2 ^ Zpos p
               end in
      Ok (if s then - a else a)
  | S754_infinity _ => Raise OverflowError
  | S754_nan => Raise NanConversion
  end.

Definition eqb (x y : float) : bool := SFeqb x y.
Definition ltb (x y : float) : bool := SFltb x y.
Definition gtb (x y : float) : bool := SFltb y x.

Definition isnan (x : float) : bool :=
  match x with S754_nan => true | _ => false end.

(** The float literal [0.5]. *)
Definition half : float := S754_finite false 4503599627370496 (-53).

End PyFloat.

(** [int(x)] on a float. *)
Definition py_int (x : PyFloat.float) : result Z := PyFloat.trunc x.

(** ** Binary files and the file handle *)

Definition byte_val (b : byte) : Z := Z.of_N (Byte.to_N b).

(** An open binary file: its content and the current offset.  Seeking past
    the end is allowed; a read then returns fewer bytes than asked for. *)
Record handle : Type := mkHandle { content : list byte; pos : nat }.

Definition open_rb (file : list byte) : handle := mkHandle file 0.

Definition read (h : handle) (n : nat) : list byte * handle :=
  let got := firstn n (skipn (pos h) (content h)) in
  (got, mkHandle (content h) (pos h + length got)).

(** [handle.seek(off, 1)] with a non-negative offset. *)
Definition seek_cur (h : handle) (off : nat) : handle :=
  mkHandle (content h) (pos h + off).

(** Little-endian value of a byte string. *)
Fixpoint le_value (bs : list byte) : Z :=
  match bs with
  | [] => 0
  | b :: bs' => byte_val b + 256 * le_value bs'
  end.

(** [struct.unpack('<I', b)[0]] and [struct.unpack('<H', b)[0]]. *)
Definition unpack_I (bs : list byte) : result Z :=
  if Nat.eqb (length bs) 4 then Ok (le_value bs) else Raise StructError.

Definition unpack_H (bs : list byte) : result Z :=
  if Nat.eqb (length bs) 2 then Ok (le_value bs) else Raise StructError.

Record wav_header : Type := mkHeader {
  chunk_id : list byte;
  chunk_size : Z;
  format : list byte;
  subchunk1_id : list byte;
  subchunk1_size : Z;
  audio_format : Z;
  num_channels : Z;
  sample_rate : Z;
  byte_rate : Z;
  block_align : Z;
  bits_per_sample : Z;
  subchunk2_id : list byte;
  subchunk2_size : Z
}.

Definition read_tag (h : handle) : result (list byte * handle) := Ok (read h 4).

Definition read_I (h : handle) : result (Z * handle) :=
  let (bs, h') := read h 4 in v <- unpack_I bs ;; Ok (v, h').

Definition read_H (h : handle) : result (Z * handle) :=
  let (bs, h') := read h 2 in v <- unpack_H bs ;; Ok (v, h').

Definition parse_wav_header (h0 : handle) : result (wav_header * handle) :=
  r1 <- read_tag h0 ;;
  r2 <- read_I (snd r1) ;;
  r3 <- read_tag (snd r2) ;;
  r4 <- read_tag (snd r3) ;;
  r5 <- read_I (snd r4) ;;
  r6 <- read_H (snd r5) ;;
  r7 <- read_H (snd r6) ;;
  r8 <- read_I (snd r7) ;;
  r9 <- read_I (snd r8) ;;
  r10 <- read_H (snd r9) ;;
  r11 <- read_H (snd r10) ;;
  r12 <- read_tag (snd r11) ;;
  r13 <- read_I (snd r12) ;;
  Ok (mkHeader (fst r1) (fst r2) (fst r3) (fst r4) (fst r5) (fst r6) (fst r7)
        (fst r8) (fst r9) (fst r10) (fst r11) (fst r12) (fst r13),
      snd r13).

(** ** The amplitude sampler *)

Definition DETAIL : Z := 5.

Definition find_values (byte1 byte2 : Z) : Z := byte1 + (byte2 * 256).

(** The byte value of one sample that was read in full. *)
Definition sample_data (byte_per_sample : Z) (bytes_data : list byte) : Z :=
  if byte_per_sample =? 1 then
    byte_val (nth 0 bytes_data x00)
  else if byte_per_sample =? 2 then
    let byte1 := byte_val (nth 0 bytes_data x00) in
    let byte2 := byte_val (nth 1 bytes_data x00) in
    let temp := if Z.land byte2 128 =? 0 then 128 else 0 in
    let temp := Z.land byte2 127 + temp in
    find_values byte1 temp / 256
  else 128.

(** [int(data / 255 * height)]. *)
Definition pixel_height (data height : Z) : result Z :=
  q <- PyFloat.truediv data 255 ;;
  p <- PyFloat.mul_int q height ;;
  py_int p.

(** The [while data_point < data_size] loop.  [remaining] counts the
    iterations still to run, [data_size - data_point]; every iteration that
    does not break or raise increments [data_point]. *)
Fixpoint sample_loop (remaining : nat) (byte_per_sample ratio height detail : Z)
    (data_point : Z) (h : handle) (data_points : list Z) : result (list Z) :=
  match remaining with
  | O => Ok data_points
  | S remaining' =>
      if detail =? 0 then Raise ZeroDivisionError
      else if data_point mod detail =? 0 then
        let (bytes_data, h1) := read h (Z.to_nat byte_per_sample) in
        if Z.of_nat (length bytes_data) <? byte_per_sample then Ok data_points
        else
          let data := sample_data byte_per_sample bytes_data in
          let h2 := seek_cur h1 (Z.to_nat ratio) in
          v <- pixel_height data height ;;
          sample_loop remaining' byte_per_sample ratio height detail
            (data_point + 1) h2 (data_points ++ [v])
      else
        sample_loop remaining' byte_per_sample ratio height detail
          (data_point + 1) (seek_cur h (Z.to_nat (ratio + byte_per_sample)))
          data_points
  end.

Definition process_wav_file (file : list byte) (height detail : Z)
    : result (list Z) :=
  ph <- parse_wav_header (open_rb file) ;;
  let (header, handle) := ph in
  let byte_per_sample := bits_per_sample header / 8 in
  let ratio := if num_channels header =? 2 then 40 else 80 in
  let file_size := Z.of_nat (length file) in
  let data_size := (file_size - 44) / (ratio + byte_per_sample) + 1 in
  sample_loop (Z.to_nat data_size) byte_per_sample ratio height detail
    0 handle [].

(** ** Colour strings *)

Definition code (c : ascii) : Z := Z.of_N (N_of_ascii c).

(** [str.lstrip('#')]: every leading hash is removed. *)
Fixpoint lstrip_hash (s : string) : string :=
  match s with
  | String c s' => if code c =? 35 then lstrip_hash s' else s
  | EmptyString => s
  end.

(** Python slice [s[i:j]] for [0 <= i <= j]. *)
Definition slice (i j : nat) (s : string) : string := substring i (j - i) s.

Module PyInt.

(** Digit value of a character in [int(text, 16)]. *)
Definition hex_digit (c : ascii) : option Z :=
  let n := code c in
  if (48 <=? n) && (n <=? 57) then Some (n - 48)
  else if (97 <=? n) && (n <=? 102) then Some (n - 87)
  else if (65 <=? n) && (n <=? 70) then Some (n - 55)
  else None.

(** ASCII white space skipped around the literal: tab, line feed,
    vertical tab, form feed, carriage return and space. *)
Definition is_space (c : ascii) : bool :=
  let n := code c in ((9 <=? n) && (n <=? 13)) || (n =? 32).

(** Before parsing, a code point from 127 on is replaced by a space when
    it is white space (U+0085 and U+00A0 below 256) and by a character
    that no literal accepts otherwise. *)
Definition to_ascii (c : ascii) : ascii :=
  let n := code c in
  if n <? 127 then c
  else if (n =? 133) || (n =? 160) then " "%char
  else "?"%char.

Fixpoint skip_space (l : list ascii) : list ascii :=
  match l with
  | c :: l' => if is_space c then skip_space l' else l
  | [] => []
  end.

(** The digit run: hexadecimal digits with single underscores between
    them.  Returns the value, the number of digits and what follows. *)
Fixpoint scan (l : list ascii) (prev_underscore : bool) (acc : Z) (n : nat)
    : option (Z * nat * list ascii) :=
  match l with
  | c :: l' =>
      if code c =? 95 then
        if prev_underscore then None else scan l' true acc n
      else
        match hex_digit c with
        | Some d => scan l' false (16 * acc + d) (S n)
        | None => if prev_underscore then None else Some (acc, n, l)
        end
  | [] => if prev_underscore then None else Some (acc, n, [])
  end.

Definition strip_prefix (l : list ascii) : list ascii :=
  match l with
  | c0 :: c1 :: l' =>
      if (code c0 =? 48) && ((code c1 =? 120) || (code c1 =? 88)) then
        match l' with
        | u :: l'' => if code u =? 95 then l'' else l'
        | [] => l'
        end
      else l
  | _ => l
  end.

(** [int(text, 16)] on a text of characters below code point 256. *)
Definition int16 (text : string) : result Z :=
  let l := list_ascii_of_string text in
  if existsb (fun c => code c =? 0) l then Raise InvalidLiteral
  else
    let l := skip_space (map to_ascii l) in
    let '(negative, l) :=
      match l with
      | c :: l' =>
          if code c =? 43 then (false, l')
          else if code c =? 45 then (true, l')
          else (false, l)
      | [] => (false, l)
      end in
    let l := strip_prefix l in
    match l with
    | c :: _ =>
        if code c =? 95 then Raise InvalidLiteral
        else
          match scan l false 0 0 with
          | Some (v, S _, rest) =>
              match skip_space rest with
              | [] => Ok (if negative then - v else v)
              | _ :: _ => Raise InvalidLiteral
              end
          | _ => Raise InvalidLiteral
          end
    | [] => Raise InvalidLiteral
    end.

End PyInt.

Definition html2rgb (html_color : string) : result (Z * Z * Z) :=
  let color := lstrip_hash html_color in
  if negb (Nat.eqb (String.length color) 6) then Raise InvalidColor
  else
    r <- PyInt.int16 (slice 0 2 color) ;;
    g <- PyInt.int16 (slice 2 4 color) ;;
    b <- PyInt.int16 (slice 4 6 color) ;;
    Ok (r, g, b).

(** ** Colour strings over all of Unicode

    A text as the list of its code points.  [int(text, 16)] first replaces
    every character from code point 127 on: a white-space character by a
    blank, a decimal digit by the ASCII digit of its value, anything else
    by a character that no literal accepts; the result is parsed as
    above.  Which characters are white space and which are decimal digits
    is the business of the Unicode tables of the interpreter. *)
Section UnicodeText.

Variable unicode_isspace : Z -> bool.
Variable unicode_todecimal : Z -> option Z.








End UnicodeText.

(** ** The pixel canvas *)

Inductive Mode : Type := RGB | RGBA.

Inductive pixel : Type :=
| Rgb (r g b : Z)
| Rgba (r g b a : Z).

(** An image of the imaging library: mode, size and a pixel at every
    coordinate inside the size. *)
Record Image : Type := mkImage {
  im_mode : Mode;
  im_width : Z;
  im_height : Z;
  im_pixel : Z -> Z -> pixel
}.

Definition Image_new (mode : Mode) (w h : Z) (color : pixel) : Image :=
  mkImage mode w h (fun _ _ => color).

(** The ink of a colour triple in an image of the given mode. *)
Definition ink (mode : Mode) (c : Z * Z * Z) : pixel :=
  let '(r, g, b) := c in
  match mode with
  | RGB => Rgb r g b
  | RGBA => Rgba r g b 255
  end.

Definition in_image (img : Image) (x y : Z) : bool :=
  (0 <=? x) && (x <? im_width img) && (0 <=? y) && (y <? im_height img).

(** [draw.line([(x, y1), (x, y2)], fill)] with [y1 <= y2]: the pixels of
    column [x] from row [y1] to row [y2], both included, clipped to the
    image. *)
Definition draw_vline (img : Image) (x y1 y2 : Z) (fill : pixel) : Image :=
  mkImage (im_mode img) (im_width img) (im_height img)
    (fun x' y' =>
       if (x' =? x) && (y1 <=? y') && (y' <=? y2) && in_image img x' y'
       then fill else im_pixel img x' y').

(** The test [v / height == 0.5 and not draw_flat]. *)
Definition suppressed (v height : Z) (draw_flat : bool) : result bool :=
  q <- PyFloat.truediv v height ;;
  Ok (PyFloat.eqb q PyFloat.half && negb draw_flat).

(** The inner loop over [enumerate(data_points)], from column [x] on. *)
Fixpoint paint_columns (height y_offset : Z) (draw_flat : bool) (fill : pixel)
    (x : Z) (data_points : list Z) (img : Image) : result Image :=
  match data_points with
  | [] => Ok img
  | v :: rest =>
      skip <- suppressed v height draw_flat ;;
      let img' :=
        if skip then img
        else
          let y1 := y_offset + (height - v) in
          let y2 := y_offset + v in
          if y1 >? y2 then draw_vline img x y2 y1 fill
          else draw_vline img x y1 y2 fill in
      paint_columns height y_offset draw_flat fill (x + 1) rest img'
  end.

(** The outer loop over [enumerate(all_data_points)], from channel
    [wav_idx] on. *)
Fixpoint paint_channels (height : Z) (draw_flat : bool) (fill : pixel)
    (wav_idx : Z) (all_data_points : list (list Z)) (img : Image)
    : result Image :=
  match all_data_points with
  | [] => Ok img
  | data_points :: rest =>
      img' <- paint_columns height (height * wav_idx) draw_flat fill 0
                data_points img ;;
      paint_channels height draw_flat fill (wav_idx + 1) rest img'
  end.

Definition DEFAULT_FOREGROUND : string := "#FF0000".
Definition DEFAULT_BACKGROUND : string := "#FFFFFF".

Definition truthy (s : string) : bool :=
  match s with EmptyString => false | _ => true end.

Section Renderer.

(** The resampling filter of the imaging library: the pixels of an image
    resized to a width and a height.  Its arithmetic is outside this
    program; the size of the result is what [resize] is called with. *)
Variable lanczos : Image -> Z -> Z -> Z -> Z -> pixel.

Definition resize (img : Image) (w h : Z) : Image :=
  mkImage (im_mode img) w h (lanczos img w h).

(** The canvas as painted, before the final resize. *)
Definition painted_canvas (all_data_points : list (list Z)) (n_files : Z)
    (height : Z) (foreground background : string) (draw_flat : bool)
    : result Image :=
  match all_data_points with
  | [] => Raise NoData
  | [] :: _ => Raise NoData
  | first :: _ =>
      let original_width := Z.of_nat (length first) in
      let total_height := height * n_files in
      img <- (if negb (truthy background) then
                Ok (Image_new RGBA original_width total_height (Rgba 0 0 0 0))
              else
                bg_color <- html2rgb background ;;
                Ok (Image_new RGB original_width total_height
                      (ink RGB bg_color))) ;;
      fg_color <- (if truthy foreground then html2rgb foreground
                   else Ok (255, 0, 0)) ;;
      paint_channels height draw_flat (ink (im_mode img) fg_color) 0
        all_data_points img
  end.

Definition generate_waveform_image (wav_files : list (list byte))
    (width height : Z) (foreground background : string) (draw_flat : bool)
    : result Image :=
  if height <=? 0 then Raise InvalidDimension
  else if width <=? 0 then Raise InvalidDimension
  else
    all_data_points <-
      mapM (fun wav_file => process_wav_file wav_file height DETAIL)
        wav_files ;;
    img <- painted_canvas all_data_points (Z.of_nat (length wav_files))
             height foreground background draw_flat ;;
    let original_width :=
      Z.of_nat (length (hd [] all_data_points)) in
    if negb (width =? 0) && negb (width =? original_width) then
      let final_height := height in
      Ok (resize img width final_height)
    else Ok img.

End Renderer.

(** ** Music analysis *)

Open Scope string_scope.

Definition KEY_NAMES : list string :=
  ["C"; "C#"; "D"; "D#"; "E"; "F"; "F#"; "G"; "G#"; "A"; "A#"; "B"].

Definition scale_templates : list (string * list Z) :=
  [ ("Ionian (Major)",  [1; 0; 1; 0; 1; 1; 0; 1; 0; 1; 0; 1]);
    ("Dorian",          [1; 0; 1; 1; 0; 1; 0; 1; 0; 1; 1; 0]);
    ("Phrygian",        [1; 1; 0; 1; 0; 1; 0; 1; 1; 0; 1; 0]);
    ("Lydian",          [1; 0; 1; 0; 1; 0; 1; 1; 0; 1; 0; 1]);
    ("Mixolydian",      [1; 0; 1; 0; 1; 1; 0; 1; 0; 1; 1; 0]);
    ("Aeolian (Minor)", [1; 0; 1; 1; 0; 1; 0; 1; 1; 0; 1; 0]);
    ("Locrian",         [1; 1; 0; 1; 0; 1; 1; 0; 1; 0; 1; 0]) ].

Definition chord_templates : list (string * list Z) :=
  [ ("Major", [1; 0; 0; 0; 1; 0; 0; 1; 0; 0; 0; 0]);
    ("Minor", [1; 0; 0; 1; 0; 0; 0; 1; 0; 0; 0; 0]);
    ("7th",   [1; 0; 0; 0; 1; 0; 0; 1; 0; 0; 1; 0]) ].

(** [np.roll(template, k)] for [k >= 0]: the element at index [i] moves to
    index [(i + k) mod n]. *)
Definition roll {A : Type} (l : list A) (k : nat) : list A :=
  match length l with
  | O => l
  | n => let cut := (n - k mod n)%nat in skipn cut l ++ firstn cut l
  end.

(** A small integer or a decimal fraction as a float literal. *)
Definition flit (n : Z) : PyFloat.float :=
  binary_normalize PyFloat.prec PyFloat.emax n 0 false.

Definition fdec (num den : Z) : PyFloat.float :=
  SFdiv PyFloat.prec PyFloat.emax (flit num) (flit den).

(** [np.argmax]: the scan keeps the first element that no later one
    exceeds, and stops at the first NaN. *)
Fixpoint argmax_scan (l : list PyFloat.float) (i best_i : nat)
    (best : PyFloat.float) : nat :=
  match l with
  | [] => best_i
  | x :: l' =>
      if negb (SFleb x best) then
        if PyFloat.isnan x then i else argmax_scan l' (S i) i x
      else argmax_scan l' (S i) best_i best
  end.

Definition argmax (l : list PyFloat.float) : nat :=
  match l with
  | [] => O
  | x :: l' => if PyFloat.isnan x then O else argmax_scan l' 1 0 x
  end.

(** ['Minor' in s]. *)
Definition contains (needle s : string) : bool :=
  match index 0 needle s with Some _ => true | None => false end.

(** Python [dict]: insertion-ordered, one entry per key. *)
Fixpoint dict_set {V : Type} (k : string) (v : V) (d : list (string * V))
    : list (string * V) :=
  match d with
  | [] => [(k, v)]
  | (k', v') :: d' =>
      if String.eqb k' k then (k, v) :: d' else (k', v') :: dict_set k v d'
  end.

Fixpoint dict_get {V : Type} (k : string) (d : list (string * V)) : option V :=
  match d with
  | [] => None
  | (k', v) :: d' => if String.eqb k' k then Some v else dict_get k d'
  end.

Definition guitar_chords : list (string * string) :=
  [ ("C Major", "x32010"); ("C Minor", "x35543"); ("C 7th", "x32310");
    ("C# Major", "x46664"); ("C# Minor", "x46654"); ("C# 7th", "x4342x");
    ("D Major", "xx0232"); ("D Minor", "xx0231"); ("D 7th", "xx0212");
    ("D# Major", "xx1343"); ("D# Minor", "xx1342"); ("D# 7th", "xx1323");
    ("E Major", "022100"); ("E Minor", "022000"); ("E 7th", "020100");
    ("F Major", "133211"); ("F Minor", "133111"); ("F 7th", "131211");
    ("F# Major", "244322"); ("F# Minor", "244222"); ("F# 7th", "242322");
    ("G Major", "320003"); ("G Minor", "355333"); ("G 7th", "320001");
    ("G# Major", "466544"); ("G# Minor", "466444"); ("G# 7th", "464544");
    ("A Major", "x02220"); ("A Minor", "x02210"); ("A 7th", "x02020");
    ("A# Major", "x13331"); ("A# Minor", "x13321"); ("A# 7th", "x13131");
    ("B Major", "x24442"); ("B Minor", "x24432"); ("B 7th", "x21202") ].

Definition piano_chords : list (string * string) :=
  [ ("C Major", "C-E-G"); ("C Minor", "C-Eb-G"); ("C 7th", "C-E-G-Bb");
    ("C# Major", "C#-F-G#"); ("C# Minor", "C#-E-G#"); ("C# 7th", "C#-F-G#-B");
    ("D Major", "D-F#-A"); ("D Minor", "D-F-A"); ("D 7th", "D-F#-A-C");
    ("D# Major", "D#-G-A#"); ("D# Minor", "D#-F#-A#"); ("D# 7th", "D#-G-A#-C#");
    ("E Major", "E-G#-B"); ("E Minor", "E-G-B"); ("E 7th", "E-G#-B-D");
    ("F Major", "F-A-C"); ("F Minor", "F-Ab-C"); ("F 7th", "F-A-C-Eb");
    ("F# Major", "F#-A#-C#"); ("F# Minor", "F#-A-C#"); ("F# 7th", "F#-A#-C#-E");
    ("G Major", "G-B-D"); ("G Minor", "G-Bb-D"); ("G 7th", "G-B-D-F");
    ("G# Major", "G#-C-D#"); ("G# Minor", "G#-B-D#"); ("G# 7th", "G#-C-D#-F#");
    ("A Major", "A-C#-E"); ("A Minor", "A-C-E"); ("A 7th", "A-C#-E-G");
    ("A# Major", "A#-D-F"); ("A# Minor", "A#-C#-F"); ("A# 7th", "A#-D-F-G#");
    ("B Major", "B-D#-F#"); ("B Minor", "B-D-F#"); ("B 7th", "B-D#-F#-A") ].

Definition ukulele_chords : list (string * string) :=
  [ ("C Major", "0003"); ("C Minor", "0333"); ("C 7th", "0001");
    ("C# Major", "1114"); ("C# Minor", "1444"); ("C# 7th", "1112");
    ("D Major", "2220"); ("D Minor", "2210"); ("D 7th", "2223");
    ("D# Major", "3331"); ("D# Minor", "3321"); ("D# 7th", "3334");
    ("E Major", "4442"); ("E Minor", "4432"); ("E 7th", "1202");
    ("F Major", "2010"); ("F Minor", "1013"); ("F 7th", "2310");
    ("F# Major", "3121"); ("F# Minor", "2124"); ("F# 7th", "3424");
    ("G Major", "0232"); ("G Minor", "0231"); ("G 7th", "0212");
    ("G# Major", "5343"); ("G# Minor", "1342"); ("G# 7th", "1323");
    ("A Major", "2100"); ("A Minor", "2000"); ("A 7th", "0100");
    ("A# Major", "3211"); ("A# Minor", "3111"); ("A# 7th", "1211");
    ("B Major", "4322"); ("B Minor", "4222"); ("B 7th", "2322") ].

(** One instrument's share of the loop body: the chord is entered when the
    instrument's table has it. *)
Definition resolve (table : list (string * string)) (chord : string)
    (out : list (string * string)) : list (string * string) :=
  match dict_get chord table with
  | Some fingering => dict_set chord fingering out
  | None => out
  end.

Definition generate_instrument_chords (chords : list string)
    : list (string * list (string * string)) :=
  let '(g, p, u) :=
    fold_left (fun acc chord =>
                 let '(g, p, u) := acc in
                 (resolve guitar_chords chord g,
                  resolve piano_chords chord p,
                  resolve ukulele_chords chord u))
      chords ([], [], []) in
  [("guitar", g); ("piano", p); ("ukulele", u)].

(** [list.sort(key=..., reverse=True)]: a stable sort into descending key
    order.  [insert_desc] puts an element after every element that does
    not rank below it, so that entries of equal key keep their order. *)
Section StableSort.
Context {A : Type}.
Variable key : A -> PyFloat.float.

Fixpoint insert_desc (x : A) (l : list A) : list A :=
  match l with
  | [] => [x]
  | y :: l' =>
      if PyFloat.gtb (key x) (key y) then x :: y :: l'
      else y :: insert_desc x l'
  end.

Definition sort_desc (l : list A) : list A :=
  fold_left (fun sorted x => insert_desc x sorted) l [].
End StableSort.

(** A call of the signal-analysis library, when it is reached, delivers
    its value or raises an exception with a message. *)
Inductive outcome (A : Type) : Type :=
| Got (a : A)
| Failed (message : string).
Arguments Got {A} a.
Arguments Failed {A} message.

(** What the calls of the signal-analysis library and the numpy
    reductions behind them do for one recording, in the order in which
    [analyze_music] reaches them.  The chroma vector is the mean of the
    12 rows that [chroma_cqt] delivers.  The mean RMS is a float32 number
    (the recording is loaded as float32), held as the binary64 number it
    equals. *)
Record Features : Type := mkFeatures {
  f_duration : outcome PyFloat.float;          (* round(get_duration, 2) *)
  f_tempo : outcome PyFloat.float;             (* round(float(tempo), 1) *)
  chroma_mean : outcome (list PyFloat.float);  (* mean of the chroma rows *)
  avg_rms : outcome PyFloat.float;
  spectral_rolloff : outcome PyFloat.float;
  zero_crossing : outcome PyFloat.float;
  mfcc_mean_1 : outcome PyFloat.float          (* mfcc_mean[1] *)
}.

(** The run of the analysis library on a file: [librosa.load] raises, or
    the recording is loaded and the later calls do as [Features] says. *)
Inductive librosa_run : Type :=
| LoadFailed (message : string)
| Loaded (f : Features).

Record Analysis : Type := mkAnalysis {
  key : string;
  mode : string;
  scale : string;
  tempo : PyFloat.float;
  time_signature : string;
  duration : PyFloat.float;
  energy : string;
  possible_chords : list string;
  instrument_chords : list (string * list (string * string));
  instruments : list string;
  genre_hints : list string;
  analysis_available : bool;
  error : option string
}.

Definition default_analysis : Analysis :=
  mkAnalysis "Unknown" "Unknown" "Unknown" (S754_zero false) "4/4"
    (S754_zero false) "Medium" [] [] [] [] false None.

(** The assignments to the entries of the [analysis] dictionary. *)
Definition set_error (a : Analysis) (message : string) : Analysis :=
  mkAnalysis (key a) (mode a) (scale a) (tempo a) (time_signature a)
    (duration a) (energy a) (possible_chords a) (instrument_chords a)
    (instruments a) (genre_hints a) (analysis_available a) (Some message).

Definition set_available (a : Analysis) : Analysis :=
  mkAnalysis (key a) (mode a) (scale a) (tempo a) (time_signature a)
    (duration a) (energy a) (possible_chords a) (instrument_chords a)
    (instruments a) (genre_hints a) true (error a).

Definition set_duration (a : Analysis) (d : PyFloat.float) : Analysis :=
  mkAnalysis (key a) (mode a) (scale a) (tempo a) (time_signature a)
    d (energy a) (possible_chords a) (instrument_chords a)
    (instruments a) (genre_hints a) (analysis_available a) (error a).

Definition set_tempo (a : Analysis) (t : PyFloat.float) : Analysis :=
  mkAnalysis (key a) (mode a) (scale a) t (time_signature a)
    (duration a) (energy a) (possible_chords a) (instrument_chords a)
    (instruments a) (genre_hints a) (analysis_available a) (error a).

Definition set_key (a : Analysis) (k : string) : Analysis :=
  mkAnalysis k (mode a) (scale a) (tempo a) (time_signature a)
    (duration a) (energy a) (possible_chords a) (instrument_chords a)
    (instruments a) (genre_hints a) (analysis_available a) (error a).

Definition set_scale (a : Analysis) (s : string) : Analysis :=
  mkAnalysis (key a) (mode a) s (tempo a) (time_signature a)
    (duration a) (energy a) (possible_chords a) (instrument_chords a)
    (instruments a) (genre_hints a) (analysis_available a) (error a).

Definition set_mode (a : Analysis) (m : string) : Analysis :=
  mkAnalysis (key a) m (scale a) (tempo a) (time_signature a)
    (duration a) (energy a) (possible_chords a) (instrument_chords a)
    (instruments a) (genre_hints a) (analysis_available a) (error a).

Definition set_energy (a : Analysis) (e : string) : Analysis :=
  mkAnalysis (key a) (mode a) (scale a) (tempo a) (time_signature a)
    (duration a) e (possible_chords a) (instrument_chords a)
    (instruments a) (genre_hints a) (analysis_available a) (error a).

Definition set_possible_chords (a : Analysis) (c : list string) : Analysis :=
  mkAnalysis (key a) (mode a) (scale a) (tempo a) (time_signature a)
    (duration a) (energy a) c (instrument_chords a)
    (instruments a) (genre_hints a) (analysis_available a) (error a).

Definition set_instrument_chords (a : Analysis)
    (c : list (string * list (string * string))) : Analysis :=
  mkAnalysis (key a) (mode a) (scale a) (tempo a) (time_signature a)
    (duration a) (energy a) (possible_chords a) c
    (instruments a) (genre_hints a) (analysis_available a) (error a).

Definition set_genre_hints (a : Analysis) (g : list string) : Analysis :=
  mkAnalysis (key a) (mode a) (scale a) (tempo a) (time_signature a)
    (duration a) (energy a) (possible_chords a) (instrument_chords a)
    (instruments a) g (analysis_available a) (error a).

Definition set_instruments (a : Analysis) (i : list string) : Analysis :=
  mkAnalysis (key a) (mode a) (scale a) (tempo a) (time_signature a)
    (duration a) (energy a) (possible_chords a) (instrument_chords a)
    i (genre_hints a) (analysis_available a) (error a).

(** A binary64 number rounded to float32, as a binary64 number. *)
Definition to_float32 (x : PyFloat.float) : PyFloat.float :=
  match x with
  | S754_finite s m e =>
      match binary_normalize 24 128 (if s then Zneg m else Zpos m) e false with
      | S754_finite s' m' e' =>
          binary_normalize PyFloat.prec PyFloat.emax
            (if s' then Zneg m' else Zpos m') e' false
      | y => y
      end
  | _ => x
  end.

Section Classifier.

(** [np.corrcoef(x, y)[0, 1]]: the Pearson correlation coefficient of a
    float vector and a 0/1 template as numpy computes it, NaN when a
    variance is zero. *)
Variable corrcoef : list PyFloat.float -> list Z -> PyFloat.float.

(** How numpy compares a float32 scalar with a Python float: from
    NumPy 2 on the Python float is rounded to float32 (weak scalars);
    before, the float32 scalar is widened to binary64. *)
Variable weak_scalars : bool.

(** The loop that finds the best matching scale, from a current best. *)
Fixpoint best_scale_loop (chroma : list PyFloat.float) (key_idx : nat)
    (templates : list (string * list Z))
    (best_scale : string) (best_correlation : PyFloat.float)
    : string * PyFloat.float :=
  match templates with
  | [] => (best_scale, best_correlation)
  | (scale_name, template) :: rest =>
      let rotated := roll template key_idx in
      let correlation := corrcoef chroma rotated in
      if negb (PyFloat.isnan correlation)
         && PyFloat.gtb correlation best_correlation
      then best_scale_loop chroma key_idx rest scale_name correlation
      else best_scale_loop chroma key_idx rest best_scale best_correlation
  end.

Definition best_scale_of (chroma : list PyFloat.float) (key_idx : nat)
    : string :=
  fst (best_scale_loop chroma key_idx scale_templates
         "Ionian (Major)" (flit (-1))).

Definition mode_of (best_scale : string) : string :=
  if contains "Minor" best_scale
     || existsb (String.eqb best_scale) ["Dorian"; "Phrygian"; "Locrian"]
  then "Minor" else "Major".

(** The candidates of one root, in the order of [chord_templates]. *)
Definition chords_of_root (chroma : list PyFloat.float) (key_i : nat)
    (key_name : string) : list (string * PyFloat.float) :=
  flat_map (fun entry : string * list Z =>
              let (chord_type, template) := entry in
              let rotated := roll template key_i in
              let correlation := corrcoef chroma rotated in
              if negb (PyFloat.isnan correlation)
              then [(key_name ++ " " ++ chord_type, correlation)]
              else [])
    chord_templates.

(** [possible_chords] as collected by the two nested loops. *)
Definition chord_candidates (chroma : list PyFloat.float)
    : list (string * PyFloat.float) :=
  flat_map (fun entry : nat * string =>
              chords_of_root chroma (fst entry) (snd entry))
    (combine (seq 0 (length KEY_NAMES)) KEY_NAMES).

Definition rank_chords (chroma : list PyFloat.float) : list string :=
  map fst (firstn 4 (sort_desc snd (chord_candidates chroma))).

(** A Python float literal in a comparison with the float32 mean RMS. *)
Definition rms_threshold (num den : Z) : PyFloat.float :=
  if weak_scalars then to_float32 (fdec num den) else fdec num den.

Definition energy_of (avg_rms : PyFloat.float) : string :=
  if PyFloat.gtb avg_rms (rms_threshold 1 10) then "High"
  else if PyFloat.gtb avg_rms (rms_threshold 5 100) then "Medium"
  else "Low".

Definition genre_hints_of (tempo : PyFloat.float) (energy : string)
    (zero_crossing spectral_rolloff : PyFloat.float) : list string :=
  let g :=
    ((if PyFloat.gtb tempo (flit 120) && String.eqb energy "High"
      then ["Electronic/Dance"] else [])
     ++ (if PyFloat.ltb tempo (flit 80) && String.eqb energy "Low"
         then ["Ballad/Slow"] else [])
     ++ (if PyFloat.gtb zero_crossing (fdec 1 10)
         then ["Rock/Metal"] else [])
     ++ (if PyFloat.ltb spectral_rolloff (flit 3000)
         then ["Jazz/Blues"] else []))%list in
  let g := match g with [] => ["Pop/General"] | _ => g end in
  firstn 3 g.

Definition instruments_of (mfcc_mean_1 spectral_rolloff : PyFloat.float)
    (energy : string) : list string :=
  let i :=
    ((if PyFloat.gtb mfcc_mean_1 (flit 50) then ["Vocals (likely)"] else [])
     ++ (if PyFloat.gtb spectral_rolloff (flit 5000)
         then ["Percussion"] else [])
     ++ (if PyFloat.ltb spectral_rolloff (flit 2000)
            && String.eqb energy "Low"
         then ["Acoustic instruments"] else ["Mixed/Electronic"]))%list in
  firstn 3 i.

Definition analyze_music (LIBROSA_AVAILABLE : bool) (run : librosa_run)
    : Analysis :=
  let analysis := default_analysis in
  if negb LIBROSA_AVAILABLE then
    set_error analysis "Music analysis library not available"
  else
    match run with
    | LoadFailed message => set_error analysis message
    | Loaded f =>
    let analysis := set_available analysis in
    match f_duration f with
    | Failed message => set_error analysis message
    | Got d =>
    let analysis := set_duration analysis d in
    match f_tempo f with
    | Failed message => set_error analysis message
    | Got t =>
    let analysis := set_tempo analysis t in
    match chroma_mean f with
    | Failed message => set_error analysis message
    | Got chroma =>
    let key_idx := argmax chroma in
    let analysis := set_key analysis (nth key_idx KEY_NAMES "") in
    let best_scale := best_scale_of chroma key_idx in
    let analysis := set_scale analysis best_scale in
    let analysis := set_mode analysis (mode_of best_scale) in
    match avg_rms f with
    | Failed message => set_error analysis message
    | Got rms =>
    let analysis := set_energy analysis (energy_of rms) in
    let analysis := set_possible_chords analysis (rank_chords chroma) in
    let analysis :=
      set_instrument_chords analysis
        (generate_instrument_chords (possible_chords analysis)) in
    match spectral_rolloff f with
    | Failed message => set_error analysis message
    | Got rolloff =>
    match zero_crossing f with
    | Failed message => set_error analysis message
    | Got crossing =>
    let analysis :=
      set_genre_hints analysis
        (genre_hints_of (tempo analysis) (energy analysis) crossing
           rolloff) in
    match mfcc_mean_1 f with
    | Failed message => set_error analysis message
    | Got mfcc1 =>
    set_instruments analysis
      (instruments_of mfcc1 rolloff (energy analysis))
    end end end end end end end
    end.

End Classifier.

Close Scope string_scope.


(** ** Specification-level definitions *)

(** The sampler in the words of the specification: the logical indices
    [0 .. N-1], of which those divisible by the stride are retained; the
    sample of index [i] lies [i] strides behind the 44-byte header; the
    series ends at the first sample that the payload cannot supply in full. *)
Fixpoint range (start : Z) (count : nat) : list Z :=
  match count with
  | O => []
  | S count' => start :: range (start + 1) count'
  end.

Fixpoint takeWhile {A : Type} (p : A -> bool) (l : list A) : list A :=
  match l with
  | [] => []
  | a :: l' => if p a then a :: takeWhile p l' else []
  end.

Definition sample_at (file : list byte) (byte_per_sample ratio i : Z)
    : list byte :=
  firstn (Z.to_nat byte_per_sample)
    (skipn (Z.to_nat (44 + i * (ratio + byte_per_sample))) file).

Definition complete (byte_per_sample : Z) (sample : list byte) : bool :=
  negb (Z.of_nat (length sample) <? byte_per_sample).

Definition retained_indices (stride start : Z) (count : nat) : list Z :=
  filter (fun i => i mod stride =? 0) (range start count).

Definition retained_samples (file : list byte) (byte_per_sample ratio stride : Z)
    (start : Z) (count : nat) : list (list byte) :=
  takeWhile (complete byte_per_sample)
    (map (sample_at file byte_per_sample ratio)
       (retained_indices stride start count)).

(** The byte value of a sample as the specification words it. *)
Definition spec_sample_value (sample : list byte) : Z :=
  match sample with
  | [b] => byte_val b
  | [low; high] =>
      let offset := if Z.testbit (byte_val high) 7 then 0 else 128 in
      (byte_val low + (Z.land (byte_val high) 127 + offset) * 256) / 256
  | _ => 128
  end.

(** The pixel height in the words of the specification,
    [floor(value / 255 * H)], in exact arithmetic. *)
Definition exact_pixel (H value : Z) : Z := value * H / 255.

(** A target height that the conversion to a pixel height accepts for
    every byte value (it does not overflow the float range). *)
Definition convertible (H : Z) : Prop :=
  forall data, 0 <= data <= 255 -> exists v, pixel_height data H = Ok v.

(** Sample width, skip ratio and column count of a header, as the
    specification defines them. *)
Definition spec_bps (hd : wav_header) : Z := bits_per_sample hd / 8.
Definition spec_ratio (hd : wav_header) : Z :=
  if num_channels hd =? 2 then 40 else 80.
Definition spec_N (hd : wav_header) (file_size : Z) : Z :=
  (file_size - 44) / (spec_ratio hd + spec_bps hd) + 1.

(** A shift record that lost no bit. *)
Definition exact_rec (mrs : shr_record) : Prop :=
  shr_r mrs = false /\ shr_s mrs = false.

(** A positive float at most one, well inside the normal range. *)
Definition unit_fraction (x : PyFloat.float) : bool :=
  match x with
  | S754_finite false m e =>
      (e <? 0) && (-100 <=? e) && (Zpos m <=? 2 ^ (- e))
  | _ => false
  end.

(** A quotient [d / 255] as the division delivers it: a positive float
    below 2^53 * 2^e whose significand is the integer nearest to
    [d * 2^(-e) / 255]. *)
Definition near_quotient (d : Z) (x : PyFloat.float) : bool :=
  match x with
  | S754_finite false m e =>
      (e <=? -52) && (-100 <=? e) && (Zpos m <? 2 ^ 53)
      && (2 * Z.abs (255 * Zpos m - d * 2 ^ (- e)) <=? 255)
  | _ => false
  end.

(** A canonical 44-byte header with the given channel count and sample
    width, every other field zero (the sampler reads no other field). *)
Definition pcm_header (channels bits : byte) : list byte :=
  repeat x00 22 ++ [channels; x00] ++ repeat x00 10 ++ [bits; x00]
    ++ repeat x00 8.

(** A mono 16-bit file of [n] zero payload bytes, a mono 8-bit file that
    holds the single sample 255, and a header without payload. *)
Definition silent_wav (n : nat) : list byte := pcm_header x01 x10 ++ repeat x00 n.
Definition loud_wav : list byte := pcm_header x01 x08 ++ [xff].
Definition empty_wav : list byte := pcm_header x01 x10.

Definition header_of (file : list byte) : wav_header :=
  match parse_wav_header (open_rb file) with
  | Ok (hd, _) => hd
  | Raise _ => mkHeader [] 0 [] [] 0 0 0 0 0 0 0 [] 0
  end.














(** A nearest-neighbour filter, to have one concrete resampling filter
    where a closed statement needs it. *)
Definition nearest (img : Image) (w h x y : Z) : pixel :=
  im_pixel img (x * im_width img / w) (y * im_height img / h).


(** The order of binary64 values, as a lexicographic key: the class of
    the value (infinities, finite numbers by sign, zeros), then exponent
    and significand, both negated for negative numbers. *)
Definition fkey (x : PyFloat.float) : Z * Z * Z :=
  match x with
  | S754_nan => (0, 0, 0)
  | S754_zero _ => (0, 0, 0)
  | S754_infinity true => (-2, 0, 0)
  | S754_infinity false => (2, 0, 0)
  | S754_finite true m e => (-1, - e, Zneg m)
  | S754_finite false m e => (1, e, Zpos m)
  end.

Definition lex_lt (a b : Z * Z * Z) : Prop :=
  let '(a1, a2, a3) := a in
  let '(b1, b2, b3) := b in
  a1 < b1 \/ (a1 = b1 /\ (a2 < b2 \/ (a2 = b2 /\ a3 < b3))).

(** A correlation that is a number and exceeds the current best. *)
Definition beats (c best : PyFloat.float) : bool :=
  negb (PyFloat.isnan c) && PyFloat.gtb c best.

(** The selection of the best scale over a list of named correlations. *)
Fixpoint select (cs : list (string * PyFloat.float))
    (best : string * PyFloat.float) : string * PyFloat.float :=
  match cs with
  | [] => best
  | (n, c) :: rest =>
      if beats c (snd best) then select rest (n, c) else select rest best
  end.

(** Two keys that tie: neither exceeds the other. *)
Definition tied (k : PyFloat.float) (entry : string * PyFloat.float) : bool :=
  negb (PyFloat.gtb (snd entry) k) && negb (PyFloat.gtb k (snd entry)).

(** The chord candidates before the undefined correlations are dropped:
    pitch class ascending, and for each pitch class the qualities in the
    order of declaration. *)
Definition chord_grid : list ((nat * string) * (string * list Z)) :=
  list_prod (combine (seq 0 (length KEY_NAMES)) KEY_NAMES) chord_templates.

Definition chord_label (g : (nat * string) * (string * list Z)) : string :=
  (snd (fst g) ++ " " ++ fst (snd g))%string.

(** The input vector that is the Major chord template at pitch class 0. *)
Definition c_major_vector : list PyFloat.float :=
  map flit [1; 0; 0; 0; 1; 0; 0; 1; 0; 0; 0; 0].

(** The input vector that is the Major chord template at pitch class 2,
    and a recording for which every call of the analysis library
    delivers. *)
Definition d_major_vector : list PyFloat.float :=
  map flit [0; 0; 1; 0; 0; 0; 1; 0; 0; 1; 0; 0].

Definition d_major_recording : Features :=
  mkFeatures (Got (flit 3)) (Got (flit 120)) (Got d_major_vector)
    (Got (to_float32 (fdec 1 10))) (Got (flit 1000)) (Got (fdec 1 100))
    (Got (flit 10)).

(** The textbook Pearson coefficient evaluated in binary64, to have one
    concrete correlation function where a closed statement needs it (numpy
    may round differently). *)
Module Pearson.
Definition add := SFadd PyFloat.prec PyFloat.emax.
Definition sub := SFsub PyFloat.prec PyFloat.emax.
Definition mul := SFmul PyFloat.prec PyFloat.emax.
Definition div := SFdiv PyFloat.prec PyFloat.emax.
Definition sqrt := SFsqrt PyFloat.prec PyFloat.emax.

Definition sum (l : list PyFloat.float) : PyFloat.float :=
  fold_left add l (S754_zero false).

Definition mean (l : list PyFloat.float) : PyFloat.float :=
  div (sum l) (flit (Z.of_nat (length l))).

Definition dot (a b : list PyFloat.float) : PyFloat.float :=
  sum (map (fun p => mul (fst p) (snd p)) (combine a b)).

Definition corrcoef (x : list PyFloat.float) (template : list Z)
    : PyFloat.float :=
  let y := map flit template in
  let dx := map (fun v => sub v (mean x)) x in
  let dy := map (fun v => sub v (mean y)) y in
  div (dot dx dy) (sqrt (mul (dot dx dx) (dot dy dy))).
End Pearson.

(** A template transposed to the pitch class [k], index by index: the
    entry of pitch class [j] is the entry [(j - k) mod 12] of the template,
    so that the entry [i] of the template comes to stand at pitch class
    [(i + k) mod 12] and its root at [k]. *)
Definition transposed (template : list Z) (k : nat) : list Z :=
  map (fun j => nth ((j + 12 - k mod 12) mod 12)%nat template 0) (seq 0 12).

(** The correlations of the scale templates, transposed to the key, in the
    order of iteration; and the chord candidates over the whole grid. *)
Definition scale_correlations
    (corrcoef : list PyFloat.float -> list Z -> PyFloat.float)
    (chroma : list PyFloat.float) (key_idx : nat)
    (templates : list (string * list Z)) : list (string * PyFloat.float) :=
  map (fun e => (fst e, corrcoef chroma (transposed (snd e) key_idx)))
    templates.

Definition chord_entry
    (corrcoef : list PyFloat.float -> list Z -> PyFloat.float)
    (chroma : list PyFloat.float) (g : (nat * string) * (string * list Z))
    : string * PyFloat.float :=
  (chord_label g,
   corrcoef chroma (transposed (snd (snd g)) (fst (fst g)))).

Definition defined (entry : string * PyFloat.float) : bool :=
  negb (PyFloat.isnan (snd entry)).

(** Descending order of the keys: no later entry exceeds an earlier one. *)
Definition not_below (a b : string * PyFloat.float) : Prop :=
  PyFloat.gtb (snd b) (snd a) = false.

Definition minor_scales : list string :=
  ["Aeolian (Minor)"; "Dorian"; "Phrygian"; "Locrian"]%string.

(** ** Definitions for the further properties *)

(** The header as the layout of the format fixes it: every field at its
    byte offset, numbers little-endian. *)
Definition field (file : list byte) (offset size : nat) : list byte :=
  firstn size (skipn offset file).

Definition header_layout (file : list byte) : wav_header :=
  mkHeader (field file 0 4) (le_value (field file 4 4)) (field file 8 4)
    (field file 12 4) (le_value (field file 16 4)) (le_value (field file 20 2))
    (le_value (field file 22 2)) (le_value (field file 24 4))
    (le_value (field file 28 4)) (le_value (field file 32 2))
    (le_value (field file 34 2)) (field file 36 4) (le_value (field file 40 4)).

(** The two's-complement value of a little-endian 16-bit sample. *)
Definition signed16 (low high : byte) : Z :=
  let u := le_value [low; high] in
  if u <? 32768 then u else u - 65536.

(** A mono 16-bit file whose payload is the given bytes. *)
Definition mono16_wav (payload : list byte) : list byte :=
  pcm_header x01 x10 ++ payload.

(** A column that the renderer draws: the flat-line test ran and did not
    suppress it. *)
Definition drawn (height : Z) (draw_flat : bool) (v : Z) : bool :=
  match suppressed v height draw_flat with
  | Ok false => true
  | _ => false
  end.

(** The rows of the bar of amplitude [v] in the band that starts at row
    [y_offset]: from [y_offset + (height - v)] to [y_offset + v], in
    either order. *)
Definition bar (height y_offset v y : Z) : bool :=
  (Z.min (y_offset + (height - v)) (y_offset + v) <=? y)
  && (y <=? Z.max (y_offset + (height - v)) (y_offset + v)).

(** The pixels that one series paints when its first column is [x0], and
    the pixels that the channels from index [wav_idx] on paint. *)
Definition series_paints (height y_offset : Z) (draw_flat : bool) (x0 : Z)
    (data_points : list Z) (x y : Z) : bool :=
  (x0 <=? x)
  && match nth_error data_points (Z.to_nat (x - x0)) with
     | Some v => drawn height draw_flat v && bar height y_offset v y
     | None => false
     end.

Fixpoint channels_paint (height : Z) (draw_flat : bool) (wav_idx : Z)
    (all_data_points : list (list Z)) (x y : Z) : bool :=
  match all_data_points with
  | [] => false
  | data_points :: rest =>
      series_paints height (height * wav_idx) draw_flat 0 data_points x y
      || channels_paint height draw_flat (wav_idx + 1) rest x y
  end.

(** The exceptions that the sampler can raise. *)
Definition sampler_exn (e : exn) : Prop :=
  e = StructError \/ e = ZeroDivisionError \/ e = OverflowError
  \/ e = NanConversion.

(** One instrument's dictionary as the loop of
    [generate_instrument_chords] builds it, from a current dictionary. *)
Definition resolve_all (table : list (string * string)) (chords : list string)
    (out : list (string * string)) : list (string * string) :=
  fold_left (fun out chord => resolve table chord out) chords out.

(** The fingering that a table holds for a chord. *)
Definition fingering (table : list (string * string)) (chord : string)
    : string :=
  match dict_get chord table with
  | Some f => f
  | None => EmptyString
  end.

(** A list of labels without repetition, as a test. *)
Fixpoint nodupb (l : list string) : bool :=
  match l with
  | [] => true
  | x :: r => negb (existsb (String.eqb x) r) && nodupb r
  end.

(** ** The request handler

    The part of [api_generate] that prepares the rendering call from the
    fields of the form: a field is the text sent, or absent. *)
Section Request.

Variable lanczos : Image -> Z -> Z -> Z -> Z -> pixel.

(** The builtin [int] on the text of a form field: the number, or a
    ValueError. *)
Variable int_of_text : string -> result Z.





End Request.

(** * Proofs

    ** Binary64 rounding *)

Lemma digits2_size p : digits2_pos p = Pos.size p.
Proof. induction p; simpl; congruence. Qed.

Lemma digits_bounds p :
  2 ^ (Zpos (digits2_pos p) - 1) <= Zpos p < 2 ^ Zpos (digits2_pos p).
Proof.
  rewrite digits2_size.
  pose proof (Pos.size_gt p) as Hgt. pose proof (Pos.size_le p) as Hle.
  split.
  - assert (H : 2 ^ Zpos (Pos.size p) <= 2 * Zpos p).
    { change 2 with (Zpos 2) at 1. rewrite <- Pos2Z.inj_pow. 
      change (2 * Zpos p) with (Zpos (p~0)). apply Pos2Z.pos_le_pos. exact Hle. }
    replace (Zpos (Pos.size p)) with (Z.succ (Zpos (Pos.size p) - 1)) in H by lia.
    rewrite Z.pow_succ_r in H by lia. lia.
  - change 2 with (Zpos 2). rewrite <- Pos2Z.inj_pow. apply Pos2Z.pos_lt_pos. exact Hgt.
Qed.

Lemma iter_pos_nat {A} (f : A -> A) p x :
  iter_pos f p x = Nat.iter (Pos.to_nat p) f x.
Proof.
  revert x. induction p; intros x; cbn [iter_pos].
  - rewrite !IHp. rewrite Pos2Nat.inj_xI. 
    replace (S (2 * Pos.to_nat p)) with (Pos.to_nat p + Pos.to_nat p + 1)%nat by lia.
    rewrite !Nat.iter_add. reflexivity.
  - rewrite !IHp. rewrite Pos2Nat.inj_xO.
    replace (2 * Pos.to_nat p)%nat with (Pos.to_nat p + Pos.to_nat p)%nat by lia.
    rewrite Nat.iter_add. reflexivity.
  - reflexivity.
Qed.

Lemma shr_1_m mrs : 0 <= shr_m mrs -> shr_m (shr_1 mrs) = shr_m mrs / 2.
Proof.
  destruct mrs as [m r s]; simpl. intros Hm.
  destruct m as [|[p|p|]|p]; simpl; try lia; try reflexivity.
  - rewrite Pos2Z.inj_xI. apply Z.div_unique with 1; lia.
  - rewrite Pos2Z.inj_xO. apply Z.div_unique with 0; lia.
Qed.

Lemma shr_1_r mrs : 0 <= shr_m mrs -> shr_r (shr_1 mrs) = Z.odd (shr_m mrs).
Proof.
  destruct mrs as [m r s]; simpl. intros Hm.
  destruct m as [|[p|p|]|p]; simpl; try lia; reflexivity.
Qed.

Lemma shr_1_s mrs : shr_s (shr_1 mrs) = shr_r mrs || shr_s mrs.
Proof.
  destruct mrs as [m r s]; simpl.
  destruct m as [|[p|p|]|[p|p|]]; reflexivity.
Qed.


Lemma shr_iter M (n : nat) : 0 <= M ->
  let mrs := Nat.iter n shr_1 (Build_shr_record M false false) in
  shr_m mrs = M / 2 ^ Z.of_nat n /\ (M mod 2 ^ Z.of_nat n = 0 -> exact_rec mrs).
Proof.
  intros HM. induction n as [|n IH].
  - simpl. rewrite Z.div_1_r. split; [reflexivity|]. intros _. split; reflexivity.
  - cbv zeta in *. rewrite Nat2Z.inj_succ, Z.pow_succ_r by lia.
    simpl Nat.iter. destruct IH as [IHm IHe].
    set (mrs := Nat.iter n shr_1 _) in *.
    assert (Hpos : 0 < 2 ^ Z.of_nat n) by (apply Z.pow_pos_nonneg; lia).
    assert (Hm0 : 0 <= shr_m mrs) by (rewrite IHm; apply Z.div_pos; lia).
    split.
    + rewrite shr_1_m by exact Hm0. rewrite IHm.
      rewrite Z.div_div by lia. f_equal. lia.
    + intros Hmod.
      assert (Hdiv : M = 2 ^ Z.of_nat n * (2 * (M / (2 * 2 ^ Z.of_nat n)))).
      { pose proof (Z.div_mod M (2 * 2 ^ Z.of_nat n) ltac:(lia)). lia. }
      assert (Hmodn : M mod 2 ^ Z.of_nat n = 0).
      { rewrite Hdiv at 1. rewrite Z.mul_comm. apply Z.mod_mul. lia. }
      destruct (IHe Hmodn) as [Hr Hs].
      split.
      * rewrite shr_1_r by exact Hm0. rewrite IHm.
        rewrite Hdiv at 1. rewrite Z.mul_comm, Z.div_mul by lia.
        rewrite Z.odd_mul. reflexivity.
      * rewrite shr_1_s, Hr, Hs. reflexivity.
Qed.

Lemma digits_unique p n :
  2 ^ (n - 1) <= Zpos p < 2 ^ n -> Zpos (digits2_pos p) = n.
Proof.
  intros [Hlo Hhi]. pose proof (digits_bounds p) as [Dlo Dhi].
  set (d := Zpos (digits2_pos p)) in *.
  assert (Hd : 0 < d) by (subst d; lia).
  assert (Hn : 0 < n).
  { destruct (Z_lt_le_dec 0 n) as [|Hle]; [assumption|].
    destruct (Z.eq_dec n 0) as [->|]; [simpl in Hhi; lia|].
    rewrite Z.pow_neg_r in Hhi by lia. lia. }
  destruct (Z_lt_le_dec d n) as [Hlt|Hge].
  - assert (2 ^ d <= 2 ^ (n - 1)) by (apply Z.pow_le_mono_r; lia). lia.
  - destruct (Z_lt_le_dec n d) as [Hlt|Hge'].
    + assert (2 ^ n <= 2 ^ (d - 1)) by (apply Z.pow_le_mono_r; lia). lia.
    + lia.
Qed.

Lemma fexp_normal x : -1074 <= x - 53 -> fexp 53 1024 x = x - 53.
Proof. unfold fexp, emin. lia. Qed.

Lemma shr_fexp_exact m e :
  -1074 <= Zpos (digits2_pos m) + e - 53 ->
  exists mrs,
    shr_fexp 53 1024 (Zpos m) e loc_Exact
      = (mrs, e + Z.max 0 (Zpos (digits2_pos m) - 53))
    /\ shr_m mrs = Zpos m / 2 ^ Z.max 0 (Zpos (digits2_pos m) - 53)
    /\ (Zpos m mod 2 ^ Z.max 0 (Zpos (digits2_pos m) - 53) = 0 -> exact_rec mrs).
Proof.
  intros Hn. unfold shr_fexp. cbn [Zdigits2 shr_record_of_loc].
  rewrite fexp_normal by lia.
  replace (Zpos (digits2_pos m) + e - 53 - e) with (Zpos (digits2_pos m) - 53) by lia.
  destruct (Zpos (digits2_pos m) - 53) as [|p|p] eqn:Hk; cbn [shr].
  - eexists; split; [rewrite Z.add_0_r; reflexivity|].
    cbn [shr_m Z.max]. simpl. rewrite Z.div_1_r. split; [reflexivity|]. intros _; split; reflexivity.
  - rewrite iter_pos_nat.
    pose proof (shr_iter (Zpos m) (Pos.to_nat p) ltac:(lia)) as Hit. cbv zeta in Hit.
    rewrite positive_nat_Z in Hit.
    eexists; split; [reflexivity|].
    replace (Z.max 0 (Zpos p)) with (Zpos p) by lia. exact Hit.
  - eexists; split; [rewrite Z.add_0_r; reflexivity|].
    replace (Z.max 0 (Zneg p)) with 0 by lia.
    cbn [shr_m]. simpl. rewrite Z.div_1_r. split; [reflexivity|]. intros _; split; reflexivity.
Qed.

Lemma round_nearest_even_bounds mrs :
  let m2 := round_nearest_even (shr_m mrs) (loc_of_shr_record mrs) in
  shr_m mrs <= m2 <= shr_m mrs + 1 /\ (exact_rec mrs -> m2 = shr_m mrs).
Proof.
  destruct mrs as [m r s]; cbn [shr_m]. unfold exact_rec; cbn [shr_r shr_s].
  destruct r, s; cbn [loc_of_shr_record round_nearest_even];
    try destruct (Z.even m); split; try lia; intros [? ?]; try discriminate; reflexivity.
Qed.

(** Rounding a positive significand to binary64, away from the subnormal
    and the overflow range. *)
Lemma binary_round_aux_finite m e :
  -1074 <= Zpos (digits2_pos m) + e - 53 ->
  e + Z.max 0 (Zpos (digits2_pos m) - 53) + 1 <= 971 ->
  exists p3 m2 k2,
    binary_round_aux 53 1024 false (Zpos m) e loc_Exact
      = S754_finite false p3 (e + Z.max 0 (Zpos (digits2_pos m) - 53) + k2)
    /\ 0 <= k2 <= 1
    /\ Zpos p3 * 2 ^ k2 = m2
    /\ (m2 < 2 ^ 53 -> k2 = 0)
    /\ Zpos m / 2 ^ Z.max 0 (Zpos (digits2_pos m) - 53) <= m2
       <= Zpos m / 2 ^ Z.max 0 (Zpos (digits2_pos m) - 53) + 1
    /\ (Zpos m mod 2 ^ Z.max 0 (Zpos (digits2_pos m) - 53) = 0 ->
        m2 = Zpos m / 2 ^ Z.max 0 (Zpos (digits2_pos m) - 53)).
Proof.
  intros Hlo Hhi.
  set (dg := Zpos (digits2_pos m)) in *.
  set (k := Z.max 0 (dg - 53)) in *.
  destruct (shr_fexp_exact m e Hlo) as (mrs & Hshr & Hm1 & Hex1).
  fold dg in Hshr, Hm1, Hex1. fold k in Hshr, Hm1, Hex1.
  pose proof (round_nearest_even_bounds mrs) as Hrne. cbv zeta in Hrne.
  set (m2 := round_nearest_even (shr_m mrs) (loc_of_shr_record mrs)) in *.
  destruct Hrne as [Hm2 Hm2e].
  pose proof (digits_bounds m) as [Dlo Dhi]. fold dg in Dlo, Dhi.
  assert (Hdg : 0 < dg) by (subst dg; lia).
  assert (Hk0 : 0 <= k) by (subst k; lia).
  assert (Hpk : 0 < 2 ^ k) by (apply Z.pow_pos_nonneg; lia).
  (* the shifted significand has between 1 and 53 digits *)
  assert (Hm1lo : 2 ^ (dg - 1 - k) <= shr_m mrs).
  { rewrite Hm1. apply Z.div_le_lower_bound; [lia|].
    rewrite <- Z.pow_add_r by lia. replace (k + (dg - 1 - k)) with (dg - 1) by lia. lia. }
  assert (Hm1hi : shr_m mrs < 2 ^ (dg - k)).
  { rewrite Hm1. apply Z.div_lt_upper_bound; [lia|].
    rewrite <- Z.pow_add_r by lia. replace (k + (dg - k)) with dg by lia. lia. }
  assert (Hm1pos : 0 < shr_m mrs).
  { assert (0 < 2 ^ (dg - 1 - k)) by (apply Z.pow_pos_nonneg; lia). lia. }
  assert (H53 : 2 ^ (dg - k) <= 2 ^ 53) by (apply Z.pow_le_mono_r; lia).
  destruct m2 as [|p2|p2] eqn:Hp2; try lia.
  pose proof (digits_bounds p2) as [D2lo D2hi].
  set (dg2 := Zpos (digits2_pos p2)) in *.
  assert (Hdg2lo : dg - k <= dg2).
  { destruct (Z_lt_le_dec dg2 (dg - k)) as [Hlt|]; [|lia].
    assert (2 ^ dg2 <= 2 ^ (dg - 1 - k)) by (apply Z.pow_le_mono_r; subst dg2; lia). lia. }
  assert (Hdg2hi : dg2 <= 54).
  { destruct (Z_lt_le_dec 54 dg2) as [Hlt|]; [|lia].
    assert (2 ^ 54 <= 2 ^ (dg2 - 1)) by (apply Z.pow_le_mono_r; lia).
    change (2 ^ 54) with (2 * 2 ^ 53) in *. lia. }
  destruct (shr_fexp_exact p2 (e + k)) as (mrs2 & Hshr2 & Hm3 & _).
  { fold dg2. lia. }
  fold dg2 in Hshr2, Hm3.
  set (k2 := Z.max 0 (dg2 - 53)) in *.
  assert (Hk2 : 0 <= k2 <= 1) by (subst k2; lia).
  assert (Hval : shr_m mrs2 * 2 ^ k2 = Zpos p2 /\ 0 < shr_m mrs2).
  { destruct (Z.eq_dec k2 0) as [E0|E1].
    - rewrite Hm3, E0. simpl (2 ^ 0). rewrite Z.div_1_r. lia.
    - assert (k2 = 1) by lia. assert (dg2 = 54) by (subst k2; lia).
      assert (Zpos p2 = 2 ^ 53).
      { replace (dg2 - 1) with 53 in D2lo by lia. lia. }
      rewrite Hm3. replace k2 with 1 by lia. rewrite H1. split; reflexivity. }
  destruct Hval as [Hval Hm3pos].
  unfold binary_round_aux. rewrite Hshr. fold m2. rewrite Hp2. rewrite Hshr2.
  destruct (shr_m mrs2) as [|p3|p3] eqn:Hp3; try lia.
  replace (e + k + k2 <=? 1024 - 53) with true by (symmetry; apply Z.leb_le; lia).
  exists p3, (Zpos p2), k2. repeat split; try lia.
  - intros Hlt. destruct (Z.eq_dec k2 0) as [|E1]; [assumption|].
    assert (dg2 = 54) by (subst k2; lia).
    replace (dg2 - 1) with 53 in D2lo by lia. lia.
  - intros Hmod. specialize (Hex1 Hmod). specialize (Hm2e Hex1). lia.
Qed.

Lemma pos_iter_xO m d : Zpos (Pos.iter xO m d) = Zpos m * 2 ^ Zpos d.
Proof.
  induction d as [|d IH] using Pos.peano_ind.
  - simpl. lia.
  - rewrite Pos.iter_succ, Pos2Z.inj_xO, IH, Pos2Z.inj_succ, Z.pow_succ_r by lia. lia.
Qed.

(** [float(H)] is exact below 2^53. *)
Lemma of_int_exact H :
  0 < H < 2 ^ 53 ->
  exists pH d,
    PyFloat.of_int H = Ok (S754_finite false pH (- d))
    /\ 0 <= d /\ Zpos pH = H * 2 ^ d.
Proof.
  intros [Hpos Hlt]. destruct H as [|p|p]; try lia.
  unfold PyFloat.of_int, PyFloat.prec, PyFloat.emax.
  cbn [binary_normalize]. unfold binary_round.
  pose proof (digits_bounds p) as [Dlo Dhi].
  set (dg := Zpos (digits2_pos p)) in *.
  assert (Hdg : 0 < dg <= 53).
  { split; [subst dg; lia|].
    destruct (Z_lt_le_dec 53 dg) as [Hgt|]; [|lia].
    assert (2 ^ 53 <= 2 ^ (dg - 1)) by (apply Z.pow_le_mono_r; lia). lia. }
  rewrite Z.add_0_r. rewrite fexp_normal by lia.
  unfold shl_align. rewrite Z.sub_0_r.
  destruct (dg - 53) as [|q|q] eqn:Hq; try lia.
  - (* 53 digits already *)
    destruct (binary_round_aux_finite p 0) as (p3 & m2 & k2 & Hr & Hk2 & Hv & Hz & Hb & He).
    { fold dg. lia. } { fold dg. lia. }
    fold dg in Hr, Hv, Hz, Hb, He.
    replace (Z.max 0 (dg - 53)) with 0 in * by lia.
    simpl (2 ^ 0) in *. rewrite Z.div_1_r in *.
    assert (Hm2 : m2 = Zpos p) by (apply He; apply Z.mod_1_r).
    assert (k2 = 0).
    { apply Hz. rewrite Hm2. replace dg with 53 in Dhi by lia. exact Dhi. }
    subst k2. rewrite Hr. exists p3, 0. simpl. split; [reflexivity|].
    simpl in Hv. lia.
  - (* fewer digits: the significand is shifted left *)
    assert (Hmz : Zpos (Pos.iter xO p q) = Zpos p * 2 ^ Zpos q) by apply pos_iter_xO.
    assert (Hpq : 0 < 2 ^ Zpos q) by (apply Z.pow_pos_nonneg; lia).
    assert (Hdz : Zpos (digits2_pos (Pos.iter xO p q)) = 53).
    { apply digits_unique. rewrite Hmz. split.
      - replace (53 - 1) with ((dg - 1) + Zpos q) by lia.
        rewrite Z.pow_add_r by lia. apply Z.mul_le_mono_nonneg_r; lia.
      - replace 53 with (dg + Zpos q) by lia.
        rewrite Z.pow_add_r by lia. apply Z.mul_lt_mono_pos_r; lia. }
    destruct (binary_round_aux_finite (Pos.iter xO p q) (Zneg q))
      as (p3 & m2 & k2 & Hr & Hk2 & Hv & Hz & Hb & He).
    { rewrite Hdz. lia. } { rewrite Hdz. lia. }
    rewrite Hdz in Hr, Hb, He.
    replace (Z.max 0 (53 - 53)) with 0 in * by lia.
    simpl (2 ^ 0) in *. rewrite Z.div_1_r in *.
    assert (Hm2 : m2 = Zpos (Pos.iter xO p q)) by (apply He; apply Z.mod_1_r).
    assert (k2 = 0).
    { apply Hz. rewrite Hm2.
      pose proof (digits_bounds (Pos.iter xO p q)) as [_ Hh]. rewrite Hdz in Hh. exact Hh. }
    subst k2. rewrite Hr. exists p3, (Zpos q). 
    replace (Zneg q + 0 + 0) with (- Zpos q) by lia.
    split; [reflexivity|]. split; [lia|]. simpl in Hv. lia.
Qed.

Lemma byte_quotients :
  forallb (fun n => match PyFloat.truediv (Z.of_nat n) 255 with
                    | Ok q => unit_fraction q
                    | Raise _ => false
                    end) (seq 1 255) = true.
Proof. vm_compute. reflexivity. Qed.

Lemma byte_quotient d :
  1 <= d <= 255 ->
  exists m e, PyFloat.truediv d 255 = Ok (S754_finite false m e)
              /\ -100 <= e < 0 /\ Zpos m <= 2 ^ (- e).
Proof.
  intros Hd. pose proof byte_quotients as Ht.
  rewrite forallb_forall in Ht. specialize (Ht (Z.to_nat d)).
  rewrite Z2Nat.id in Ht by lia.
  assert (Hin : In (Z.to_nat d) (seq 1 255)) by (apply in_seq; lia).
  specialize (Ht Hin).
  destruct (PyFloat.truediv d 255) as [q|]; [|discriminate].
  destruct q as [| | |[] m e]; try discriminate.
  exists m, e. split; [reflexivity|].
  unfold unit_fraction in Ht.
  apply andb_prop in Ht. destruct Ht as [Ht H3].
  apply andb_prop in Ht. destruct Ht as [H1 H2].
  apply Z.ltb_lt in H1. apply Z.leb_le in H2. apply Z.leb_le in H3. lia.
Qed.

Lemma trunc_scaled p3 e2 k2 H :
  e2 <= 0 -> 0 <= k2 -> Zpos p3 * 2 ^ k2 <= H * 2 ^ (- e2) ->
  exists v, PyFloat.trunc (S754_finite false p3 (e2 + k2)) = Ok v /\ 0 <= v <= H.
Proof.
  intros He2 Hk2 Hle. cbn [PyFloat.trunc].
  assert (Hp2 : 0 < 2 ^ k2) by (apply Z.pow_pos_nonneg; lia).
  assert (Hpe : 0 < 2 ^ (- e2)) by (apply Z.pow_pos_nonneg; lia).
  destruct (e2 + k2) as [|q|q] eqn:He3; eexists; (split; [reflexivity|]).
  - replace k2 with (- e2) in Hle by lia.
    split; [lia|]. apply Z.mul_le_mono_pos_r in Hle; lia.
  - assert (0 < 2 ^ Zpos q) by (apply Z.pow_pos_nonneg; lia).
    split; [lia|].
    replace k2 with (Zpos q + - e2) in Hle by lia.
    rewrite Z.pow_add_r, Z.mul_assoc in Hle by lia.
    apply Z.mul_le_mono_pos_r in Hle; lia.
  - assert (0 < 2 ^ Zpos q) by (apply Z.pow_pos_nonneg; lia).
    split; [apply Z.div_pos; lia|].
    apply Z.div_le_upper_bound; [lia|].
    replace (- e2) with (Zpos q + k2) in Hle by lia.
    rewrite Z.pow_add_r, Z.mul_assoc in Hle by lia.
    apply Z.mul_le_mono_pos_r in Hle; lia.
Qed.

(** The product of a quotient at most one and an exact height, rounded and
    truncated, is an integer between zero and the height. *)
Lemma mul_trunc_bound mq eq pH d H :
  -100 <= eq < 0 -> Zpos mq <= 2 ^ (- eq) ->
  0 <= d -> 0 < H < 2 ^ 53 -> Zpos pH = H * 2 ^ d ->
  exists v,
    PyFloat.trunc (SFmul 53 1024 (S754_finite false mq eq)
                     (S754_finite false pH (- d))) = Ok v
    /\ 0 <= v <= H.
Proof.
  intros Heq Hq Hd HH HpH. cbn [SFmul xorb].
  set (M := (mq * pH)%positive). set (E := eq + - d).
  pose proof (digits_bounds M) as [Dlo Dhi].
  set (dg := Zpos (digits2_pos M)) in *.
  assert (Hdg : 0 < dg) by (subst dg; lia).
  assert (Hpd : 0 < 2 ^ d) by (apply Z.pow_pos_nonneg; lia).
  assert (HpE : 0 < 2 ^ (- E)) by (apply Z.pow_pos_nonneg; subst E; lia).
  assert (HM : Zpos M <= H * 2 ^ (- E)).
  { subst M E. rewrite Pos2Z.inj_mul, HpH.
    replace (- (eq + - d)) with (- eq + d) by lia. rewrite Z.pow_add_r by lia.
    transitivity (2 ^ (- eq) * (H * 2 ^ d)); [|lia].
    apply Z.mul_le_mono_nonneg_r; lia. }
  set (k := Z.max 0 (dg - 53)).
  assert (Hk : 0 <= k) by (subst k; lia).
  assert (He2 : E + k <= 0).
  { destruct (Z_lt_le_dec 0 (E + k)) as [Hgt|]; [|lia].
    assert (k = dg - 53) by (subst k E; lia).
    assert (Hlt : Zpos M < 2 ^ (53 + - E)).
    { rewrite Z.pow_add_r by (subst E; lia).
      apply Z.le_lt_trans with (H * 2 ^ (- E)); [exact HM|].
      apply Z.mul_lt_mono_pos_r; lia. }
    assert (2 ^ (53 + - E) <= 2 ^ (dg - 1)) by (apply Z.pow_le_mono_r; lia).
    lia. }
  assert (Hd1 : d < dg).
  { destruct (Z_lt_le_dec d dg) as [|Hge]; [assumption|].
    assert (2 ^ dg <= 2 ^ d) by (apply Z.pow_le_mono_r; lia).
    assert (2 ^ d <= Zpos M).
    { subst M. rewrite Pos2Z.inj_mul, HpH. nia. }
    lia. }
  destruct (binary_round_aux_finite M E) as (p3 & m2 & k2 & Hr & Hk2 & Hv & _ & Hb & Hex).
  { fold dg. subst E. lia. } { fold dg. fold k. lia. }
  fold dg in Hr, Hb, Hex. fold k in Hr, Hb, Hex.
  rewrite Hr.
  assert (Hpk : 0 < 2 ^ k) by (apply Z.pow_pos_nonneg; lia).
  assert (Hup : (m2 - 1) * 2 ^ k < Zpos M).
  { pose proof (Z.div_mod (Zpos M) (2 ^ k) ltac:(lia)) as Hdm.
    pose proof (Z.mod_pos_bound (Zpos M) (2 ^ k) Hpk) as Hmb.
    destruct (Z.eq_dec (Zpos M mod 2 ^ k) 0) as [Hz|Hnz].
    - rewrite (Hex Hz). nia.
    - assert ((m2 - 1) * 2 ^ k <= (Zpos M / 2 ^ k) * 2 ^ k)
        by (apply Z.mul_le_mono_nonneg_r; lia).
      lia. }
  assert (Hm2 : m2 <= H * 2 ^ (- (E + k))).
  { assert (Hs : H * 2 ^ (- E) = H * 2 ^ (- (E + k)) * 2 ^ k).
    { rewrite <- Z.mul_assoc, <- Z.pow_add_r by lia. f_equal. f_equal. lia. }
    rewrite Hs in HM.
    assert ((m2 - 1) * 2 ^ k < H * 2 ^ (- (E + k)) * 2 ^ k) by lia.
    apply Z.mul_lt_mono_pos_r in H0; lia. }
  apply trunc_scaled; lia.
Qed.

(** ** The header parser *)

Lemma read_length h n :
  length (fst (read h n)) = Nat.min n (length (content h) - pos h).
Proof.
  unfold read. cbn [fst]. rewrite length_firstn, length_skipn. reflexivity.
Qed.

Lemma read_content h n : content (snd (read h n)) = content h.
Proof. reflexivity. Qed.

Lemma read_pos h n : pos (snd (read h n)) = (pos h + length (fst (read h n)))%nat.
Proof. reflexivity. Qed.

Lemma read_I_Ok h v h' :
  read_I h = Ok (v, h') ->
  (pos h + 4 <= length (content h))%nat
  /\ h' = mkHandle (content h) (pos h + 4)
  /\ v = le_value (firstn 4 (skipn (pos h) (content h))).
Proof.
  unfold read_I, unpack_I. pose proof (read_length h 4) as Hl.
  unfold read in *. cbn [fst] in Hl.
  destruct (Nat.eqb _ 4) eqn:E; cbn [bind]; [|discriminate].
  apply Nat.eqb_eq in E. rewrite E. rewrite E in Hl.
  intros Heq. inversion Heq. split; [lia|]. split; reflexivity.
Qed.

Lemma read_H_Ok h v h' :
  read_H h = Ok (v, h') ->
  (pos h + 2 <= length (content h))%nat
  /\ h' = mkHandle (content h) (pos h + 2)
  /\ v = le_value (firstn 2 (skipn (pos h) (content h))).
Proof.
  unfold read_H, unpack_H. pose proof (read_length h 2) as Hl.
  unfold read in *. cbn [fst] in Hl.
  destruct (Nat.eqb _ 2) eqn:E; cbn [bind]; [|discriminate].
  apply Nat.eqb_eq in E. rewrite E. rewrite E in Hl.
  intros Heq. inversion Heq. split; [lia|]. split; reflexivity.
Qed.

(** A tag read that is followed by a successful read was complete. *)
Lemma read_tag_then h n :
  (0 < n)%nat ->
  (pos (snd (read h 4)) + n <= length (content h))%nat ->
  snd (read h 4) = mkHandle (content h) (pos h + 4).
Proof.
  intros Hn Hle. rewrite read_pos in Hle. pose proof (read_length h 4) as Hl.
  unfold read in *. cbn [fst snd] in *. f_equal. lia.
Qed.

Lemma parse_wav_header_exists file :
  (44 <= length file)%nat ->
  exists hd,
    parse_wav_header (open_rb file) = Ok (hd, mkHandle file 44)
    /\ num_channels hd = le_value (firstn 2 (skipn 22 file))
    /\ bits_per_sample hd = le_value (firstn 2 (skipn 34 file)).
Proof.
  intros Hl.
  assert (Htag : forall p, (p + 4 <= length file)%nat ->
            read (mkHandle file p) 4
            = (firstn 4 (skipn p file), mkHandle file (p + 4))).
  { intros p Hp. unfold read. cbn [content pos]. f_equal. f_equal.
    rewrite length_firstn, length_skipn. lia. }
  assert (HI : forall p, (p + 4 <= length file)%nat ->
            read_I (mkHandle file p)
            = Ok (le_value (firstn 4 (skipn p file)), mkHandle file (p + 4))).
  { intros p Hp. unfold read_I. rewrite Htag by exact Hp. unfold unpack_I.
    rewrite length_firstn, length_skipn.
    replace (Nat.min 4 (length file - p)) with 4%nat by lia. reflexivity. }
  assert (HH : forall p, (p + 2 <= length file)%nat ->
            read_H (mkHandle file p)
            = Ok (le_value (firstn 2 (skipn p file)), mkHandle file (p + 2))).
  { intros p Hp. unfold read_H, read, unpack_H. cbn [content pos].
    rewrite length_firstn, length_skipn.
    replace (Nat.min 2 (length file - p)) with 2%nat by lia. reflexivity. }
  unfold parse_wav_header, read_tag, open_rb.
  rewrite (Htag 0%nat) by lia. cbn [bind snd fst Nat.add].
  rewrite (HI 4%nat) by lia. cbn [bind snd fst Nat.add].
  rewrite (Htag 8%nat) by lia. cbn [bind snd fst Nat.add].
  rewrite (Htag 12%nat) by lia. cbn [bind snd fst Nat.add].
  rewrite (HI 16%nat) by lia. cbn [bind snd fst Nat.add].
  rewrite (HH 20%nat) by lia. cbn [bind snd fst Nat.add].
  rewrite (HH 22%nat) by lia. cbn [bind snd fst Nat.add].
  rewrite (HI 24%nat) by lia. cbn [bind snd fst Nat.add].
  rewrite (HI 28%nat) by lia. cbn [bind snd fst Nat.add].
  rewrite (HH 32%nat) by lia. cbn [bind snd fst Nat.add].
  rewrite (HH 34%nat) by lia. cbn [bind snd fst Nat.add].
  rewrite (Htag 36%nat) by lia. cbn [bind snd fst Nat.add].
  rewrite (HI 40%nat) by lia. cbn [bind snd fst Nat.add].
  eexists. split; [reflexivity|]. split; reflexivity.
Qed.

Lemma read_snd_props h n :
  content (snd (read h n)) = content h
  /\ (pos h <= pos (snd (read h n)) <= pos h + n)%nat
  /\ ((pos (snd (read h n)) < pos h + n)%nat ->
      (length (content h) <= pos (snd (read h n)))%nat).
Proof.
  rewrite read_pos, read_length. cbn [read snd content]. split; [reflexivity|lia].
Qed.

Lemma parse_wav_header_Ok file hd h :
  parse_wav_header (open_rb file) = Ok (hd, h) ->
  (44 <= length file)%nat /\ h = mkHandle file 44
  /\ num_channels hd = le_value (firstn 2 (skipn 22 file))
  /\ bits_per_sample hd = le_value (firstn 2 (skipn 34 file)).
Proof.
  intros Hall. pose proof Hall as Hrun. revert Hrun.
  unfold parse_wav_header, read_tag. cbn [bind snd fst].
  pose proof (read_snd_props (open_rb file) 4) as P1.
  set (h1 := snd (read (open_rb file) 4)) in *. clearbody h1.
  destruct (read_I h1) as [[v2 h2]|] eqn:E2; cbn [bind snd fst]; [|discriminate].
  pose proof (read_snd_props h2 4) as P3.
  set (h3 := snd (read h2 4)) in *. clearbody h3.
  pose proof (read_snd_props h3 4) as P4.
  set (h4 := snd (read h3 4)) in *. clearbody h4.
  destruct (read_I h4) as [[v5 h5]|] eqn:E5; cbn [bind snd fst]; [|discriminate].
  destruct (read_H h5) as [[v6 h6]|] eqn:E6; cbn [bind snd fst]; [|discriminate].
  destruct (read_H h6) as [[v7 h7]|] eqn:E7; cbn [bind snd fst]; [|discriminate].
  destruct (read_I h7) as [[v8 h8]|] eqn:E8; cbn [bind snd fst]; [|discriminate].
  destruct (read_I h8) as [[v9 h9]|] eqn:E9; cbn [bind snd fst]; [|discriminate].
  destruct (read_H h9) as [[v10 h10]|] eqn:E10; cbn [bind snd fst]; [|discriminate].
  destruct (read_H h10) as [[v11 h11]|] eqn:E11; cbn [bind snd fst]; [|discriminate].
  pose proof (read_snd_props h11 4) as P12.
  set (h12 := snd (read h11 4)) in *. clearbody h12.
  destruct (read_I h12) as [[v13 h13]|] eqn:E13; cbn [bind snd fst]; [|discriminate].
  intros _.
  apply read_I_Ok in E2, E5, E8, E9, E13. apply read_H_Ok in E6, E7, E10, E11.
  destruct E2 as (L2 & -> & _), E5 as (L5 & -> & _), E6 as (L6 & -> & _),
           E7 as (L7 & -> & _), E8 as (L8 & -> & _), E9 as (L9 & -> & _),
           E10 as (L10 & -> & _), E11 as (L11 & -> & _), E13 as (L13 & _ & _).
  destruct h1 as [c1 p1], h3 as [c3 p3], h4 as [c4 p4], h12 as [c12 p12].
  cbn [content pos open_rb] in *.
  destruct P1 as (-> & B1 & X1), P3 as (-> & B3 & X3), P4 as (-> & B4 & X4),
           P12 as (-> & B12 & X12).
  assert (Hlen : (44 <= length file)%nat) by lia.
  destruct (parse_wav_header_exists file Hlen) as (hd' & Hp & Hc & Hb).
  rewrite Hp in Hall. inversion Hall; subst. auto.
Qed.

Lemma byte_val_range b : 0 <= byte_val b <= 255.
Proof.
  unfold byte_val. pose proof (Byte.to_N_bounded b). lia.
Qed.

Lemma le_value_nonneg bs : 0 <= le_value bs.
Proof.
  induction bs as [|b bs IH]; cbn [le_value]; [lia|].
  pose proof (byte_val_range b). lia.
Qed.

(** ** Pixel heights *)

Lemma byte_quotients_near :
  forallb (fun n => match PyFloat.truediv (Z.of_nat n) 255 with
                    | Ok q => near_quotient (Z.of_nat n) q
                    | Raise _ => false
                    end) (seq 1 255) = true.
Proof. vm_compute. reflexivity. Qed.

Lemma byte_quotient_near d :
  1 <= d <= 255 ->
  exists m a, PyFloat.truediv d 255 = Ok (S754_finite false m (- a))
              /\ 52 <= a <= 100 /\ Zpos m < 2 ^ 53
              /\ - 127 <= 255 * Zpos m - d * 2 ^ a <= 127.
Proof.
  intros Hd. pose proof byte_quotients_near as Ht.
  rewrite forallb_forall in Ht. specialize (Ht (Z.to_nat d)).
  rewrite Z2Nat.id in Ht by lia.
  assert (Hin : In (Z.to_nat d) (seq 1 255)) by (apply in_seq; lia).
  specialize (Ht Hin).
  destruct (PyFloat.truediv d 255) as [q|]; [|discriminate].
  destruct q as [| | |[] m e]; try discriminate.
  exists m, (- e). rewrite Z.opp_involutive. split; [reflexivity|].
  unfold near_quotient in Ht.
  apply andb_prop in Ht. destruct Ht as [Ht H4].
  apply andb_prop in Ht. destruct Ht as [Ht H3].
  apply andb_prop in Ht. destruct Ht as [H1 H2].
  apply Z.leb_le in H1, H2, H4. apply Z.ltb_lt in H3. lia.
Qed.

Lemma trunc_div p3 e2 k2 m2 :
  e2 <= 0 -> 0 <= k2 -> Zpos p3 * 2 ^ k2 = m2 ->
  PyFloat.trunc (S754_finite false p3 (e2 + k2)) = Ok (m2 / 2 ^ (- e2)).
Proof.
  intros He2 Hk2 Heq. cbn [PyFloat.trunc]. subst m2.
  assert (Hp2 : 0 < 2 ^ k2) by (apply Z.pow_pos_nonneg; lia).
  destruct (e2 + k2) as [|q|q] eqn:He3; f_equal.
  - replace (- e2) with k2 by lia. rewrite Z.div_mul by lia. reflexivity.
  - replace k2 with (Zpos q + - e2) by lia.
    assert (0 < 2 ^ (- e2)) by (apply Z.pow_pos_nonneg; lia).
    rewrite Z.pow_add_r, Z.mul_assoc by lia. rewrite Z.div_mul by lia.
    reflexivity.
  - replace (- e2) with (k2 + Zpos q) by lia.
    assert (0 < 2 ^ Zpos q) by (apply Z.pow_pos_nonneg; lia).
    rewrite Z.pow_add_r by lia.
    rewrite (Z.mul_comm (2 ^ k2) (2 ^ Zpos q)).
    rewrite Z.div_mul_cancel_r by lia. reflexivity.
Qed.

(** The product of a byte quotient and an exact height up to 2^40, rounded
    and truncated, against the exact rational [d * H / 255]. *)
Lemma mul_trunc_exact mq a pH sh H d :
  52 <= a <= 100 -> Zpos mq < 2 ^ 53 ->
  - 127 <= 255 * Zpos mq - d * 2 ^ a <= 127 ->
  0 <= sh -> 0 < H <= 2 ^ 40 -> Zpos pH = H * 2 ^ sh ->
  exists v,
    PyFloat.trunc (SFmul 53 1024 (S754_finite false mq (- a))
                     (S754_finite false pH (- sh))) = Ok v
    /\ 255 * v <= d * H <= 255 * (v + 1).
Proof.
  intros Ha Hmq Hnear Hsh HH HpH. cbn [SFmul xorb].
  set (M := (mq * pH)%positive). set (E := - a + - sh).
  pose proof (digits_bounds M) as [Dlo Dhi].
  set (dg := Zpos (digits2_pos M)) in *.
  assert (Hdg : 0 < dg) by (subst dg; lia).
  set (S := 2 ^ sh). set (A := 2 ^ a).
  assert (HS : 0 < S) by (apply Z.pow_pos_nonneg; lia).
  assert (HA : 2 ^ 52 <= A) by (apply Z.pow_le_mono_r; lia).
  assert (HM : Zpos M = Zpos mq * H * S).
  { subst M S. rewrite Pos2Z.inj_mul, HpH. ring. }
  assert (HH40 : H <= 1099511627776) by (change (2 ^ 40) with 1099511627776 in HH; lia).
  change (2 ^ 52) with 4503599627370496 in HA.
  change (2 ^ 53) with 9007199254740992 in Hmq.
  assert (HMlt : Zpos M < 2 ^ (53 + a + sh)).
  { rewrite HM, !Z.pow_add_r by lia. fold A S.
    change (2 ^ 53) with 9007199254740992.
    assert (Zpos mq * H < 9007199254740992 * A) by nia.
    nia. }
  set (k := Z.max 0 (dg - 53)).
  assert (Hk : 0 <= k) by (subst k; lia).
  assert (He2 : E + k <= 0).
  { destruct (Z_lt_le_dec 0 (E + k)) as [Hgt|]; [|lia].
    assert (k = dg - 53) by (subst k E; lia).
    assert (2 ^ (53 + a + sh) <= 2 ^ (dg - 1))
      by (apply Z.pow_le_mono_r; subst E; lia).
    lia. }
  assert (Hd1 : sh < dg).
  { destruct (Z_lt_le_dec sh dg) as [|Hge]; [assumption|].
    assert (2 ^ dg <= 2 ^ sh) by (apply Z.pow_le_mono_r; lia).
    fold S in H0. assert (S <= Zpos M) by (rewrite HM; nia). lia. }
  destruct (binary_round_aux_finite M E)
    as (p3 & m2 & k2 & Hr & Hk2 & Hv & _ & Hb & _).
  { fold dg. subst E. lia. } { fold dg. fold k. lia. }
  fold dg in Hr, Hb. fold k in Hr, Hb.
  rewrite Hr. rewrite (trunc_div p3 (E + k) k2 m2 He2 (proj1 Hk2) Hv).
  eexists. split; [reflexivity|].
  set (t := - (E + k)). set (T := 2 ^ t). set (B := 2 ^ k) in *.
  assert (HT : 0 < T) by (apply Z.pow_pos_nonneg; subst t; lia).
  assert (HB : 0 < B) by (apply Z.pow_pos_nonneg; lia).
  assert (HP : T * B = A * S).
  { subst T B A S. rewrite <- !Z.pow_add_r by (subst t; lia).
    f_equal. subst t E. lia. }
  set (v := m2 / T).
  pose proof (Z.div_mod m2 T ltac:(lia)) as Hvm.
  pose proof (Z.mod_pos_bound m2 T HT) as Hvr. fold v in Hvm.
  set (f := Zpos M / B) in *.
  pose proof (Z.div_mod (Zpos M) B ltac:(lia)) as Hfm.
  pose proof (Z.mod_pos_bound (Zpos M) B HB) as Hfr. fold f in Hfm.
  (* the size of the last place *)
  assert (HBs : B <= 2 * H * S).
  { subst B k. destruct (Z_le_gt_dec dg 53) as [Hle|Hgt].
    - replace (Z.max 0 (dg - 53)) with 0 by lia. change (2 ^ 0) with 1. nia.
    - replace (Z.max 0 (dg - 53)) with (dg - 53) by lia.
      assert (Hsplit : 2 ^ (dg - 1) = 2 ^ (dg - 53) * 4503599627370496).
      { change 4503599627370496 with (2 ^ 52).
        rewrite <- Z.pow_add_r by lia. f_equal. lia. }
      assert (0 < 2 ^ (dg - 53)) by (apply Z.pow_pos_nonneg; lia).
      assert (Zpos mq * H * S < 9007199254740992 * (H * S)) by nia.
      nia. }
  assert (Hup : v * (A * S) <= Zpos M + B).
  { rewrite <- HP. nia. }
  assert (Hlo : Zpos M < (v + 1) * (A * S)).
  { rewrite <- HP. nia. }
  set (Q := H * S). set (P := A * S) in *.
  assert (HQ : 0 < Q) by (subst Q; apply Z.mul_pos_pos; lia).
  assert (HPpos : 0 < P) by (subst P; apply Z.mul_pos_pos; lia).
  assert (HMQ : Zpos M = Zpos mq * Q) by (rewrite HM; subst Q; ring).
  assert (HBQ : B <= 2 * Q) by (subst Q; lia).
  assert (HQP : 637 * Q < P).
  { subst Q P.
    assert (H * S <= 1099511627776 * S)
      by (apply Z.mul_le_mono_nonneg_r; lia).
    assert (4503599627370496 * S <= A * S)
      by (apply Z.mul_le_mono_nonneg_r; lia).
    lia. }
  assert (F2 : (d * A + 127 - 255 * Zpos mq) * Q
               = d * A * Q + 127 * Q - 255 * Zpos M)
    by (rewrite HMQ; ring).
  assert (F3 : (255 * Zpos mq - (d * A - 127)) * Q
               = 255 * Zpos M - d * A * Q + 127 * Q)
    by (rewrite HMQ; ring).
  pose proof (Z.mul_nonneg_nonneg (d * A + 127 - 255 * Zpos mq) Q
                ltac:(subst A; lia) ltac:(lia)) as G2.
  pose proof (Z.mul_nonneg_nonneg (255 * Zpos mq - (d * A - 127)) Q
                ltac:(subst A; lia) ltac:(lia)) as G3.
  rewrite F2 in G2. rewrite F3 in G3.
  split.
  - destruct (Z_le_gt_dec (255 * v) (d * H)) as [|Hgt]; [assumption|exfalso].
    pose proof (Z.mul_nonneg_nonneg (255 * v - d * H - 1) P
                  ltac:(lia) ltac:(lia)) as G1.
    assert (F1 : (255 * v - d * H - 1) * P
                 = 255 * (v * P) - d * A * Q - P)
      by (subst P Q; ring).
    rewrite F1 in G1. lia.
  - destruct (Z_le_gt_dec (d * H) (255 * (v + 1))) as [|Hgt];
      [assumption|exfalso].
    pose proof (Z.mul_nonneg_nonneg (d * H - 255 * (v + 1) - 1) P
                  ltac:(lia) ltac:(lia)) as G1.
    assert (F1 : (d * H - 255 * (v + 1) - 1) * P
                 = d * A * Q - 255 * ((v + 1) * P) - P)
      by (subst P Q; ring).
    rewrite F1 in G1. lia.
Qed.

Lemma pixel_height_zero_or_top :
  forallb (fun n => match pixel_height (Z.of_nat n) 0,
                          pixel_height (Z.of_nat n) (2 ^ 53) with
                    | Ok v0, Ok v1 =>
                        (v0 =? 0) && (0 <=? v1) && (v1 <=? 2 ^ 53)
                    | _, _ => false
                    end) (seq 0 256) = true.
Proof. vm_compute. reflexivity. Qed.

(** For a byte value and a height up to 2^53 the conversion returns, and
    its result lies between zero and the height. *)
Lemma pixel_height_range data H :
  0 <= data <= 255 -> 0 <= H <= 2 ^ 53 ->
  exists v, pixel_height data H = Ok v /\ 0 <= v <= H.
Proof.
  intros Hd HH.
  destruct (Z.eq_dec H 0) as [->|Hnz]; [|destruct (Z.eq_dec H (2 ^ 53)) as [->|Hnt]].
  - pose proof pixel_height_zero_or_top as Ht. rewrite forallb_forall in Ht.
    specialize (Ht (Z.to_nat data) ltac:(apply in_seq; lia)).
    rewrite Z2Nat.id in Ht by lia.
    destruct (pixel_height data 0) as [v0|]; [|discriminate].
    destruct (pixel_height data (2 ^ 53)) as [v1|]; [|discriminate].
    exists v0. split; [reflexivity|].
    apply andb_prop in Ht. destruct Ht as [Ht _].
    apply andb_prop in Ht. destruct Ht as [Ht _]. apply Z.eqb_eq in Ht. lia.
  - pose proof pixel_height_zero_or_top as Ht. rewrite forallb_forall in Ht.
    specialize (Ht (Z.to_nat data) ltac:(apply in_seq; lia)).
    rewrite Z2Nat.id in Ht by lia.
    destruct (pixel_height data 0) as [v0|]; [|discriminate].
    destruct (pixel_height data (2 ^ 53)) as [v1|]; [|discriminate].
    exists v1. split; [reflexivity|].
    apply andb_prop in Ht. destruct Ht as [Ht H2].
    apply andb_prop in Ht. destruct Ht as [_ H1].
    apply Z.leb_le in H1. apply Z.leb_le in H2. lia.
  - destruct (of_int_exact H ltac:(lia)) as (pH & d & Hof & Hd0 & HpH).
    unfold pixel_height, py_int, PyFloat.mul_int. rewrite Hof.
    destruct (Z.eq_dec data 0) as [->|Hdz].
    + exists 0. split; [reflexivity|lia].
    + destruct (byte_quotient data ltac:(lia)) as (mq & eq & Hq & Heq & Hle).
      rewrite Hq. cbn [bind]. unfold PyFloat.prec, PyFloat.emax.
      apply mul_trunc_bound; try assumption; lia.
Qed.

(** For a byte value and a height up to 2^40 the conversion returns [v]
    with [255 * v <= d * H <= 255 * (v + 1)]. *)
Lemma pixel_height_exact d H :
  0 <= d <= 255 -> 0 <= H <= 2 ^ 40 ->
  exists v, pixel_height d H = Ok v /\ 255 * v <= d * H <= 255 * (v + 1).
Proof.
  intros Hd HH.
  assert (H53 : 2 ^ 40 < 2 ^ 53) by (apply Z.pow_lt_mono_r; lia).
  destruct (Z.eq_dec H 0) as [->|Hnz].
  - pose proof pixel_height_zero_or_top as Ht. rewrite forallb_forall in Ht.
    specialize (Ht (Z.to_nat d) ltac:(apply in_seq; lia)).
    rewrite Z2Nat.id in Ht by lia.
    destruct (pixel_height d 0) as [v0|]; [|discriminate].
    destruct (pixel_height d (2 ^ 53)) as [v1|]; [|discriminate].
    exists v0. split; [reflexivity|].
    apply andb_prop in Ht. destruct Ht as [Ht _].
    apply andb_prop in Ht. destruct Ht as [Ht _]. apply Z.eqb_eq in Ht. lia.
  - destruct (of_int_exact H ltac:(lia)) as (pH & sh & Hof & Hsh & HpH).
    unfold pixel_height, py_int, PyFloat.mul_int. rewrite Hof.
    destruct (Z.eq_dec d 0) as [->|Hdz].
    + exists 0. split; [reflexivity|lia].
    + destruct (byte_quotient_near d ltac:(lia))
        as (mq & a & Hq & Ha & Hmq & Hnear).
      rewrite Hq. cbn [bind]. unfold PyFloat.prec, PyFloat.emax.
      apply mul_trunc_exact; try assumption; lia.
Qed.

Lemma exact_pixel_between H value v :
  255 * v <= value * H <= 255 * (v + 1) ->
  ((value * H) mod 255 <> 0 -> v = exact_pixel H value)
  /\ exact_pixel H value - 1 <= v <= exact_pixel H value.
Proof.
  intros [Hlo Hhi]. unfold exact_pixel.
  pose proof (Z.div_mod (value * H) 255 ltac:(lia)) as Hdm.
  pose proof (Z.mod_pos_bound (value * H) 255 ltac:(lia)) as Hmb.
  split; [intros Hnz|]; lia.
Qed.

Lemma convertible_small H : 0 <= H <= 2 ^ 53 -> convertible H.
Proof.
  intros HH data Hd.
  destruct (pixel_height_range data H Hd HH) as (v & Hv & _). eauto.
Qed.

(** The conversion is the binary64 one: it is not the floor of the exact
    quotient. *)
Example pixel_height_binary64 :
  pixel_height 155 51 = Ok 30 /\ 155 * 51 / 255 = 31.
Proof. split; vm_compute; reflexivity. Qed.

Lemma sample_data_two b1 b2 :
  sample_data 2 [b1; b2] = spec_sample_value [b1; b2].
Proof.
  unfold sample_data, spec_sample_value. cbn [Z.eqb Pos.eqb nth].
  destruct b2; reflexivity.
Qed.

Lemma sample_data_spec bps sample :
  Z.of_nat (length sample) = bps ->
  sample_data bps sample = spec_sample_value sample.
Proof.
  intros Hl. destruct sample as [|b1 [|b2 [|b3 rest]]]; cbn [length] in Hl.
  - subst bps. reflexivity.
  - subst bps. reflexivity.
  - subst bps. apply sample_data_two.
  - unfold sample_data, spec_sample_value.
    replace (bps =? 1) with false by (symmetry; apply Z.eqb_neq; lia).
    replace (bps =? 2) with false by (symmetry; apply Z.eqb_neq; lia).
    reflexivity.
Qed.

Lemma spec_sample_value_range sample : 0 <= spec_sample_value sample <= 255.
Proof.
  destruct sample as [|b1 [|b2 [|b3 rest]]]; cbn [spec_sample_value]; try lia.
  - apply byte_val_range.
  - pose proof (byte_val_range b1) as H1.
    assert (Ht : 0 <= Z.land (byte_val b2) 127
                      + (if Z.testbit (byte_val b2) 7 then 0 else 128) <= 255)
      by (destruct b2; vm_compute; split; discriminate).
    set (t := Z.land (byte_val b2) 127 + _) in *.
    assert (Hq : (byte_val b1 + t * 256) / 256 = t).
    { symmetry. apply Z.div_unique with (byte_val b1); lia. }
    rewrite Hq. exact Ht.
Qed.

Lemma sample_data_range bps sample : 0 <= sample_data bps sample <= 255.
Proof.
  unfold sample_data.
  destruct (bps =? 1); [apply byte_val_range|].
  destruct (bps =? 2); [|lia].
  pose proof (spec_sample_value_range [nth 0 sample x00; nth 1 sample x00]) as Hr.
  rewrite <- sample_data_two in Hr. unfold sample_data in Hr.
  cbn [Z.eqb Pos.eqb nth] in Hr. exact Hr.
Qed.

(** ** The sampling loop *)

Lemma bind_Ok_inv {A B} (r : result A) (k : A -> result B) b :
  bind r k = Ok b -> exists a, r = Ok a /\ k a = Ok b.
Proof. destruct r as [a|e]; cbn; [eauto|discriminate]. Qed.

Lemma mapM_Ok_Forall2 {A B} (f : A -> result B) l bs :
  mapM f l = Ok bs -> Forall2 (fun a b => f a = Ok b) l bs.
Proof.
  revert bs. induction l as [|a l IH]; cbn [mapM]; intros bs Hm.
  - inversion Hm. constructor.
  - apply bind_Ok_inv in Hm. destruct Hm as (b & Hb & Hm).
    apply bind_Ok_inv in Hm. destruct Hm as (bs' & Hbs & Hm).
    inversion Hm; subst. constructor; auto.
Qed.

Lemma mapM_total {A B} (f : A -> result B) l :
  (forall a, In a l -> exists b, f a = Ok b) ->
  exists bs, mapM f l = Ok bs /\ length bs = length l.
Proof.
  induction l as [|a l IH]; intros Hf.
  - exists []. split; reflexivity.
  - destruct (Hf a (or_introl eq_refl)) as (b & Hb).
    destruct IH as (bs & Hbs & Hl); [intros; apply Hf; right; assumption|].
    exists (b :: bs). cbn [mapM]. rewrite Hb, Hbs. cbn. split; [reflexivity|congruence].
Qed.

Lemma mapM_ext_in {A B} (f g : A -> result B) l :
  (forall a, In a l -> f a = g a) -> mapM f l = mapM g l.
Proof.
  induction l as [|a l IH]; intros Hfg; [reflexivity|].
  cbn [mapM]. rewrite Hfg by (left; reflexivity).
  rewrite IH by (intros; apply Hfg; right; assumption). reflexivity.
Qed.

Lemma mapM_map {A B C} (f : B -> result C) (g : A -> B) l :
  mapM f (map g l) = mapM (fun a => f (g a)) l.
Proof.
  induction l as [|a l IH]; [reflexivity|].
  cbn [map mapM]. rewrite IH. reflexivity.
Qed.

Lemma takeWhile_In {A} (p : A -> bool) l a :
  In a (takeWhile p l) -> In a l /\ p a = true.
Proof.
  induction l as [|x l IH]; cbn [takeWhile]; [contradiction|].
  destruct (p x) eqn:Ep; [|contradiction].
  intros [->|Hin]; [split; [left; reflexivity|assumption]|].
  destruct (IH Hin). split; [right|]; assumption.
Qed.

Lemma takeWhile_all {A} (p : A -> bool) l :
  (forall a, In a l -> p a = true) -> takeWhile p l = l.
Proof.
  induction l as [|x l IH]; intros Hp; [reflexivity|].
  cbn [takeWhile]. rewrite Hp by (left; reflexivity).
  rewrite IH by (intros; apply Hp; right; assumption). reflexivity.
Qed.

Lemma range_In start count i :
  In i (range start count) <-> start <= i < start + Z.of_nat count.
Proof.
  revert start. induction count as [|n IH]; intros start; cbn [range].
  - split; [contradiction|lia].
  - cbn [In]. rewrite IH. lia.
Qed.

Lemma complete_length bps sample :
  0 <= bps -> (length sample <= Z.to_nat bps)%nat ->
  complete bps sample = true -> Z.of_nat (length sample) = bps.
Proof.
  unfold complete. intros Hb Hl Hc.
  apply negb_true_iff, Z.ltb_ge in Hc. lia.
Qed.

Lemma sample_at_length file bps ratio i :
  (length (sample_at file bps ratio i) <= Z.to_nat bps)%nat.
Proof. unfold sample_at. rewrite length_firstn. lia. Qed.

(** The loop computes the pixel heights of the retained samples, in order,
    up to the first incomplete sample or the first exception. *)
Lemma sample_loop_spec file bps ratio H D :
  D <> 0 -> 0 <= bps -> 0 <= ratio ->
  forall remaining data_point h acc,
    0 <= data_point ->
    content h = file ->
    pos h = Z.to_nat (44 + data_point * (ratio + bps)) ->
    sample_loop remaining bps ratio H D data_point h acc
    = (tail <- mapM (fun s => pixel_height (sample_data bps s) H)
                 (retained_samples file bps ratio D data_point remaining) ;;
       Ok (acc ++ tail)).
Proof.
  intros HD Hb Hr. induction remaining as [|n IH]; intros dp h acc Hdp Hc Hp.
  - cbn. rewrite app_nil_r. reflexivity.
  - cbn [sample_loop]. replace (D =? 0) with false by (symmetry; apply Z.eqb_neq; exact HD).
    unfold retained_samples, retained_indices. cbn [range filter].
    assert (Hnext : forall h',
                      pos h' = (pos h + Z.to_nat (ratio + bps))%nat ->
                      pos h' = Z.to_nat (44 + (dp + 1) * (ratio + bps))).
    { intros h' Hp'. rewrite Hp', Hp.
      assert (0 <= dp * (ratio + bps)) by nia.
      replace ((dp + 1) * (ratio + bps))
        with (dp * (ratio + bps) + (ratio + bps)) by ring.
      lia. }
    destruct (dp mod D =? 0) eqn:Em.
    + cbn [map takeWhile].
      assert (Hs : fst (read h (Z.to_nat bps)) = sample_at file bps ratio dp).
      { unfold read, sample_at. cbn [fst]. rewrite Hc, Hp. reflexivity. }
      destruct (read h (Z.to_nat bps)) as [bytes_data h1] eqn:Er.
      cbn [fst] in Hs. subst bytes_data.
      unfold complete at 1.
      destruct (Z.of_nat (length (sample_at file bps ratio dp)) <? bps) eqn:El;
        cbn [negb].
      * cbn. rewrite app_nil_r. reflexivity.
      * cbn [mapM].
        destruct (pixel_height (sample_data bps (sample_at file bps ratio dp)) H)
          as [v|e]; cbn [bind]; [|reflexivity].
        rewrite IH.
        -- unfold retained_samples, retained_indices.
           destruct (mapM _ _) as [tail|e]; cbn [bind]; [|reflexivity].
           rewrite <- app_assoc. reflexivity.
        -- lia.
        -- assert (content h1 = content h) by (inversion Er; reflexivity).
           cbn [seek_cur content]. congruence.
        -- apply Hnext.
           cbn [seek_cur pos].
           assert (Hp1 : pos h1 = (pos h + length (sample_at file bps ratio dp))%nat).
           { inversion Er as [[Hg Hh]]. cbn [pos]. rewrite Hg. reflexivity. }
           apply Z.ltb_ge in El. pose proof (sample_at_length file bps ratio dp).
           rewrite Hp1. rewrite Z2Nat.inj_add by lia. lia.
    + rewrite IH.
      * reflexivity.
      * lia.
      * exact Hc.
      * apply Hnext. reflexivity.
Qed.

Lemma process_wav_file_spec file hd h H D :
  parse_wav_header (open_rb file) = Ok (hd, h) -> D <> 0 ->
  process_wav_file file H D
  = mapM (fun s => pixel_height (sample_data (spec_bps hd) s) H)
      (retained_samples file (spec_bps hd) (spec_ratio hd) D 0
         (Z.to_nat (spec_N hd (Z.of_nat (length file))))).
Proof.
  intros Hp HD. unfold process_wav_file. rewrite Hp. cbn [bind].
  destruct (parse_wav_header_Ok file hd h Hp) as (Hl & -> & Hc & Hb).
  fold (spec_bps hd). fold (spec_ratio hd).
  assert (Hbps : 0 <= spec_bps hd).
  { unfold spec_bps. apply Z.div_pos; [|lia]. rewrite Hb. apply le_value_nonneg. }
  assert (Hr : 0 <= spec_ratio hd) by (unfold spec_ratio; destruct (_ =? 2); lia).
  rewrite (sample_loop_spec file (spec_bps hd) (spec_ratio hd) H D HD Hbps Hr);
    try reflexivity; try lia.
  unfold spec_N. destruct (mapM _ _); reflexivity.
Qed.

Lemma spec_bps_nonneg file hd h :
  parse_wav_header (open_rb file) = Ok (hd, h) -> 0 <= spec_bps hd.
Proof.
  intros Hp. destruct (parse_wav_header_Ok file hd h Hp) as (_ & _ & _ & Hb).
  unfold spec_bps. apply Z.div_pos; [|lia]. rewrite Hb. apply le_value_nonneg.
Qed.

Lemma spec_ratio_pos hd : 0 < spec_ratio hd.
Proof. unfold spec_ratio. destruct (_ =? 2); lia. Qed.

(** ** The sampler: statements of the specification *)

Lemma range_length start count : length (range start count) = count.
Proof.
  revert start. induction count as [|n IH]; intros start; cbn [range length];
    [reflexivity|]. rewrite IH. reflexivity.
Qed.

(** The number of multiples of the stride in [[start, start + count)]. *)
Lemma retained_indices_length D start count :
  0 < D -> 0 <= start ->
  Z.of_nat (length (retained_indices D start count))
  = (start + Z.of_nat count + D - 1) / D - (start + D - 1) / D.
Proof.
  intros HD. unfold retained_indices.
  revert start. induction count as [|n IH]; intros start Hs.
  - cbn. replace (start + 0 + D - 1) with (start + D - 1) by lia. lia.
  - cbn [range filter].
    assert (Hstep : (start + 1 + D - 1) / D - (start + D - 1) / D
                    = if start mod D =? 0 then 1 else 0).
    { pose proof (Z.div_mod start D ltac:(lia)) as Hdm.
      pose proof (Z.mod_pos_bound start D HD) as Hmb.
      set (q := start / D) in *. set (r := start mod D) in *.
      destruct (r =? 0) eqn:Er.
      - apply Z.eqb_eq in Er.
        replace ((start + 1 + D - 1) / D) with (q + 1)
          by (apply Z.div_unique with 0; lia).
        replace ((start + D - 1) / D) with q
          by (apply Z.div_unique with (D - 1); lia).
        lia.
      - apply Z.eqb_neq in Er.
        replace ((start + 1 + D - 1) / D) with (q + 1)
          by (apply Z.div_unique with r; lia).
        replace ((start + D - 1) / D) with (q + 1)
          by (apply Z.div_unique with (r - 1); lia).
        lia. }
    replace (start + Z.of_nat (S n) + D - 1)
      with (start + 1 + Z.of_nat n + D - 1) by lia.
    destruct (start mod D =? 0); cbn [length];
      [rewrite Nat2Z.inj_succ|]; rewrite IH by lia; lia.
Qed.

Lemma mapM_Forall2 {A B} (f : A -> result B) (P : A -> B -> Prop) l :
  (forall a, In a l -> exists b, f a = Ok b /\ P a b) ->
  exists bs, mapM f l = Ok bs /\ Forall2 P l bs.
Proof.
  induction l as [|a l IH]; intros Hall.
  - exists []. split; [reflexivity|constructor].
  - destruct (Hall a (or_introl eq_refl)) as (b & Hb & HP).
    destruct IH as (bs & Hbs & HF); [intros x Hx; apply Hall; right; exact Hx|].
    exists (b :: bs). cbn [mapM]. rewrite Hb, Hbs. split; [reflexivity|].
    constructor; assumption.
Qed.

(** C4, amended: every retained sample is decoded by the byte formula of
    the specification (raw byte for 1-byte samples, the folded high byte
    for 2-byte samples, 128 for any other width), and the value [v] that is
    appended is [int(value / 255 * H)] in binary64 arithmetic.  For a
    height from 0 to 2^40 it satisfies [255 * v <= value * H <= 255 * (v + 1)]:
    it is [floor(value / 255 * H)] whenever [value * H] is no multiple of
    255, and that floor or one less otherwise. *)
Theorem C4_sample_formula file hd h H D :
  parse_wav_header (open_rb file) = Ok (hd, h) ->
  D <> 0 -> 0 <= H <= 2 ^ 40 ->
  exists series,
    process_wav_file file H D = Ok series
    /\ Forall2
         (fun sample v =>
            let value := spec_sample_value sample in
            255 * v <= value * H <= 255 * (v + 1)
            /\ ((value * H) mod 255 <> 0 -> v = exact_pixel H value)
            /\ exact_pixel H value - 1 <= v <= exact_pixel H value)
         (retained_samples file (spec_bps hd) (spec_ratio hd) D 0
            (Z.to_nat (spec_N hd (Z.of_nat (length file)))))
         series.
Proof.
  intros Hp HD HH. rewrite (process_wav_file_spec file hd h H D Hp HD).
  apply mapM_Forall2. intros s Hin.
  apply takeWhile_In in Hin. destruct Hin as [Hin Hc].
  apply in_map_iff in Hin. destruct Hin as (i & <- & _).
  pose proof (spec_bps_nonneg file hd h Hp) as Hb.
  rewrite sample_data_spec
    by (apply complete_length; [exact Hb|apply sample_at_length|exact Hc]).
  destruct (pixel_height_exact _ H (spec_sample_value_range
              (sample_at file (spec_bps hd) (spec_ratio hd) i)) HH)
    as (v & Hv & Hbound).
  exists v. split; [exact Hv|]. cbv zeta. split; [exact Hbound|].
  apply exact_pixel_between. exact Hbound.
Qed.

Lemma C4_sample_formula_witness :
  exists series,
    process_wav_file (silent_wav 200) 100 5 = Ok series
    /\ Forall2
         (fun sample v =>
            let value := spec_sample_value sample in
            255 * v <= value * 100 <= 255 * (v + 1)
            /\ ((value * 100) mod 255 <> 0 -> v = exact_pixel 100 value)
            /\ exact_pixel 100 value - 1 <= v <= exact_pixel 100 value)
         (retained_samples (silent_wav 200) 2 80 5 0 3)
         series.
Proof.
  apply (C4_sample_formula (silent_wav 200) (header_of (silent_wav 200))
           (mkHandle (silent_wav 200) 44) 100 5);
    [reflexivity | lia | lia].
Defined.

(** C4, as stated, fails: the byte value 155 at height 51 gives 30 where
    the floor of the exact product is 31, and at a negative height the
    conversion truncates towards zero. *)
Lemma C4_counterexample :
  (process_wav_file (pcm_header x01 x08 ++ [x9b]) 51 DETAIL = Ok [30]
   /\ spec_sample_value [x9b] = 155
   /\ exact_pixel 51 155 = 31)
  /\ (process_wav_file (pcm_header x01 x08 ++ [x80]) (-100) DETAIL = Ok [-50]
      /\ spec_sample_value [x80] = 128
      /\ exact_pixel (-100) 128 = -51).
Proof. vm_compute. repeat split; reflexivity. Qed.

(** C5: when no read is truncated, the series has one point for every
    index below N that the stride divides, that is [ceil(N / D)] points;
    for a positive stride and a height that the float conversion accepts
    (every height from 0 to 2^53 is one, see [convertible_small]). *)
Theorem C5_series_length file hd h H D :
  parse_wav_header (open_rb file) = Ok (hd, h) ->
  0 < D -> convertible H ->
  (forall i, 0 <= i < spec_N hd (Z.of_nat (length file)) -> i mod D = 0 ->
     44 + i * (spec_ratio hd + spec_bps hd) + spec_bps hd
     <= Z.of_nat (length file)) ->
  exists series,
    process_wav_file file H D = Ok series
    /\ Z.of_nat (length series)
       = (spec_N hd (Z.of_nat (length file)) + D - 1) / D.
Proof.
  intros Hp HD HH Hfull.
  rewrite (process_wav_file_spec file hd h H D Hp) by lia.
  pose proof (spec_bps_nonneg file hd h Hp) as Hb.
  pose proof (spec_ratio_pos hd) as Hr.
  destruct (parse_wav_header_Ok file hd h Hp) as (Hl & _).
  set (N := spec_N hd (Z.of_nat (length file))) in *.
  assert (HN : 1 <= N).
  { subst N. unfold spec_N.
    assert (0 <= (Z.of_nat (length file) - 44) / (spec_ratio hd + spec_bps hd))
      by (apply Z.div_pos; lia). lia. }
  unfold retained_samples. rewrite takeWhile_all.
  - destruct (mapM_total (fun s => pixel_height (sample_data (spec_bps hd) s) H)
                (map (sample_at file (spec_bps hd) (spec_ratio hd))
                   (retained_indices D 0 (Z.to_nat N)))) as (bs & Hbs & Hlen).
    { intros s _. apply HH. apply sample_data_range. }
    exists bs. split; [exact Hbs|].
    rewrite Hlen, length_map, retained_indices_length by lia.
    rewrite Z2Nat.id by lia.
    replace ((0 + D - 1) / D) with 0 by (symmetry; apply Z.div_small; lia).
    replace (0 + N + D - 1) with (N + D - 1) by lia. lia.
  - intros s Hin. apply in_map_iff in Hin. destruct Hin as (i & <- & Hi).
    unfold retained_indices in Hi. apply filter_In in Hi. destruct Hi as [Hi Hm].
    apply range_In in Hi. rewrite Z2Nat.id in Hi by lia.
    apply Z.eqb_eq in Hm. specialize (Hfull i ltac:(lia) Hm).
    unfold complete, sample_at. apply negb_true_iff, Z.ltb_ge.
    rewrite length_firstn, length_skipn. 
    assert (0 <= i * (spec_ratio hd + spec_bps hd)) by nia. lia.
Qed.

Lemma C5_series_length_witness :
  exists series,
    process_wav_file (silent_wav 1000) 100 5 = Ok series
    /\ Z.of_nat (length series) = (13 + 5 - 1) / 5.
Proof.
  apply (C5_series_length (silent_wav 1000) (header_of (silent_wav 1000))
           (mkHandle (silent_wav 1000) 44) 100 5).
  - reflexivity.
  - lia.
  - apply convertible_small. lia.
  - intros i Hi _.
    change (spec_N (header_of (silent_wav 1000))
              (Z.of_nat (length (silent_wav 1000)))) with 13 in Hi.
    change (spec_ratio (header_of (silent_wav 1000))) with 80.
    change (spec_bps (header_of (silent_wav 1000))) with 2.
    change (Z.of_nat (length (silent_wav 1000))) with 1044. lia.
Defined.

(** C10, as stated, fails for heights that binary64 does not hold:
    for the height 2^53 + 3 the sample 255 yields 2^53 + 4. *)
Lemma C10_counterexample :
  exists series,
    process_wav_file loud_wav (2 ^ 53 + 3) DETAIL = Ok series
    /\ ~ Forall (fun v => 0 <= v <= 2 ^ 53 + 3) series.
Proof.
  exists [9007199254740996]. split; [vm_compute; reflexivity|].
  intros HF. inversion HF as [|v l Hv _]; subst. lia.
Qed.

(** C10, amended: for every file and every target height from 0 to 2^53,
    every element of a returned series lies between 0 and the height. *)
Theorem C10_amplitude_bounds file H D series :
  0 <= H <= 2 ^ 53 ->
  process_wav_file file H D = Ok series ->
  Forall (fun v => 0 <= v <= H) series.
Proof.
  intros HH Hrun.
  destruct (parse_wav_header (open_rb file)) as [[hd h]|e] eqn:Hp;
    [|unfold process_wav_file in Hrun; rewrite Hp in Hrun; discriminate].
  destruct (Z.eq_dec D 0) as [->|HD].
  - unfold process_wav_file in Hrun. rewrite Hp in Hrun. cbn [bind] in Hrun.
    destruct (Z.to_nat _) in Hrun; cbn in Hrun.
    + inversion Hrun. constructor.
    + discriminate.
  - rewrite (process_wav_file_spec file hd h H D Hp HD) in Hrun.
    apply mapM_Ok_Forall2 in Hrun.
    induction Hrun as [|s v l vs Hv _ IH]; constructor; [|exact IH].
    destruct (pixel_height_range (sample_data (spec_bps hd) s) H)
      as (v' & Hv' & Hr); [apply sample_data_range|exact HH|].
    rewrite Hv in Hv'. inversion Hv'; subst. exact Hr.
Qed.

Lemma C10_amplitude_bounds_witness :
  Forall (fun v => 0 <= v <= 100) [50; 50; 50].
Proof.
  apply (C10_amplitude_bounds (silent_wav 1000) 100 DETAIL [50; 50; 50]).
  - lia.
  - vm_compute. reflexivity.
Defined.

(** ** Colour strings *)






Lemma int16_errors text e :
  PyInt.int16 text = Raise e -> e = InvalidLiteral.
Proof.
  unfold PyInt.int16.
  repeat match goal with
         | |- context [match ?x with _ => _ end] => destruct x
         | |- context [if ?x then _ else _] => destruct x
         end;
    intros He; inversion He; reflexivity.
Qed.

Lemma html2rgb_errors s e :
  html2rgb s = Raise e -> e = InvalidColor \/ e = InvalidLiteral.
Proof.
  unfold html2rgb.
  destruct (negb _); [intros He; inversion He; auto|].
  intros He. right.
  destruct (PyInt.int16 (slice 0 2 _)) as [r|e1] eqn:E1; cbn [bind] in He;
    [|inversion He; subst; eapply int16_errors; eassumption].
  destruct (PyInt.int16 (slice 2 4 _)) as [g|e2] eqn:E2; cbn [bind] in He;
    [|inversion He; subst; eapply int16_errors; eassumption].
  destruct (PyInt.int16 (slice 4 6 _)) as [b|e3] eqn:E3; cbn [bind] in He;
    [discriminate|inversion He; subst; eapply int16_errors; eassumption].
Qed.


(** ** Colour strings over all of Unicode *)

Section UnicodeLemmas.

Variable isspace : Z -> bool.
Variable todecimal : Z -> option Z.







End UnicodeLemmas.









(** ** The renderer *)

Lemma truediv_errors a b e :
  PyFloat.truediv a b = Raise e -> e = ZeroDivisionError \/ e = OverflowError.
Proof.
  unfold PyFloat.truediv. destruct (b =? 0); [intros He; inversion He; auto|].
  destruct (SFdiv _ _ _ _); intros He; inversion He; auto.
Qed.

Lemma suppressed_errors v H flat e :
  suppressed v H flat = Raise e -> e = ZeroDivisionError \/ e = OverflowError.
Proof.
  unfold suppressed. destruct (PyFloat.truediv v H) eqn:E; cbn [bind];
    [discriminate|]. intros He. inversion He; subst.
  eapply truediv_errors; eassumption.
Qed.

Lemma paint_columns_errors H off flat fill l x img e :
  paint_columns H off flat fill x l img = Raise e ->
  e = ZeroDivisionError \/ e = OverflowError.
Proof.
  revert x img. induction l as [|v l IH]; intros x img; cbn [paint_columns];
    [discriminate|].
  destruct (suppressed v H flat) as [skip|e'] eqn:Es; cbn [bind].
  - apply IH.
  - intros He. inversion He; subst. eapply suppressed_errors; eassumption.
Qed.

Lemma paint_channels_errors H flat fill ls idx img e :
  paint_channels H flat fill idx ls img = Raise e ->
  e = ZeroDivisionError \/ e = OverflowError.
Proof.
  revert idx img. induction ls as [|l ls IH]; intros idx img;
    cbn [paint_channels]; [discriminate|].
  destruct (paint_columns H (H * idx) flat fill 0 l img) as [img'|e'] eqn:Ep;
    cbn [bind].
  - apply IH.
  - intros He. inversion He; subst. eapply paint_columns_errors; eassumption.
Qed.

Lemma draw_vline_size img x y1 y2 fill :
  im_mode (draw_vline img x y1 y2 fill) = im_mode img
  /\ im_width (draw_vline img x y1 y2 fill) = im_width img
  /\ im_height (draw_vline img x y1 y2 fill) = im_height img.
Proof. repeat split. Qed.

Lemma paint_columns_size H off flat fill l x img img' :
  paint_columns H off flat fill x l img = Ok img' ->
  im_mode img' = im_mode img /\ im_width img' = im_width img
  /\ im_height img' = im_height img.
Proof.
  revert x img. induction l as [|v l IH]; intros x img; cbn [paint_columns].
  - intros He. inversion He. auto.
  - destruct (suppressed v H flat) as [skip|e'] eqn:Es; cbn [bind];
      [|discriminate].
    intros Hp. apply IH in Hp.
    destruct skip; [exact Hp|].
    destruct (off + (H - v) >? off + v); exact Hp.
Qed.

Lemma paint_channels_size H flat fill ls idx img img' :
  paint_channels H flat fill idx ls img = Ok img' ->
  im_mode img' = im_mode img /\ im_width img' = im_width img
  /\ im_height img' = im_height img.
Proof.
  revert idx img. induction ls as [|l ls IH]; intros idx img;
    cbn [paint_channels].
  - intros He. inversion He. auto.
  - destruct (paint_columns H (H * idx) flat fill 0 l img) as [img1|e'] eqn:Ep;
      cbn [bind]; [|discriminate].
    intros Hp. apply IH in Hp. apply paint_columns_size in Ep.
    destruct Hp as (-> & -> & ->). exact Ep.
Qed.

(** Columns that the flat-line test suppresses leave the image as it is. *)
Lemma paint_columns_suppressed H off fill l x img :
  Forall (fun v => suppressed v H false = Ok true) l ->
  paint_columns H off false fill x l img = Ok img.
Proof.
  intros HF. revert x. induction HF as [|v l Hv _ IH]; intros x;
    cbn [paint_columns]; [reflexivity|].
  rewrite Hv. cbn [bind]. apply IH.
Qed.

Ltac zbool :=
  repeat match goal with
         | |- context [?a <=? ?b] => destruct (Z.leb_spec a b)
         | |- context [?a <? ?b] => destruct (Z.ltb_spec a b)
         | |- context [?a =? ?b] => destruct (Z.eqb_spec a b)
         end;
  cbn [andb orb negb]; try reflexivity; try lia.

(** With the flat flag set, a column of amplitude 50 at height 100 gets
    the one-pixel line of row 50. *)
Lemma paint_columns_flat fill l x0 img :
  Forall (fun v => v = 50) l ->
  exists img',
    paint_columns 100 0 true fill x0 l img = Ok img'
    /\ forall x y,
         im_pixel img' x y
         = if (x0 <=? x) && (x <? x0 + Z.of_nat (length l)) && (y =? 50)
              && in_image img x y
           then fill else im_pixel img x y.
Proof.
  intros HF. revert x0 img. induction HF as [|v l -> _ IH]; intros x0 img.
  - exists img. split; [reflexivity|]. intros x y. cbn [length].
    destruct (in_image img x y); zbool.
  - cbn [paint_columns].
    change (suppressed 50 100 true) with (Ok (A:=bool) false). cbn [bind].
    change (0 + (100 - 50) >? 0 + 50) with false. cbv iota.
    change (0 + (100 - 50)) with 50. change (0 + 50) with 50.
    destruct (IH (x0 + 1) (draw_vline img x0 50 50 fill)) as (img' & Hp & Hpx).
    exists img'. split; [exact Hp|]. intros x y. rewrite Hpx.
    cbn [length]. rewrite Nat2Z.inj_succ.
    unfold draw_vline, in_image. cbn [im_pixel im_width im_height].
    set (W := im_width img). set (Hh := im_height img).
    set (L := Z.of_nat (length l)).
    assert (0 <= L) by (subst L; lia).
    zbool.
Qed.

Lemma painted_canvas_size adp n H fg bg flat canvas :
  painted_canvas adp n H fg bg flat = Ok canvas ->
  im_width canvas = Z.of_nat (length (hd [] adp))
  /\ im_height canvas = H * n.
Proof.
  unfold painted_canvas. destruct adp as [|[|v first] rest]; try discriminate.
  cbn [hd].
  destruct (negb (truthy bg)).
  - cbn [bind]. destruct (if truthy fg then html2rgb fg else Ok (255, 0, 0));
      cbn [bind]; [|discriminate].
    intros Hp. apply paint_channels_size in Hp. cbn in Hp. tauto.
  - destruct (html2rgb bg); cbn [bind]; [|discriminate].
    destruct (if truthy fg then html2rgb fg else Ok (255, 0, 0));
      cbn [bind]; [|discriminate].
    intros Hp. apply paint_channels_size in Hp. cbn in Hp. tauto.
Qed.

Lemma painted_canvas_NoData adp n H fg bg flat :
  painted_canvas adp n H fg bg flat = Raise NoData <-> hd [] adp = [].
Proof.
  unfold painted_canvas. destruct adp as [|[|v first] rest]; cbn [hd];
    try (split; reflexivity).
  split; [|discriminate]. intros He. exfalso. revert He.
  destruct (negb (truthy bg)).
  - cbn [bind]. destruct (truthy fg).
    + destruct (html2rgb fg) eqn:Ef; cbn [bind].
      * intros He. apply paint_channels_errors in He. destruct He; discriminate.
      * intros He. inversion He; subst. apply html2rgb_errors in Ef.
        destruct Ef; discriminate.
    + cbn [bind]. intros He. apply paint_channels_errors in He.
      destruct He; discriminate.
  - destruct (html2rgb bg) eqn:Eb; cbn [bind].
    + destruct (truthy fg).
      * destruct (html2rgb fg) eqn:Ef; cbn [bind].
        -- intros He. apply paint_channels_errors in He. destruct He; discriminate.
        -- intros He. inversion He; subst. apply html2rgb_errors in Ef.
           destruct Ef; discriminate.
      * cbn [bind]. intros He. apply paint_channels_errors in He.
        destruct He; discriminate.
    + intros He. inversion He; subst. apply html2rgb_errors in Eb.
      destruct Eb; discriminate.
Qed.

(** The sampler never raises the renderer's NoData. *)
Lemma pixel_height_errors d H e :
  pixel_height d H = Raise e -> e <> NoData.
Proof.
  unfold pixel_height, PyFloat.mul_int, PyFloat.of_int, py_int.
  destruct (PyFloat.truediv d 255) eqn:Eq; cbn [bind].
  - destruct (binary_normalize _ _ H 0 false); cbn [bind];
      try (intros He; inversion He; discriminate);
      destruct (SFmul _ _ _ _); cbn; intros He; inversion He; discriminate.
  - intros He. inversion He; subst. apply truediv_errors in Eq.
    destruct Eq; subst; discriminate.
Qed.

Lemma sample_loop_errors n bps ratio H D dp h acc e :
  sample_loop n bps ratio H D dp h acc = Raise e -> e <> NoData.
Proof.
  revert dp h acc. induction n as [|n IH]; intros dp h acc;
    cbn [sample_loop]; [discriminate|].
  destruct (D =? 0); [intros He; inversion He; discriminate|].
  destruct (dp mod D =? 0); [|apply IH].
  destruct (read h (Z.to_nat bps)) as [bytes_data h1].
  destruct (_ <? bps); [discriminate|].
  destruct (pixel_height _ H) eqn:Ep; cbn [bind]; [apply IH|].
  intros He. inversion He; subst. eapply pixel_height_errors; eassumption.
Qed.

Lemma parse_wav_header_errors file e :
  parse_wav_header (open_rb file) = Raise e -> e = StructError.
Proof.
  assert (HI : forall h e', read_I h = Raise e' -> e' = StructError).
  { intros h e'. unfold read_I, unpack_I. destruct (read h 4).
    destruct (Nat.eqb _ 4); cbn [bind]; intros He; inversion He; reflexivity. }
  assert (HH : forall h e', read_H h = Raise e' -> e' = StructError).
  { intros h e'. unfold read_H, unpack_H. destruct (read h 2).
    destruct (Nat.eqb _ 2); cbn [bind]; intros He; inversion He; reflexivity. }
  unfold parse_wav_header, read_tag. cbn [bind].
  repeat match goal with
         | |- context [bind (read_I ?h) _] =>
             let E := fresh "E" in
             destruct (read_I h) eqn:E; cbn [bind];
             [|intros He; inversion He; subst; eapply HI; eassumption]
         | |- context [bind (read_H ?h) _] =>
             let E := fresh "E" in
             destruct (read_H h) eqn:E; cbn [bind];
             [|intros He; inversion He; subst; eapply HH; eassumption]
         end.
  discriminate.
Qed.

(** A stream shorter than the 44-byte header fails to parse. *)
Lemma parse_wav_header_short file :
  (length file < 44)%nat ->
  parse_wav_header (open_rb file) = Raise StructError.
Proof.
  intros Hl. destruct (parse_wav_header (open_rb file)) as [[hd h]|e] eqn:Hp.
  - apply parse_wav_header_Ok in Hp. lia.
  - apply parse_wav_header_errors in Hp. subst. reflexivity.
Qed.

Lemma process_wav_file_errors file H D e :
  process_wav_file file H D = Raise e -> e <> NoData.
Proof.
  unfold process_wav_file.
  destruct (parse_wav_header (open_rb file)) as [[hd h]|e'] eqn:Ep; cbn [bind].
  - apply sample_loop_errors.
  - intros He. inversion He; subst. apply parse_wav_header_errors in Ep.
    subst. discriminate.
Qed.

Lemma mapM_errors {A B} (f : A -> result B) l e (P : exn -> Prop) :
  (forall a e', f a = Raise e' -> P e') ->
  mapM f l = Raise e -> P e.
Proof.
  intros Hf. induction l as [|a l IH]; cbn [mapM]; [discriminate|].
  destruct (f a) eqn:Ea; cbn [bind].
  - destruct (mapM f l); cbn [bind]; [discriminate|].
    intros He. inversion He; subst. apply IH. reflexivity.
  - intros He. inversion He; subst. eapply Hf; eassumption.
Qed.

(** ** The renderer: statements of the specification *)

Lemma In_firstn {A} n (l : list A) x : In x (firstn n l) -> In x l.
Proof.
  intros Hin. rewrite <- (firstn_skipn n l). apply in_or_app. left. exact Hin.
Qed.

Lemma In_skipn {A} n (l : list A) x : In x (skipn n l) -> In x l.
Proof.
  intros Hin. rewrite <- (firstn_skipn n l). apply in_or_app. right. exact Hin.
Qed.

Lemma mapM_const {A B} (f : A -> result B) l c :
  (forall a, In a l -> f a = Ok c) -> mapM f l = Ok (repeat c (length l)).
Proof.
  induction l as [|a l IH]; intros Hf; [reflexivity|].
  cbn [mapM length repeat]. rewrite Hf by (left; reflexivity).
  rewrite IH by (intros; apply Hf; right; assumption). reflexivity.
Qed.

(** Behind the header of a silent file every complete 2-byte sample is
    two zero bytes. *)
Lemma silent_sample hdr n ratio i :
  length hdr = 44%nat -> 0 <= ratio -> 0 <= i ->
  complete 2 (sample_at (hdr ++ repeat x00 n) 2 ratio i) = true ->
  sample_at (hdr ++ repeat x00 n) 2 ratio i = [x00; x00].
Proof.
  intros Hl Hr Hi Hc.
  assert (Hlen : length (sample_at (hdr ++ repeat x00 n) 2 ratio i) = 2%nat).
  { pose proof (sample_at_length (hdr ++ repeat x00 n) 2 ratio i) as Hle.
    apply complete_length in Hc; [lia|lia|exact Hle]. }
  assert (Hz : Forall (eq x00) (sample_at (hdr ++ repeat x00 n) 2 ratio i)).
  { apply Forall_forall. intros b Hb. unfold sample_at in Hb.
    apply In_firstn in Hb. rewrite skipn_app in Hb.
    rewrite skipn_all2 in Hb by (rewrite Hl; nia).
    cbn [app] in Hb. apply In_skipn in Hb.
    apply repeat_spec in Hb. congruence. }
  apply Forall_eq_repeat in Hz. rewrite Hlen in Hz. exact Hz.
Qed.

Lemma silent_header hdr n :
  length hdr = 44%nat ->
  le_value (firstn 2 (skipn 22 hdr)) = 1 ->
  le_value (firstn 2 (skipn 34 hdr)) = 16 ->
  exists hd,
    parse_wav_header (open_rb (hdr ++ repeat x00 n))
    = Ok (hd, mkHandle (hdr ++ repeat x00 n) 44)
    /\ spec_bps hd = 2 /\ spec_ratio hd = 80.
Proof.
  intros Hl Hc Hb.
  destruct (parse_wav_header_exists (hdr ++ repeat x00 n))
    as (hd & Hp & Hch & Hbits); [rewrite length_app; lia|].
  exists hd. split; [exact Hp|].
  assert (Hpre : forall k, (k + 2 <= 44)%nat ->
            firstn 2 (skipn k (hdr ++ repeat x00 n)) = firstn 2 (skipn k hdr)).
  { intros k Hk. rewrite skipn_app, firstn_app, length_skipn.
    replace (2 - (length hdr - k))%nat with 0%nat by lia.
    cbn [firstn]. apply app_nil_r. }
  rewrite Hpre in Hch, Hbits by lia.
  unfold spec_bps, spec_ratio. rewrite Hch, Hbits, Hc, Hb. split; reflexivity.
Qed.

Section RendererClaims.

Variable lanczos : Image -> Z -> Z -> Z -> Z -> pixel.

(** C1, amended: a mono 16-bit file of all-zero samples, sampled at
    height 100, gives the midline value 50 at every point (never 0);
    with draw_flat = false the flat-line test suppresses every column and
    the canvas is the untouched background; a line is painted in every
    column, one pixel in row 50, only with draw_flat = true. *)
Theorem C1_silence_is_midline hdr n :
  length hdr = 44%nat ->
  le_value (firstn 2 (skipn 22 hdr)) = 1 ->
  le_value (firstn 2 (skipn 34 hdr)) = 16 ->
  (2 <= n)%nat ->
  exists k,
    (0 < k)%nat
    /\ process_wav_file (hdr ++ repeat x00 n) 100 DETAIL = Ok (repeat 50 k)
    /\ generate_waveform_image lanczos [hdr ++ repeat x00 n] (Z.of_nat k) 100
         DEFAULT_FOREGROUND DEFAULT_BACKGROUND false
       = Ok (Image_new RGB (Z.of_nat k) 100 (Rgb 255 255 255))
    /\ exists img,
         generate_waveform_image lanczos [hdr ++ repeat x00 n] (Z.of_nat k)
           100 DEFAULT_FOREGROUND DEFAULT_BACKGROUND true = Ok img
         /\ forall x y, 0 <= x < Z.of_nat k -> 0 <= y < 100 ->
              im_pixel img x y
              = if y =? 50 then Rgb 255 0 0 else Rgb 255 255 255.
Proof.
  intros Hl Hc Hb Hn.
  destruct (silent_header hdr n Hl Hc Hb) as (header & Hp & Hbps & Hratio).
  set (file := hdr ++ repeat x00 n) in *.
  set (samples := retained_samples file 2 80 DETAIL 0
                    (Z.to_nat (spec_N header (Z.of_nat (length file))))).
  assert (Hrun : process_wav_file file 100 DETAIL
                 = Ok (repeat 50 (length samples))).
  { rewrite (process_wav_file_spec file header _ 100 DETAIL Hp)
      by (unfold DETAIL; lia).
    rewrite Hbps, Hratio. fold samples. apply mapM_const.
    intros s Hin. subst samples. unfold retained_samples in Hin.
    apply takeWhile_In in Hin. destruct Hin as [Hin Hcomp].
    apply in_map_iff in Hin. destruct Hin as (i & <- & Hi).
    unfold retained_indices in Hi. apply filter_In in Hi.
    destruct Hi as [Hi _]. apply range_In in Hi.
    subst file. rewrite silent_sample by (try assumption; lia).
    vm_compute. reflexivity. }
  assert (Hk : (0 < length samples)%nat).
  { subst samples. unfold retained_samples, retained_indices, spec_N.
    rewrite Hbps, Hratio.
    assert (H0 : 0 <= (Z.of_nat (length file) - 44) / (80 + 2)).
    { apply Z.div_pos; [|lia]. subst file. rewrite length_app. lia. }
    destruct (Z.to_nat ((Z.of_nat (length file) - 44) / (80 + 2) + 1))
      as [|m] eqn:Em; [lia|].
    cbn [range filter]. change (0 mod DETAIL =? 0) with true.
    cbn [map takeWhile].
    assert (Hc0 : complete 2 (sample_at file 2 80 0) = true).
    { unfold complete, sample_at. apply negb_true_iff, Z.ltb_ge.
      cbn [Z.mul Z.add Z.to_nat Pos.to_nat Pos.iter_op Nat.add].
      rewrite length_firstn, length_skipn. subst file.
      rewrite length_app, repeat_length. lia. }
    rewrite Hc0. cbn [length]. lia. }
  set (k := length samples) in *.
  exists k. split; [exact Hk|]. split; [exact Hrun|].
  assert (Hfirst : repeat 50 k <> []) by (destruct k; [lia|discriminate]).
  assert (Hgen : forall flat,
            generate_waveform_image lanczos [file] (Z.of_nat k) 100
              DEFAULT_FOREGROUND DEFAULT_BACKGROUND flat
            = paint_columns 100 0 flat (Rgb 255 0 0) 0 (repeat 50 k)
                (Image_new RGB (Z.of_nat k) 100 (Rgb 255 255 255))).
  { intros flat. unfold generate_waveform_image.
    change (100 <=? 0) with false. cbv iota.
    replace (Z.of_nat k <=? 0) with false by lia.
    cbn [mapM]. rewrite Hrun. cbn [bind List.hd length Z.of_nat].
    unfold painted_canvas. destruct (repeat 50 k) as [|v r] eqn:Er;
      [contradiction|]. rewrite <- Er.
    change (html2rgb DEFAULT_BACKGROUND) with (Ok (A:=Z*Z*Z) (255, 255, 255)).
    change (html2rgb DEFAULT_FOREGROUND) with (Ok (A:=Z*Z*Z) (255, 0, 0)).
    cbn [truthy DEFAULT_BACKGROUND DEFAULT_FOREGROUND negb bind ink im_mode
         Image_new paint_channels].
    rewrite repeat_length. change (100 * 0) with 0. change (100 * 1) with 100.
    change (Pos.of_succ_nat 0) with 1%positive.
    destruct (paint_columns 100 0 flat (Rgb 255 0 0) 0 (repeat 50 k) _)
      as [img|e]; cbn [bind]; [|reflexivity].
    rewrite Z.eqb_refl. rewrite andb_false_r. reflexivity. }
  split.
  - rewrite Hgen. apply paint_columns_suppressed.
    apply Forall_forall. intros v Hv. apply repeat_spec in Hv. subst v.
    vm_compute. reflexivity.
  - rewrite Hgen.
    destruct (paint_columns_flat (Rgb 255 0 0) (repeat 50 k) 0
                (Image_new RGB (Z.of_nat k) 100 (Rgb 255 255 255)))
      as (img & Hpaint & Hpx).
    { apply Forall_forall. intros v Hv. apply repeat_spec in Hv. exact Hv. }
    exists img. split; [exact Hpaint|]. intros x y Hx Hy.
    rewrite Hpx, repeat_length. unfold in_image. cbn [Image_new im_width
      im_height im_pixel]. zbool.
Qed.

(** C2, amended: when the requested width differs from the natural
    width, the returned canvas has the requested width and the requested
    per-channel height [H]; the painted canvas had the height [H] times
    the number of channels, so the resample leaves the height unchanged
    only for a single channel. *)
Theorem C2_resize_dimensions wav_files width height fg bg flat adp canvas :
  0 < height -> 0 < width ->
  mapM (fun f => process_wav_file f height DETAIL) wav_files = Ok adp ->
  painted_canvas adp (Z.of_nat (length wav_files)) height fg bg flat
    = Ok canvas ->
  width <> Z.of_nat (length (hd [] adp)) ->
  generate_waveform_image lanczos wav_files width height fg bg flat
    = Ok (resize lanczos canvas width height)
  /\ im_width (resize lanczos canvas width height) = width
  /\ im_height (resize lanczos canvas width height) = height
  /\ im_width canvas = Z.of_nat (length (hd [] adp))
  /\ im_height canvas = height * Z.of_nat (length wav_files).
Proof.
  intros Hh Hw Hm Hp Hne.
  destruct (painted_canvas_size _ _ _ _ _ _ _ Hp) as [Hcw Hch].
  unfold generate_waveform_image.
  replace (height <=? 0) with false by lia.
  replace (width <=? 0) with false by lia.
  rewrite Hm. cbn [bind]. rewrite Hp. cbn [bind].
  replace (width =? 0) with false by lia.
  replace (width =? Z.of_nat (length (hd [] adp))) with false by lia.
  cbn [negb andb]. repeat split; assumption.
Qed.

(** C3, amended: the call fails with NoData exactly when the dimensions
    are positive, every file was sampled without an exception, and there
    is no channel or the first channel's series is empty; the series of
    the other channels are not inspected. *)
Theorem C3_NoData_iff wav_files width height fg bg flat :
  generate_waveform_image lanczos wav_files width height fg bg flat
    = Raise NoData
  <-> 0 < height /\ 0 < width
      /\ exists adp,
           mapM (fun f => process_wav_file f height DETAIL) wav_files = Ok adp
           /\ hd [] adp = [].
Proof.
  unfold generate_waveform_image.
  destruct (Z.leb_spec height 0) as [Hh|Hh].
  { split; [discriminate|]. intros (? & _). lia. }
  destruct (Z.leb_spec width 0) as [Hw|Hw].
  { split; [discriminate|]. intros (_ & ? & _). lia. }
  destruct (mapM _ wav_files) as [adp|e] eqn:Hm; cbn [bind].
  - destruct (painted_canvas adp _ height fg bg flat) as [img|e] eqn:Hp;
      cbn [bind].
    + split.
      * destruct (negb (width =? 0) && negb (width =? _)); discriminate.
      * intros (_ & _ & adp' & Heq & Hnil). inversion Heq; subst adp'.
        apply (painted_canvas_NoData adp (Z.of_nat (length wav_files))
                 height fg bg flat) in Hnil. congruence.
    + split.
      * intros He. inversion He; subst e.
        apply painted_canvas_NoData in Hp. eauto 6.
      * intros (_ & _ & adp' & Heq & Hnil). inversion Heq; subst adp'.
        apply (painted_canvas_NoData adp (Z.of_nat (length wav_files))
                 height fg bg flat) in Hnil. congruence.
  - split.
    + intros He. inversion He; subst e. exfalso.
      apply (mapM_errors _ _ _ (fun e => e <> NoData)) in Hm;
        [congruence|]. intros f e'. apply process_wav_file_errors.
    + intros (_ & _ & adp' & Heq & _). discriminate.
Qed.


End RendererClaims.

Lemma C1_silence_is_midline_witness :
  exists k,
    (0 < k)%nat
    /\ process_wav_file (silent_wav 200) 100 DETAIL = Ok (repeat 50 k)
    /\ generate_waveform_image nearest [silent_wav 200] (Z.of_nat k) 100
         DEFAULT_FOREGROUND DEFAULT_BACKGROUND false
       = Ok (Image_new RGB (Z.of_nat k) 100 (Rgb 255 255 255))
    /\ exists img,
         generate_waveform_image nearest [silent_wav 200] (Z.of_nat k)
           100 DEFAULT_FOREGROUND DEFAULT_BACKGROUND true = Ok img
         /\ forall x y, 0 <= x < Z.of_nat k -> 0 <= y < 100 ->
              im_pixel img x y
              = if y =? 50 then Rgb 255 0 0 else Rgb 255 255 255.
Proof.
  apply (C1_silence_is_midline nearest (pcm_header x01 x10) 200);
    [reflexivity | reflexivity | reflexivity | lia].
Defined.

(** C1, as stated, fails: the all-zero samples give 50, not 0, and with
    draw_flat = false no column of the canvas is painted. *)
Lemma C1_counterexample :
  exists series,
    process_wav_file (silent_wav 1000) 100 DETAIL = Ok series
    /\ ~ Forall (fun v => v = 0) series
    /\ generate_waveform_image nearest [silent_wav 1000] 3 100
         DEFAULT_FOREGROUND DEFAULT_BACKGROUND false
       = Ok (Image_new RGB 3 100 (Rgb 255 255 255)).
Proof.
  exists [50; 50; 50]. split; [vm_compute; reflexivity|]. split.
  - intros HF. inversion HF as [|v l Hv _]. discriminate.
  - vm_compute. reflexivity.
Qed.

Lemma C2_resize_dimensions_witness :
  generate_waveform_image nearest [silent_wav 1000] 500 100
    DEFAULT_FOREGROUND DEFAULT_BACKGROUND false
  = Ok (resize nearest (Image_new RGB 3 100 (Rgb 255 255 255)) 500 100)
  /\ im_width (resize nearest (Image_new RGB 3 100 (Rgb 255 255 255)) 500 100)
     = 500
  /\ im_height (resize nearest (Image_new RGB 3 100 (Rgb 255 255 255)) 500 100)
     = 100
  /\ im_width (Image_new RGB 3 100 (Rgb 255 255 255)) = 3
  /\ im_height (Image_new RGB 3 100 (Rgb 255 255 255)) = 100 * 1.
Proof.
  apply (C2_resize_dimensions nearest [silent_wav 1000] 500 100
           DEFAULT_FOREGROUND DEFAULT_BACKGROUND false [[50; 50; 50]]
           (Image_new RGB 3 100 (Rgb 255 255 255)));
    [lia | lia | vm_compute; reflexivity | vm_compute; reflexivity
    | vm_compute; discriminate ].
Defined.

(** C2, as stated, fails for two channels: the painted canvas is 200 rows
    high and the returned one 100. *)
Lemma C2_counterexample :
  exists img,
    generate_waveform_image nearest [silent_wav 1000; silent_wav 1000] 500 100
      DEFAULT_FOREGROUND DEFAULT_BACKGROUND false = Ok img
    /\ im_width img = 500
    /\ im_height img <> 100 * 2.
Proof.
  eexists. split; [vm_compute; reflexivity|]. split; [reflexivity|].
  cbn. discriminate.
Qed.

(** C3, as stated, fails: the second channel's series is empty and the
    call returns a canvas. *)
Lemma C3_counterexample :
  process_wav_file empty_wav 100 DETAIL = Ok []
  /\ exists img,
       generate_waveform_image nearest [silent_wav 1000; empty_wav] 3 100
         DEFAULT_FOREGROUND DEFAULT_BACKGROUND false = Ok img.
Proof.
  split; [vm_compute; reflexivity|].
  eexists. vm_compute. reflexivity.
Qed.


(** ** The order of floats *)

Lemma SFltb_key x y :
  PyFloat.isnan x = false -> PyFloat.isnan y = false ->
  (SFltb x y = true <-> lex_lt (fkey x) (fkey y)).
Proof.
  intros Hx Hy. unfold SFltb, SFcompare.
  destruct x as [sx|[]| |[] mx ex]; try discriminate;
    destruct y as [sy|[]| |[] my ey]; try discriminate;
    cbn [fkey lex_lt];
    try (split; [discriminate|lia]);
    try (split; [lia|reflexivity]);
    change (Pos.compare_cont Eq ?a ?b) with (Pos.compare a b).
  - destruct (Z.compare_spec ex ey); cbn [CompOpp];
      try (split; [discriminate|lia]); try (split; [lia|reflexivity]).
    destruct (Pos.compare_spec mx my); cbn [CompOpp];
      try (split; [discriminate|lia]); split; [lia|reflexivity].
  - destruct (Z.compare_spec ex ey);
      try (split; [discriminate|lia]); try (split; [lia|reflexivity]).
    destruct (Pos.compare_spec mx my);
      try (split; [discriminate|lia]); split; [lia|reflexivity].
Qed.

Lemma gtb_key x y :
  PyFloat.isnan x = false -> PyFloat.isnan y = false ->
  (PyFloat.gtb x y = true <-> lex_lt (fkey y) (fkey x)).
Proof. intros Hx Hy. unfold PyFloat.gtb. apply SFltb_key; assumption. Qed.

Lemma gtb_false_key x y :
  PyFloat.isnan x = false -> PyFloat.isnan y = false ->
  (PyFloat.gtb x y = false <-> ~ lex_lt (fkey y) (fkey x)).
Proof.
  intros Hx Hy. rewrite <- (gtb_key x y Hx Hy).
  destruct (PyFloat.gtb x y); split; congruence.
Qed.

Lemma SFleb_gtb x y :
  PyFloat.isnan x = false -> PyFloat.isnan y = false ->
  negb (SFleb x y) = PyFloat.gtb x y.
Proof.
  intros Hx Hy. unfold PyFloat.gtb, SFleb, SFltb, SFcompare.
  destruct x as [sx|[]| |[] mx ex]; try discriminate;
    destruct y as [sy|[]| |[] my ey]; try discriminate; try reflexivity;
    change (Pos.compare_cont Eq ?a ?b) with (Pos.compare a b).
  - rewrite (Z.compare_antisym ex ey), (Pos.compare_antisym mx my).
    destruct (ex ?= ey); cbn [CompOpp]; try reflexivity.
    destruct (mx ?= my)%positive; reflexivity.
  - rewrite (Z.compare_antisym ex ey), (Pos.compare_antisym mx my).
    destruct (ex ?= ey); cbn [CompOpp]; try reflexivity.
    destruct (mx ?= my)%positive; reflexivity.
Qed.

Ltac lex_solve :=
  unfold lex_lt in *;
  repeat match goal with
         | p : (Z * Z * Z)%type |- _ => destruct p as [[? ?] ?]
         end;
  lia.

Lemma lex_lt_trans a b c : lex_lt a b -> lex_lt b c -> lex_lt a c.
Proof. lex_solve. Qed.

Lemma lex_lt_irrefl a : ~ lex_lt a a.
Proof. lex_solve. Qed.

Lemma lex_lt_le_trans a b c : lex_lt a b -> ~ lex_lt c b -> lex_lt a c.
Proof. lex_solve. Qed.

Lemma lex_le_trans a b c : ~ lex_lt b a -> ~ lex_lt c b -> ~ lex_lt c a.
Proof. lex_solve. Qed.

Lemma lex_le_lt_trans a b c : ~ lex_lt b a -> lex_lt b c -> lex_lt a c.
Proof. lex_solve. Qed.

Lemma gtb_isnan_l x y : PyFloat.gtb x y = true -> PyFloat.isnan x = false.
Proof.
  unfold PyFloat.gtb, SFltb, SFcompare.
  destruct x; try reflexivity. destruct y as [?|[]| |[] ? ?]; discriminate.
Qed.

Lemma gtb_isnan_r x y : PyFloat.gtb x y = true -> PyFloat.isnan y = false.
Proof.
  unfold PyFloat.gtb, SFltb, SFcompare.
  destruct y; try reflexivity; discriminate.
Qed.

(** ** Selection of the best scale *)

Lemma beats_true c b :
  beats c b = true -> PyFloat.isnan c = false /\ PyFloat.gtb c b = true.
Proof.
  unfold beats. intros Hb. apply andb_prop in Hb. destruct Hb as [Hn Hg].
  apply negb_true_iff in Hn. auto.
Qed.

Lemma beats_false c b :
  beats c b = false -> PyFloat.isnan c = true \/ PyFloat.gtb c b = false.
Proof.
  unfold beats. intros Hb. apply andb_false_iff in Hb.
  destruct Hb as [Hn|Hg]; [left; apply negb_false_iff; exact Hn|right; exact Hg].
Qed.

(** The selection returns the start when nothing beats it, and otherwise
    the first entry among those of greatest correlation. *)
Lemma select_spec cs n0 c0 :
  PyFloat.isnan c0 = false ->
  (Forall (fun e => beats (snd e) c0 = false) cs
   /\ select cs (n0, c0) = (n0, c0))
  \/ exists l1 n c l2,
       cs = l1 ++ (n, c) :: l2
       /\ select cs (n0, c0) = (n, c)
       /\ beats c c0 = true
       /\ Forall (fun e => PyFloat.isnan (snd e) = true
                           \/ PyFloat.gtb c (snd e) = true) l1
       /\ Forall (fun e => PyFloat.isnan (snd e) = true
                           \/ PyFloat.gtb (snd e) c = false) l2.
Proof.
  revert n0 c0. induction cs as [|[n c] rest IH]; intros n0 c0 Hc0.
  - left. split; [constructor|reflexivity].
  - cbn [select snd]. destruct (beats c c0) eqn:Hb.
    + destruct (beats_true _ _ Hb) as [Hcn Hcg].
      destruct (IH n c Hcn) as [[Hnone Hsel]|(l1 & n' & c' & l2 & Hsplit & Hsel & Hb' & H1 & H2)].
      * right. exists [], n, c, rest. repeat split; try assumption.
        -- constructor.
        -- eapply Forall_impl; [|exact Hnone]. intros e He.
           apply beats_false in He. exact He.
      * right. exists ((n, c) :: l1), n', c', l2.
        destruct (beats_true _ _ Hb') as [Hcn' Hcg'].
        repeat split; try assumption.
        -- rewrite Hsplit. reflexivity.
        -- apply andb_true_intro. split; [rewrite Hcn'; reflexivity|].
           apply gtb_key in Hcg, Hcg'; try assumption.
           apply gtb_key; try assumption. eapply lex_lt_trans; eassumption.
        -- constructor; [right; exact Hcg'|exact H1].
    + destruct (IH n0 c0 Hc0) as [[Hnone Hsel]|(l1 & n' & c' & l2 & Hsplit & Hsel & Hb' & H1 & H2)].
      * left. split; [constructor; assumption|exact Hsel].
      * right. exists ((n, c) :: l1), n', c', l2.
        destruct (beats_true _ _ Hb') as [Hcn' Hcg'].
        repeat split; try assumption.
        -- rewrite Hsplit. reflexivity.
        -- constructor; [|exact H1]. cbn [snd].
           destruct (beats_false _ _ Hb) as [Hnan|Hng]; [left; exact Hnan|].
           destruct (PyFloat.isnan c) eqn:Hcn; [left; reflexivity|right].
           apply gtb_key; try assumption.
           apply gtb_key in Hcg'; try assumption.
           apply gtb_false_key in Hng; try assumption.
           eapply lex_le_lt_trans; eassumption.
Qed.

(** On 12 entries and for an index below 12, [np.roll] is the
    transposition. *)
Lemma roll_transposed (t : list Z) (k : nat) :
  length t = 12%nat -> (k < 12)%nat -> roll t k = transposed t k.
Proof.
  intros Hl Hk.
  do 12 (destruct t as [|? t]; [discriminate|]).
  destruct t; [|discriminate].
  do 12 (destruct k as [|k]; [reflexivity|]). lia.
Qed.

Section ClassifierLemmas.

Variable corrcoef : list PyFloat.float -> list Z -> PyFloat.float.

Lemma best_scale_loop_select chroma key_idx templates bs bc :
  (key_idx < 12)%nat ->
  Forall (fun e => length (snd e) = 12%nat) templates ->
  best_scale_loop corrcoef chroma key_idx templates bs bc
  = select (scale_correlations corrcoef chroma key_idx templates) (bs, bc).
Proof.
  intros Hk Hall. revert bs bc.
  induction Hall as [|[n t] rest Ht _ IH]; intros bs bc; [reflexivity|].
  cbn [best_scale_loop scale_correlations map select fst snd].
  cbn [snd] in Ht. rewrite (roll_transposed t key_idx Ht Hk).
  unfold beats. destruct (negb _ && _); apply IH.
Qed.

End ClassifierLemmas.

(** ** [argmax] *)

Lemma argmax_scan_spec d pre rest bi best :
  Forall (fun x => PyFloat.isnan x = false) (pre ++ rest) ->
  (bi < length pre)%nat -> nth bi pre d = best ->
  (forall j, (j < length pre)%nat -> PyFloat.gtb (nth j pre d) best = false) ->
  (forall j, (j < bi)%nat -> PyFloat.gtb best (nth j pre d) = true) ->
  let k := argmax_scan rest (length pre) bi best in
  (k < length (pre ++ rest))%nat
  /\ (forall j, (j < length (pre ++ rest))%nat ->
        PyFloat.gtb (nth j (pre ++ rest) d) (nth k (pre ++ rest) d) = false)
  /\ (forall j, (j < k)%nat ->
        PyFloat.gtb (nth k (pre ++ rest) d) (nth j (pre ++ rest) d) = true).
Proof.
  revert pre bi best. induction rest as [|x rest IH]; intros pre bi best Hnan Hbi Hbest Hmax Hfirst.
  - cbn [argmax_scan]. rewrite app_nil_r in *. rewrite Hbest.
    split; [exact Hbi|]. split; assumption.
  - cbn [argmax_scan].
    assert (Hx : PyFloat.isnan x = false).
    { rewrite Forall_forall in Hnan. apply Hnan. apply in_or_app. right. left. reflexivity. }
    assert (Hb : PyFloat.isnan best = false).
    { rewrite Forall_forall in Hnan. apply Hnan. apply in_or_app. left.
      rewrite <- Hbest. apply nth_In. exact Hbi. }
    assert (Hpre : forall j, (j < length pre)%nat -> PyFloat.isnan (nth j pre d) = false).
    { intros j Hj. rewrite Forall_forall in Hnan. apply Hnan. apply in_or_app. left.
      apply nth_In. exact Hj. }
    rewrite SFleb_gtb by assumption. rewrite Hx.
    replace (pre ++ x :: rest) with ((pre ++ [x]) ++ rest) in *
      by (rewrite <- app_assoc; reflexivity).
    replace (S (length pre)) with (length (pre ++ [x]))
      by (rewrite length_app; cbn; lia).
    destruct (PyFloat.gtb x best) eqn:Hg.
    + apply IH.
      * exact Hnan.
      * rewrite length_app. cbn. lia.
      * rewrite app_nth2 by lia. rewrite Nat.sub_diag. reflexivity.
      * intros j Hj. rewrite length_app in Hj. cbn in Hj.
        destruct (Nat.eq_dec j (length pre)) as [->|Hne].
        -- rewrite app_nth2 by lia. rewrite Nat.sub_diag. cbn.
           apply gtb_false_key; try assumption. apply lex_lt_irrefl.
        -- rewrite app_nth1 by lia.
           apply gtb_false_key; try assumption; [apply Hpre; lia|].
           specialize (Hmax j ltac:(lia)).
           apply gtb_false_key in Hmax; try assumption; [|apply Hpre; lia].
           apply gtb_key in Hg; try assumption.
           intros Hc. apply Hmax. eapply lex_lt_trans; eassumption.
      * intros j Hj. rewrite app_nth1 by lia.
        apply gtb_key; try assumption; [apply Hpre; lia|].
        specialize (Hmax j ltac:(lia)).
        apply gtb_false_key in Hmax; try assumption; [|apply Hpre; lia].
        apply gtb_key in Hg; try assumption.
        eapply lex_le_lt_trans; eassumption.
    + apply IH.
      * exact Hnan.
      * rewrite length_app. cbn. lia.
      * rewrite app_nth1 by lia. exact Hbest.
      * intros j Hj. rewrite length_app in Hj. cbn in Hj.
        destruct (Nat.eq_dec j (length pre)) as [->|Hne].
        -- rewrite app_nth2 by lia. rewrite Nat.sub_diag. exact Hg.
        -- rewrite app_nth1 by lia. apply Hmax. lia.
      * intros j Hj. rewrite app_nth1 by lia. apply Hfirst. exact Hj.
Qed.

(** On a vector without NaN, [argmax] is the first index of a greatest
    element. *)
Lemma argmax_spec d l :
  l <> [] -> Forall (fun x => PyFloat.isnan x = false) l ->
  (argmax l < length l)%nat
  /\ (forall j, (j < length l)%nat ->
        PyFloat.gtb (nth j l d) (nth (argmax l) l d) = false)
  /\ (forall j, (j < argmax l)%nat ->
        PyFloat.gtb (nth (argmax l) l d) (nth j l d) = true).
Proof.
  intros Hne Hnan. destruct l as [|x rest]; [contradiction|].
  assert (Hx : PyFloat.isnan x = false) by (inversion Hnan; assumption).
  cbn [argmax]. rewrite Hx.
  apply (argmax_scan_spec d [x] rest 0 x); cbn [length nth]; try lia; try assumption.
  - reflexivity.
  - intros j Hj. destruct j; [|lia].
    apply gtb_false_key; try assumption. apply lex_lt_irrefl.
Qed.

(** ** The stable descending sort *)

Section SortLemmas.

Lemma insert_desc_perm (x : string * PyFloat.float) l :
  Permutation (insert_desc snd x l) (x :: l).
Proof.
  induction l as [|y l IH]; cbn [insert_desc]; [reflexivity|].
  destruct (PyFloat.gtb (snd x) (snd y)); [reflexivity|].
  rewrite IH. apply perm_swap.
Qed.

Lemma sort_desc_snoc (l : list (string * PyFloat.float)) x :
  sort_desc snd (l ++ [x]) = insert_desc snd x (sort_desc snd l).
Proof. unfold sort_desc. rewrite fold_left_app. reflexivity. Qed.

Lemma sort_desc_perm (l : list (string * PyFloat.float)) : Permutation (sort_desc snd l) l.
Proof.
  induction l as [|x l IH] using rev_ind; [reflexivity|].
  rewrite sort_desc_snoc, insert_desc_perm, IH.
  apply Permutation_cons_append.
Qed.

Lemma insert_desc_sorted (x : string * PyFloat.float) l :
  defined x = true -> Forall (fun e => defined e = true) l ->
  StronglySorted not_below l ->
  StronglySorted not_below (insert_desc snd x l).
Proof.
  intros Hx Hl Hs. unfold defined in *. apply negb_true_iff in Hx.
  induction Hs as [|y l Hs IH Hy]; cbn [insert_desc].
  - constructor; constructor.
  - inversion Hl as [|? ? Hyd Hld]; subst. apply negb_true_iff in Hyd.
    destruct (PyFloat.gtb (snd x) (snd y)) eqn:Hg.
    + constructor; [constructor; assumption|].
      apply gtb_key in Hg; try assumption.
      constructor.
      * unfold not_below. apply gtb_false_key; try assumption.
        intros Hc. eapply lex_lt_irrefl. eapply lex_lt_trans; eassumption.
      * rewrite Forall_forall in Hy, Hld |- *. intros z Hz.
        specialize (Hy z Hz). specialize (Hld z Hz).
        apply negb_true_iff in Hld. unfold not_below in *.
        apply gtb_false_key in Hy; try assumption.
        apply gtb_false_key; try assumption.
        intros Hc. apply Hy. eapply lex_lt_trans; eassumption.
    + constructor; [apply IH; assumption|].
      rewrite Forall_forall. intros z Hz.
      apply (Permutation_in _ (insert_desc_perm x l)) in Hz.
      destruct Hz as [<-|Hz]; [exact Hg|].
      rewrite Forall_forall in Hy. apply Hy. exact Hz.
Qed.

Lemma insert_desc_defined (x : string * PyFloat.float) l :
  defined x = true -> Forall (fun e => defined e = true) l ->
  Forall (fun e => defined e = true) (insert_desc snd x l).
Proof.
  intros Hx Hl. rewrite Forall_forall in *. intros z Hz.
  apply (Permutation_in _ (insert_desc_perm x l)) in Hz.
  destruct Hz as [<-|Hz]; auto.
Qed.

Lemma sort_desc_sorted (l : list (string * PyFloat.float)) :
  Forall (fun e => defined e = true) l ->
  StronglySorted not_below (sort_desc snd l)
  /\ Forall (fun e => defined e = true) (sort_desc snd l).
Proof.
  induction l as [|x l IH] using rev_ind; intros Hd.
  - split; constructor.
  - apply Forall_app in Hd. destruct Hd as [Hl Hx].
    inversion Hx as [|? ? Hxd _]; subst.
    destruct (IH Hl) as [Hs Hds]. rewrite sort_desc_snoc. split.
    + apply insert_desc_sorted; assumption.
    + apply insert_desc_defined; assumption.
Qed.

(** An inserted entry comes behind the entries it ties with. *)
Lemma insert_desc_stable k (x : string * PyFloat.float) l :
  PyFloat.isnan k = false ->
  defined x = true -> Forall (fun e => defined e = true) l ->
  StronglySorted not_below l ->
  filter (tied k) (insert_desc snd x l)
  = filter (tied k) l ++ (if tied k x then [x] else []).
Proof.
  intros Hk Hx Hl Hs. unfold defined in Hx. apply negb_true_iff in Hx.
  induction Hs as [|y l Hs IH Hy]; cbn [insert_desc].
  - cbn [filter]. destruct (tied k x); reflexivity.
  - inversion Hl as [|? ? Hyd Hld]; subst.
    unfold defined in Hyd. apply negb_true_iff in Hyd.
    destruct (PyFloat.gtb (snd x) (snd y)) eqn:Hg.
    + cbn [filter]. destruct (tied k x) eqn:Ht.
      * (* nothing from y on ties with k *)
        assert (Hnone : forall z, In z (y :: l) -> tied k z = false).
        { intros z Hz.
          assert (Hzd : PyFloat.isnan (snd z) = false).
          { rewrite Forall_forall in Hl. specialize (Hl z Hz).
            unfold defined in Hl. apply negb_true_iff in Hl. exact Hl. }
          assert (Hzy : ~ lex_lt (fkey (snd y)) (fkey (snd z))).
          { destruct Hz as [<-|Hz]; [apply lex_lt_irrefl|].
            rewrite Forall_forall in Hy. specialize (Hy z Hz).
            unfold not_below in Hy. apply gtb_false_key in Hy; assumption. }
          unfold tied in Ht |- *. apply andb_prop in Ht. destruct Ht as [Ht1 Ht2].
          apply negb_true_iff in Ht1, Ht2.
          apply gtb_false_key in Ht1, Ht2; try assumption.
          apply gtb_key in Hg; try assumption.
          apply andb_false_iff. right. apply negb_false_iff.
          apply gtb_key; try assumption.
          unfold lex_lt in *.
          destruct (fkey k) as [[? ?] ?], (fkey (snd x)) as [[? ?] ?],
                   (fkey (snd y)) as [[? ?] ?], (fkey (snd z)) as [[? ?] ?].
          lia. }
        assert (Hf : filter (tied k) (y :: l) = []).
        { clear - Hnone. induction (y :: l) as [|z r IHr]; [reflexivity|].
          cbn [filter]. rewrite Hnone by (left; reflexivity).
          apply IHr. intros w Hw. apply Hnone. right. exact Hw. }
        cbn [filter] in Hf. rewrite Hf. reflexivity.
      * rewrite app_nil_r. reflexivity.
    + cbn [filter]. rewrite IH by assumption.
      destruct (tied k y); reflexivity.
Qed.

Lemma sort_desc_stable k (l : list (string * PyFloat.float)) :
  PyFloat.isnan k = false ->
  Forall (fun e => defined e = true) l ->
  filter (tied k) (sort_desc snd l) = filter (tied k) l.
Proof.
  intros Hk. induction l as [|x l IH] using rev_ind; intros Hd;
    [reflexivity|].
  apply Forall_app in Hd. destruct Hd as [Hl Hx].
  inversion Hx as [|? ? Hxd _]; subst.
  destruct (sort_desc_sorted l Hl) as [Hs Hds].
  rewrite sort_desc_snoc, insert_desc_stable by assumption.
  rewrite IH by assumption. rewrite filter_app. cbn [filter].
  destruct (tied k x); reflexivity.
Qed.

End SortLemmas.

(** ** The classifier and the ranker: statements of the specification *)

Lemma flat_map_filter_map {A B} (p : B -> bool) (g : A -> B) l :
  flat_map (fun a => if p (g a) then [g a] else []) l = filter p (map g l).
Proof.
  induction l as [|a l IH]; [reflexivity|].
  cbn [flat_map map filter]. rewrite IH. destruct (p (g a)); reflexivity.
Qed.

Lemma filter_flat_map {A B} (p : B -> bool) (f : A -> list B) l :
  flat_map (fun a => filter p (f a)) l = filter p (flat_map f l).
Proof.
  induction l as [|a l IH]; [reflexivity|].
  cbn [flat_map]. rewrite filter_app, IH. reflexivity.
Qed.

Lemma mode_of_scale s :
  In s (map fst scale_templates) ->
  (mode_of s = "Minor"%string <-> In s minor_scales)
  /\ (mode_of s = "Minor"%string \/ mode_of s = "Major"%string).
Proof.
  cbn [map fst scale_templates In].
  intros [<-|[<-|[<-|[<-|[<-|[<-|[<-|[]]]]]]]];
    (split;
     [split; intros H;
      [try discriminate H; cbn; tauto
      |cbn in H;
       repeat (destruct H as [H|H]; [try discriminate H|]);
       try contradiction; reflexivity]
     |cbn; tauto]).
Qed.

Section ClassifierClaims.

Variable corrcoef : list PyFloat.float -> list Z -> PyFloat.float.
Variable weak_scalars : bool.

Lemma chords_of_root_grid chroma k name :
  (k < 12)%nat ->
  chords_of_root corrcoef chroma k name
  = filter defined
      (map (fun e => chord_entry corrcoef chroma ((k, name), e))
         chord_templates).
Proof.
  intros Hk. unfold chords_of_root, chord_entry, chord_label, defined.
  cbn [chord_templates flat_map map filter fst snd app].
  rewrite !(roll_transposed _ k) by (reflexivity || exact Hk).
  repeat match goal with
         | |- context [PyFloat.isnan ?c] => destruct (PyFloat.isnan c)
         end; reflexivity.
Qed.

Lemma chord_candidates_grid chroma :
  chord_candidates corrcoef chroma
  = filter defined (map (chord_entry corrcoef chroma) chord_grid).
Proof.
  unfold chord_candidates, chord_grid.
  assert (Hall : Forall (fun e : nat * string => (fst e < 12)%nat)
                   (combine (seq 0 (length KEY_NAMES)) KEY_NAMES))
    by (repeat constructor).
  induction Hall as [|[k name] L Hk _ IH]; [reflexivity|].
  cbn [flat_map list_prod]. rewrite map_app, filter_app, IH. f_equal.
  rewrite map_map. cbn [fst snd] in *.
  apply chords_of_root_grid. exact Hk.
Qed.

Lemma chord_candidates_defined chroma :
  Forall (fun e => defined e = true) (chord_candidates corrcoef chroma).
Proof.
  rewrite chord_candidates_grid. apply Forall_forall. intros e He.
  apply filter_In in He. tauto.
Qed.

(** What the analysis reports for key, scale and mode once the
    duration, the tempo and the chroma vector were delivered, whatever
    the later calls do. *)
Lemma analyze_music_tonal f d t x :
  f_duration f = Got d -> f_tempo f = Got t -> chroma_mean f = Got x ->
  let a := analyze_music corrcoef weak_scalars true (Loaded f) in
  key a = nth (argmax x) KEY_NAMES ""%string
  /\ scale a = best_scale_of corrcoef x (argmax x)
  /\ mode a = mode_of (best_scale_of corrcoef x (argmax x)).
Proof.
  intros Hd Ht Hx. unfold analyze_music. cbn [negb]. rewrite Hd, Ht, Hx.
  destruct (avg_rms f);
    [destruct (spectral_rolloff f);
     [destruct (zero_crossing f); [destruct (mfcc_mean_1 f)|]|]|];
    repeat split; reflexivity.
Qed.

(** C6: for a recording whose duration, tempo and 12-entry chroma vector
    were delivered, the key is the first index [k] of a greatest entry
    of the vector.  Each of the seven scale templates is transposed to
    [k] index by index (entry [i] of the template at pitch class
    [(i + k) mod 12]) and correlated with the vector; the scale is Ionian
    when no transposed template has a defined correlation above -1, and
    otherwise the template whose correlation is defined, above -1,
    greater than every defined correlation of an earlier template and
    not less than any of a later one; the mode is Minor exactly for
    Aeolian, Dorian, Phrygian and Locrian, else Major. *)
Theorem C6_tonal_profile f d t x :
  f_duration f = Got d -> f_tempo f = Got t -> chroma_mean f = Got x ->
  length x = 12%nat ->
  Forall (fun v => PyFloat.isnan v = false) x ->
  let a := analyze_music corrcoef weak_scalars true (Loaded f) in
  let k := argmax x in
  let cs :=
    map (fun e => (fst e, corrcoef x (transposed (snd e) k)))
      scale_templates in
  ((k < 12)%nat
   /\ key a = nth k KEY_NAMES ""%string
   /\ (forall j, (j < 12)%nat ->
         PyFloat.gtb (nth j x S754_nan) (nth k x S754_nan) = false)
   /\ (forall j, (j < k)%nat ->
         PyFloat.gtb (nth k x S754_nan) (nth j x S754_nan) = true))
  /\ (forall e i, In e scale_templates -> (i < 12)%nat ->
        nth ((i + k) mod 12) (transposed (snd e) k) 0 = nth i (snd e) 0)
  /\ map fst cs
     = ["Ionian (Major)"; "Dorian"; "Phrygian"; "Lydian"; "Mixolydian";
        "Aeolian (Minor)"; "Locrian"]%string
  /\ ((Forall (fun e => beats (snd e) (flit (-1)) = false) cs
       /\ scale a = "Ionian (Major)"%string)
      \/ exists l1 c l2,
           cs = l1 ++ (scale a, c) :: l2
           /\ beats c (flit (-1)) = true
           /\ Forall (fun e => PyFloat.isnan (snd e) = true
                               \/ PyFloat.gtb c (snd e) = true) l1
           /\ Forall (fun e => PyFloat.isnan (snd e) = true
                               \/ PyFloat.gtb (snd e) c = false) l2)
  /\ (mode a = "Minor"%string <-> In (scale a) minor_scales)
  /\ (mode a = "Minor"%string \/ mode a = "Major"%string).
Proof.
  intros Hd Ht Hx Hlen Hnan a k cs.
  assert (Hne : x <> []) by (intros E; rewrite E in Hlen; discriminate).
  destruct (argmax_spec S754_nan x Hne Hnan) as (Hk & Hmax & Hfirst).
  fold k in Hk, Hmax, Hfirst. rewrite Hlen in Hk, Hmax.
  destruct (analyze_music_tonal f d t x Hd Ht Hx) as (Hkey & Hsc & Hmo).
  fold a k in Hkey, Hsc, Hmo.
  assert (Hcs : cs = scale_correlations corrcoef x k scale_templates)
    by reflexivity.
  assert (Hscale : scale a
                   = fst (select cs ("Ionian (Major)"%string, flit (-1)))).
  { rewrite Hsc, Hcs. unfold best_scale_of.
    rewrite best_scale_loop_select;
      [reflexivity|exact Hk|repeat constructor]. }
  assert (Hmode : mode a = mode_of (scale a)) by (rewrite Hmo, Hsc; reflexivity).
  pose proof (select_spec cs "Ionian (Major)"%string (flit (-1)) eq_refl)
    as Hsel.
  assert (Hin : In (scale a) (map fst scale_templates)).
  { destruct Hsel as [[_ Hs]|(l1 & n & c & l2 & Hsplit & Hs & _)];
      rewrite Hscale, Hs; cbn [fst].
    - left. reflexivity.
    - assert (Hn : In n (map fst cs)).
      { rewrite Hsplit, map_app. apply in_or_app. right. left. reflexivity. }
      subst cs. rewrite map_map in Hn. exact Hn. }
  split; [|split; [|split; [|split]]].
  - repeat split; assumption.
  - intros e i He Hi.
    assert (Hl : length (snd e) = 12%nat).
    { cbn [scale_templates In] in He.
      repeat (destruct He as [<-|He]; [reflexivity|]). contradiction. }
    clear - Hl Hi Hk. destruct e as [n tpl]. cbn [snd] in *.
    do 12 (destruct tpl as [|? tpl]; [discriminate|]).
    destruct tpl; [|discriminate].
    do 12 (destruct k as [|k];
           [do 12 (destruct i as [|i]; [reflexivity|]); lia|]).
    lia.
  - reflexivity.
  - destruct Hsel as [[Hnone Hs]|(l1 & n & c & l2 & Hsplit & Hs & Hb & H1 & H2)].
    + left. split; [exact Hnone|]. rewrite Hscale, Hs. reflexivity.
    + right. exists l1, c, l2. rewrite Hscale, Hs. cbn [fst].
      repeat split; assumption.
  - rewrite Hmode. apply mode_of_scale. exact Hin.
Qed.

(** C7: the result is the labels of the first four entries of the
    candidates sorted into descending order of correlation; the
    candidates are the entries of defined correlation in the order pitch
    class ascending, then Major, Minor, 7th, each the correlation of the
    input with the chord template transposed index by index to the
    pitch class of the root; the sort permutes them, no later entry
    exceeds an earlier one, and entries that tie keep their order.  For
    the Major template at pitch class 0 as input, if the correlation
    with that same template is defined and exceeds that of every other
    candidate, as it does for the Pearson coefficient evaluated in
    binary64, the first label is "C Major"; the same evaluation ranks
    "D Major" first for the Major template at pitch class 2. *)
Theorem C7_chord_ranking chroma :
  let cands := chord_candidates corrcoef chroma in
  let ranking := sort_desc snd cands in
  rank_chords corrcoef chroma = map fst (firstn 4 ranking)
  /\ (length (rank_chords corrcoef chroma) <= 4)%nat
  /\ cands
     = filter defined
         (map (fun g : (nat * string) * (string * list Z) =>
                 ((snd (fst g) ++ " " ++ fst (snd g))%string,
                  corrcoef chroma (transposed (snd (snd g)) (fst (fst g)))))
            chord_grid)
  /\ (forall g i, In g chord_grid -> (i < 12)%nat ->
        nth ((i + fst (fst g)) mod 12)
          (transposed (snd (snd g)) (fst (fst g))) 0
        = nth i (snd (snd g)) 0)
  /\ firstn 4 (map chord_label chord_grid)
     = ["C Major"; "C Minor"; "C 7th"; "C# Major"]%string
  /\ Permutation ranking cands
  /\ StronglySorted not_below ranking
  /\ (forall k, PyFloat.isnan k = false ->
        filter (tied k) ranking = filter (tied k) cands)
  /\ (chroma = c_major_vector ->
      let top := corrcoef c_major_vector
                   (transposed [1; 0; 0; 0; 1; 0; 0; 1; 0; 0; 0; 0] 0) in
      PyFloat.isnan top = false ->
      Forall (fun e => fst e = "C Major"%string
                       \/ PyFloat.gtb top (snd e) = true) cands ->
      hd ""%string (rank_chords corrcoef chroma) = "C Major"%string)
  /\ hd ""%string (rank_chords Pearson.corrcoef c_major_vector)
     = "C Major"%string
  /\ hd ""%string (rank_chords Pearson.corrcoef d_major_vector)
     = "D Major"%string.
Proof.
  intros cands ranking.
  pose proof (chord_candidates_defined chroma) as Hdef. fold cands in Hdef.
  destruct (sort_desc_sorted cands Hdef) as [Hsorted Hrdef].
  fold ranking in Hsorted, Hrdef.
  pose proof (sort_desc_perm cands) as Hperm. fold ranking in Hperm.
  split; [reflexivity|]. split.
  { unfold rank_chords. rewrite length_map, length_firstn. lia. }
  split; [apply chord_candidates_grid|]. split.
  { intros g i Hg Hi.
    assert (Hb : forallb
                   (fun g : (nat * string) * (string * list Z) =>
                      forallb
                        (fun i =>
                           nth ((i + fst (fst g)) mod 12)
                             (transposed (snd (snd g)) (fst (fst g))) 0
                           =? nth i (snd (snd g)) 0)
                        (seq 0 12))
                   chord_grid = true) by (vm_compute; reflexivity).
    rewrite forallb_forall in Hb. specialize (Hb g Hg).
    rewrite forallb_forall in Hb. apply Z.eqb_eq. apply Hb.
    apply in_seq. lia. }
  split; [reflexivity|].
  split; [exact Hperm|]. split; [exact Hsorted|]. split.
  { intros k Hk. apply sort_desc_stable; assumption. }
  split; [|split; vm_compute; reflexivity].
  intros -> top Htop Hdom.
  assert (Hin : In ("C Major"%string, top) cands).
  { subst cands. rewrite chord_candidates_grid. apply filter_In. split.
    - apply in_map_iff.
      exists ((0%nat, "C"%string),
              ("Major"%string, [1; 0; 0; 0; 1; 0; 0; 1; 0; 0; 0; 0])).
      split; [reflexivity|]. left. reflexivity.
    - unfold defined. cbn [snd]. rewrite Htop. reflexivity. }
  apply (Permutation_in _ (Permutation_sym Hperm)) in Hin.
  unfold rank_chords. fold cands. fold ranking.
  destruct ranking as [|h t]; [contradiction|].
  cbn [firstn map hd].
  assert (Hh : In h cands)
    by (apply (Permutation_in _ Hperm); left; reflexivity).
  rewrite Forall_forall in Hdom. destruct (Hdom h Hh) as [Hl|Hg];
    [exact Hl|].
  destruct Hin as [Heq|Hin]; [rewrite Heq; reflexivity|].
  inversion Hsorted as [|? ? _ Hall]; subst.
  rewrite Forall_forall in Hall. specialize (Hall _ Hin).
  unfold not_below in Hall. cbn [snd] in Hall. congruence.
Qed.

(** C8: without the analysis library the call returns the defaults, with
    the availability flag false, and does not fail. *)
Theorem C8_library_unavailable run :
  let a := analyze_music corrcoef weak_scalars false run in
  analysis_available a = false
  /\ key a = "Unknown"%string
  /\ mode a = "Unknown"%string
  /\ scale a = "Unknown"%string
  /\ tempo a = S754_zero false
  /\ energy a = "Medium"%string
  /\ possible_chords a = []
  /\ instrument_chords a = []
  /\ instruments a = []
  /\ genre_hints a = []
  /\ error a = Some "Music analysis library not available"%string.
Proof. repeat split. Qed.

End ClassifierClaims.

Lemma C6_tonal_profile_witness :
  let a := analyze_music Pearson.corrcoef true true (Loaded d_major_recording) in
  let x := d_major_vector in
  let k := argmax x in
  let cs :=
    map (fun e => (fst e, Pearson.corrcoef x (transposed (snd e) k)))
      scale_templates in
  (k = 2%nat /\ key a = "D"%string)
  /\ ((k < 12)%nat
      /\ key a = nth k KEY_NAMES ""%string
      /\ (forall j, (j < 12)%nat ->
            PyFloat.gtb (nth j x S754_nan) (nth k x S754_nan) = false)
      /\ (forall j, (j < k)%nat ->
            PyFloat.gtb (nth k x S754_nan) (nth j x S754_nan) = true))
  /\ (forall e i, In e scale_templates -> (i < 12)%nat ->
        nth ((i + k) mod 12) (transposed (snd e) k) 0 = nth i (snd e) 0)
  /\ map fst cs
     = ["Ionian (Major)"; "Dorian"; "Phrygian"; "Lydian"; "Mixolydian";
        "Aeolian (Minor)"; "Locrian"]%string
  /\ ((Forall (fun e => beats (snd e) (flit (-1)) = false) cs
       /\ scale a = "Ionian (Major)"%string)
      \/ exists l1 c l2,
           cs = l1 ++ (scale a, c) :: l2
           /\ beats c (flit (-1)) = true
           /\ Forall (fun e => PyFloat.isnan (snd e) = true
                               \/ PyFloat.gtb c (snd e) = true) l1
           /\ Forall (fun e => PyFloat.isnan (snd e) = true
                               \/ PyFloat.gtb (snd e) c = false) l2)
  /\ (mode a = "Minor"%string <-> In (scale a) minor_scales)
  /\ (mode a = "Minor"%string \/ mode a = "Major"%string).
Proof.
  split; [split; vm_compute; reflexivity|].
  apply (C6_tonal_profile Pearson.corrcoef true d_major_recording
           (flit 3) (flit 120) d_major_vector);
    [reflexivity | reflexivity | reflexivity | reflexivity
    | repeat constructor].
Defined.

Lemma C7_chord_ranking_witness :
  hd ""%string (rank_chords Pearson.corrcoef c_major_vector)
  = "C Major"%string.
Proof.
  pose proof (C7_chord_ranking Pearson.corrcoef c_major_vector) as H.
  cbv zeta in H. destruct H as (_ & _ & _ & _ & _ & _ & _ & _ & Hc & _).
  apply Hc.
  - reflexivity.
  - vm_compute. reflexivity.
  - apply Forall_forall. intros e He.
    assert (Hb : forallb (fun e => String.eqb (fst e) "C Major"
                   || PyFloat.gtb (Pearson.corrcoef c_major_vector
                        (transposed [1; 0; 0; 0; 1; 0; 0; 1; 0; 0; 0; 0] 0))
                        (snd e))
                   (chord_candidates Pearson.corrcoef c_major_vector) = true)
      by (vm_compute; reflexivity).
    rewrite forallb_forall in Hb. specialize (Hb e He).
    apply orb_prop in Hb. destruct Hb as [Hs|Hg];
      [left; apply String.eqb_eq; exact Hs|right; exact Hg].
Defined.

(** * Further properties

    ** The header parser *)

Lemma parse_wav_header_long file :
  (44 <= length file)%nat ->
  parse_wav_header (open_rb file) = Ok (header_layout file, mkHandle file 44).
Proof.
  intros Hl.
  assert (Htag : forall p, (p + 4 <= length file)%nat ->
            read (mkHandle file p) 4
            = (firstn 4 (skipn p file), mkHandle file (p + 4))).
  { intros p Hp. unfold read. cbn [content pos]. f_equal. f_equal.
    rewrite length_firstn, length_skipn. lia. }
  assert (HI : forall p, (p + 4 <= length file)%nat ->
            read_I (mkHandle file p)
            = Ok (le_value (firstn 4 (skipn p file)), mkHandle file (p + 4))).
  { intros p Hp. unfold read_I. rewrite Htag by exact Hp. unfold unpack_I.
    rewrite length_firstn, length_skipn.
    replace (Nat.min 4 (length file - p)) with 4%nat by lia. reflexivity. }
  assert (HH : forall p, (p + 2 <= length file)%nat ->
            read_H (mkHandle file p)
            = Ok (le_value (firstn 2 (skipn p file)), mkHandle file (p + 2))).
  { intros p Hp. unfold read_H, read, unpack_H. cbn [content pos].
    rewrite length_firstn, length_skipn.
    replace (Nat.min 2 (length file - p)) with 2%nat by lia. reflexivity. }
  unfold parse_wav_header, read_tag, open_rb.
  rewrite (Htag 0%nat) by lia. cbn [bind snd fst Nat.add].
  rewrite (HI 4%nat) by lia. cbn [bind snd fst Nat.add].
  rewrite (Htag 8%nat) by lia. cbn [bind snd fst Nat.add].
  rewrite (Htag 12%nat) by lia. cbn [bind snd fst Nat.add].
  rewrite (HI 16%nat) by lia. cbn [bind snd fst Nat.add].
  rewrite (HH 20%nat) by lia. cbn [bind snd fst Nat.add].
  rewrite (HH 22%nat) by lia. cbn [bind snd fst Nat.add].
  rewrite (HI 24%nat) by lia. cbn [bind snd fst Nat.add].
  rewrite (HI 28%nat) by lia. cbn [bind snd fst Nat.add].
  rewrite (HH 32%nat) by lia. cbn [bind snd fst Nat.add].
  rewrite (HH 34%nat) by lia. cbn [bind snd fst Nat.add].
  rewrite (Htag 36%nat) by lia. cbn [bind snd fst Nat.add].
  rewrite (HI 40%nat) by lia. cbn [bind snd fst Nat.add].
  reflexivity.
Qed.

(** X1: the header parser fails with a struct error exactly on a stream of
    fewer than 44 bytes; on any longer stream it returns the thirteen
    fields found at the fixed offsets of the format, numbers little-endian,
    and leaves the handle at offset 44. *)
Theorem X1_header_layout file :
  parse_wav_header (open_rb file)
  = if (length file <? 44)%nat then Raise StructError
    else Ok (header_layout file, mkHandle file 44).
Proof.
  destruct (Nat.ltb_spec (length file) 44) as [Hs|Hl].
  - apply parse_wav_header_short. exact Hs.
  - apply parse_wav_header_long. exact Hl.
Qed.

Lemma le_value_bound bs : 0 <= le_value bs < 256 ^ Z.of_nat (length bs).
Proof.
  induction bs as [|b bs IH]; cbn [le_value length]; [cbn; lia|].
  rewrite Nat2Z.inj_succ, Z.pow_succ_r by lia.
  pose proof (byte_val_range b). lia.
Qed.

Lemma field_length file offset size :
  (offset + size <= length file)%nat -> length (field file offset size) = size.
Proof.
  intros H. unfold field. rewrite length_firstn, length_skipn. lia.
Qed.

(** X2: every number of a parsed header is within the unsigned range of
    its width (16-bit fields below 65536, 32-bit fields below 2^32); hence
    the sample width is at most 8191 bytes and the divisor of the column
    count, skip ratio plus sample width, is at least 40, never zero. *)
Theorem X2_header_ranges file hd h :
  parse_wav_header (open_rb file) = Ok (hd, h) ->
  (0 <= chunk_size hd < 2 ^ 32 /\ 0 <= subchunk1_size hd < 2 ^ 32
   /\ 0 <= sample_rate hd < 2 ^ 32 /\ 0 <= byte_rate hd < 2 ^ 32
   /\ 0 <= subchunk2_size hd < 2 ^ 32)
  /\ (0 <= audio_format hd < 65536 /\ 0 <= num_channels hd < 65536
      /\ 0 <= block_align hd < 65536 /\ 0 <= bits_per_sample hd < 65536)
  /\ 0 <= bits_per_sample hd / 8 <= 8191
  /\ 40 <= (if num_channels hd =? 2 then 40 else 80) + bits_per_sample hd / 8.
Proof.
  intros Hp. pose proof (parse_wav_header_Ok file hd h Hp) as (Hl & _).
  rewrite (parse_wav_header_long file Hl) in Hp. inversion Hp; subst hd; clear Hp.
  cbn [chunk_size subchunk1_size sample_rate byte_rate subchunk2_size
       audio_format num_channels block_align bits_per_sample header_layout].
  assert (H4 : forall o, (o + 4 <= length file)%nat ->
             0 <= le_value (field file o 4) < 2 ^ 32).
  { intros o Ho. pose proof (le_value_bound (field file o 4)) as Hb.
    rewrite field_length in Hb by exact Ho. exact Hb. }
  assert (H2 : forall o, (o + 2 <= length file)%nat ->
             0 <= le_value (field file o 2) < 65536).
  { intros o Ho. pose proof (le_value_bound (field file o 2)) as Hb.
    rewrite field_length in Hb by exact Ho. exact Hb. }
  pose proof (H2 34%nat ltac:(lia)) as Hbits.
  assert (Hq : 0 <= le_value (field file 34 2) / 8 <= 8191).
  { split; [apply Z.div_pos; lia|].
    assert (le_value (field file 34 2) / 8 < 8192)
      by (apply Z.div_lt_upper_bound; lia). lia. }
  repeat split; try (apply H4; lia); try (apply H2; lia); try lia.
  destruct (_ =? 2); lia.
Qed.

Lemma X2_header_ranges_witness :
  40 <= (if num_channels (header_layout (silent_wav 200)) =? 2 then 40 else 80)
        + bits_per_sample (header_layout (silent_wav 200)) / 8.
Proof.
  apply (X2_header_ranges (silent_wav 200) (header_layout (silent_wav 200))
           (mkHandle (silent_wav 200) 44)).
  reflexivity.
Defined.


(** ** Exact cases of the float arithmetic *)

Lemma trunc_exact p3 e2 k2 H :
  e2 <= 0 -> 0 <= k2 -> Zpos p3 * 2 ^ k2 = H * 2 ^ (- e2) ->
  PyFloat.trunc (S754_finite false p3 (e2 + k2)) = Ok H.
Proof.
  intros He2 Hk2 Heq. cbn [PyFloat.trunc].
  assert (Hp2 : 0 < 2 ^ k2) by (apply Z.pow_pos_nonneg; lia).
  destruct (e2 + k2) as [|q|q] eqn:He3; f_equal.
  - replace (- e2) with k2 in Heq by lia.
    apply Z.mul_cancel_r in Heq; lia.
  - replace k2 with (Zpos q + - e2) in Heq by lia.
    assert (0 < 2 ^ (- e2)) by (apply Z.pow_pos_nonneg; lia).
    rewrite Z.pow_add_r, Z.mul_assoc in Heq by lia.
    apply Z.mul_cancel_r in Heq; lia.
  - replace (- e2) with (Zpos q + k2) in Heq by lia.
    rewrite Z.pow_add_r, Z.mul_assoc in Heq by lia.
    apply Z.mul_cancel_r in Heq; [|lia].
    rewrite Heq. apply Z.div_mul.
    assert (0 < 2 ^ Zpos q) by (apply Z.pow_pos_nonneg; lia). lia.
Qed.

(** The product of 1.0 and an exact height is the height. *)
Lemma mul_one_trunc pH d H :
  0 <= d -> 0 < H < 2 ^ 53 -> Zpos pH = H * 2 ^ d ->
  PyFloat.trunc (SFmul 53 1024 (S754_finite false 4503599627370496 (-52))
                   (S754_finite false pH (- d))) = Ok H.
Proof.
  intros Hd HH HpH. cbn [SFmul xorb].
  set (M := (4503599627370496 * pH)%positive). set (E := -52 + - d).
  pose proof (digits_bounds M) as [Dlo Dhi].
  set (dg := Zpos (digits2_pos M)) in *.
  assert (Hpd : 0 < 2 ^ d) by (apply Z.pow_pos_nonneg; lia).
  assert (HpE : 0 < 2 ^ (- E)) by (apply Z.pow_pos_nonneg; subst E; lia).
  assert (HM : Zpos M = H * 2 ^ (- E)).
  { subst M E. rewrite Pos2Z.inj_mul, HpH.
    replace (- (-52 + - d)) with (52 + d) by lia. rewrite Z.pow_add_r by lia.
    change (Zpos 4503599627370496) with (2 ^ 52). ring. }
  set (k := Z.max 0 (dg - 53)).
  assert (Hk : 0 <= k) by (subst k; lia).
  assert (He2 : E + k <= 0).
  { destruct (Z_lt_le_dec 0 (E + k)) as [Hgt|]; [|lia].
    assert (k = dg - 53) by (subst k E; lia).
    assert (Hlt : Zpos M < 2 ^ (53 + - E)).
    { rewrite Z.pow_add_r by (subst E; lia). rewrite HM.
      apply Z.mul_lt_mono_pos_r; lia. }
    assert (2 ^ (53 + - E) <= 2 ^ (dg - 1)) by (apply Z.pow_le_mono_r; lia).
    lia. }
  assert (Hd1 : - E < dg).
  { destruct (Z_lt_le_dec (- E) dg) as [|Hge]; [assumption|].
    assert (2 ^ dg <= 2 ^ (- E)) by (apply Z.pow_le_mono_r; subst E; lia).
    assert (2 ^ (- E) <= Zpos M) by (rewrite HM; nia).
    lia. }
  destruct (binary_round_aux_finite M E)
    as (p3 & m2 & k2 & Hr & Hk2 & Hv & _ & _ & Hex).
  { fold dg. lia. } { fold dg. fold k. lia. }
  fold dg in Hr, Hex. fold k in Hr, Hex.
  rewrite Hr.
  assert (Hpk : 0 < 2 ^ k) by (apply Z.pow_pos_nonneg; lia).
  assert (Hsplit : Zpos M = H * 2 ^ (- (E + k)) * 2 ^ k).
  { rewrite HM, <- Z.mul_assoc, <- Z.pow_add_r by lia. f_equal. f_equal. lia. }
  assert (Hm2 : m2 = H * 2 ^ (- (E + k))).
  { rewrite Hex; rewrite Hsplit.
    - apply Z.div_mul. lia.
    - apply Z.mod_mul. lia. }
  apply trunc_exact; lia.
Qed.

Lemma div_core_half p :
  SFdiv_core_binary 53 1024 (Zpos p) 0 (Zpos p~0) 0
  = (9007199254740992, -54, loc_Exact).
Proof.
  unfold SFdiv_core_binary. cbn [Zdigits2 digits2_pos].
  replace (Zpos (digits2_pos p) + 0 - (Zpos (Pos.succ (digits2_pos p)) + 0))
    with (-1) by lia.
  change (Z.min (fexp 53 1024 (-1)) (0 - 0)) with (-54).
  change (0 - 0 - -54) with 54.
  cbv beta iota zeta. rewrite Z.shiftl_mul_pow2 by lia.
  change (2 ^ 54) with 18014398509481984.
  assert (Hq : Zpos p * 18014398509481984 / Zpos p~0 = 9007199254740992)
    by (symmetry; apply Z.div_unique with 0; lia).
  assert (Hr : (Zpos p * 18014398509481984) mod Zpos p~0 = 0)
    by (symmetry; apply Z.mod_unique with 9007199254740992; lia).
  unfold Z.div, Z.modulo in Hq, Hr.
  destruct (Z.div_eucl (Zpos p * 18014398509481984) (Zpos p~0)) as [q r].
  subst q r. reflexivity.
Qed.

(** The quotient of an amplitude and twice the amplitude is the float 0.5,
    for an integer of any size. *)
Lemma truediv_half v : 0 < v -> PyFloat.truediv v (2 * v) = Ok PyFloat.half.
Proof.
  intros Hv. destruct v as [|p|p]; try lia.
  unfold PyFloat.truediv. change (2 * Zpos p) with (Zpos p~0).
  cbn [Z.eqb PyFloat.raw SFdiv xorb].
  unfold PyFloat.prec, PyFloat.emax. rewrite div_core_half.
  vm_compute. reflexivity.
Qed.

Lemma pixel_height_ends :
  pixel_height 0 0 = Ok 0 /\ pixel_height 255 0 = Ok 0
  /\ pixel_height 0 (2 ^ 53) = Ok 0 /\ pixel_height 255 (2 ^ 53) = Ok (2 ^ 53)
  /\ PyFloat.truediv 0 255 = Ok (S754_zero false)
  /\ PyFloat.truediv 255 255 = Ok (S754_finite false 4503599627370496 (-52)).
Proof. vm_compute. repeat split; reflexivity. Qed.

(** X8: the byte value 0 is converted to the pixel height 0 and the byte
    value 255 to exactly the target height, for every height from 0 to
    2^53: the conversion reaches both ends of its range. *)
Theorem X8_pixel_height_ends H :
  0 <= H <= 2 ^ 53 ->
  pixel_height 0 H = Ok 0 /\ pixel_height 255 H = Ok H.
Proof.
  intros HH. pose proof pixel_height_ends as (E00 & E10 & E01 & E11 & Q0 & Q1).
  destruct (Z.eq_dec H 0) as [->|Hnz]; [split; assumption|].
  destruct (Z.eq_dec H (2 ^ 53)) as [->|Hnt]; [split; assumption|].
  destruct (of_int_exact H ltac:(lia)) as (pH & d & Hof & Hd & HpH).
  unfold pixel_height, PyFloat.mul_int. rewrite Q0, Q1, Hof. cbn [bind].
  split; [reflexivity|].
  unfold py_int. apply mul_one_trunc; [exact Hd|lia|exact HpH].
Qed.

Lemma X8_pixel_height_ends_witness :
  pixel_height 0 100 = Ok 0 /\ pixel_height 255 100 = Ok 100.
Proof. apply (X8_pixel_height_ends 100). lia. Defined.


(** ** The amplitude sampler *)

Lemma process_wav_file_layout file H D :
  (44 <= length file)%nat -> D <> 0 ->
  process_wav_file file H D
  = mapM (fun s => pixel_height (sample_data (spec_bps (header_layout file)) s) H)
      (retained_samples file (spec_bps (header_layout file))
         (spec_ratio (header_layout file)) D 0
         (Z.to_nat (spec_N (header_layout file) (Z.of_nat (length file))))).
Proof.
  intros Hl HD.
  apply (process_wav_file_spec file (header_layout file) (mkHandle file 44));
    [apply parse_wav_header_long; exact Hl|exact HD].
Qed.

Lemma spec_N_pos file :
  (44 <= length file)%nat ->
  1 <= spec_N (header_layout file) (Z.of_nat (length file)).
Proof.
  intros Hl. unfold spec_N.
  pose proof (spec_bps_nonneg file _ _ (parse_wav_header_long file Hl)) as Hb.
  pose proof (spec_ratio_pos (header_layout file)) as Hr.
  assert (0 <= (Z.of_nat (length file) - 44)
               / (spec_ratio (header_layout file) + spec_bps (header_layout file)))
    by (apply Z.div_pos; lia).
  lia.
Qed.

Lemma process_wav_file_short file H D :
  (length file < 44)%nat -> process_wav_file file H D = Raise StructError.
Proof.
  intros Hs. unfold process_wav_file.
  rewrite (parse_wav_header_short file Hs). reflexivity.
Qed.

Lemma process_wav_file_stride0 file H :
  (44 <= length file)%nat ->
  process_wav_file file H 0 = Raise ZeroDivisionError.
Proof.
  intros Hl. unfold process_wav_file.
  rewrite (parse_wav_header_long file Hl). cbn [bind].
  pose proof (spec_N_pos file Hl) as HN. unfold spec_N, spec_ratio, spec_bps in HN.
  destruct (Z.to_nat _) as [|n] eqn:En; [lia|]. reflexivity.
Qed.

Lemma process_wav_file_returns file H D :
  (44 <= length file)%nat -> D <> 0 -> 0 <= H <= 2 ^ 53 ->
  exists series, process_wav_file file H D = Ok series.
Proof.
  intros Hl HD HH. rewrite (process_wav_file_layout file H D Hl HD).
  destruct (mapM_total
              (fun s => pixel_height
                          (sample_data (spec_bps (header_layout file)) s) H)
              (retained_samples file (spec_bps (header_layout file))
                 (spec_ratio (header_layout file)) D 0
                 (Z.to_nat (spec_N (header_layout file)
                              (Z.of_nat (length file))))))
    as (bs & Hbs & _).
  - intros s _.
    destruct (pixel_height_range
                (sample_data (spec_bps (header_layout file)) s) H
                (sample_data_range _ s) HH) as (v & Hv & _).
    exists v. exact Hv.
  - exists bs. exact Hbs.
Qed.

(** X3: the outcome of the sampler on any file, height and stride.  A file
    shorter than the 44-byte header raises the struct error of the header
    parser; a longer file with stride zero raises ZeroDivisionError at the
    first index; a longer file with a non-zero stride and a height from 0
    to 2^53 always returns a series. *)
Theorem X3_sampler_outcome file H D :
  ((length file < 44)%nat -> process_wav_file file H D = Raise StructError)
  /\ ((44 <= length file)%nat -> D = 0 ->
      process_wav_file file H D = Raise ZeroDivisionError)
  /\ ((44 <= length file)%nat -> D <> 0 -> 0 <= H <= 2 ^ 53 ->
      exists series, process_wav_file file H D = Ok series).
Proof.
  split; [|split].
  - apply process_wav_file_short.
  - intros Hl ->. apply process_wav_file_stride0. exact Hl.
  - apply process_wav_file_returns.
Qed.

Lemma takeWhile_length {A} (p : A -> bool) l :
  (length (takeWhile p l) <= length l)%nat.
Proof.
  induction l as [|a l IH]; cbn [takeWhile length]; [lia|].
  destruct (p a); cbn [length]; lia.
Qed.

Lemma mapM_Ok_length {A B} (f : A -> result B) l bs :
  mapM f l = Ok bs -> length bs = length l.
Proof.
  intros Hm. apply mapM_Ok_Forall2 in Hm.
  symmetry. eapply Forall2_length. exact Hm.
Qed.

(** X4: for a positive stride, a returned series never has more points
    than the indices below the column count N that the stride divides,
    ceil(N / D); a truncated payload only shortens the series. *)
Theorem X4_series_length_bound file H D series :
  0 < D ->
  process_wav_file file H D = Ok series ->
  Z.of_nat (length series)
  <= (spec_N (header_layout file) (Z.of_nat (length file)) + D - 1) / D.
Proof.
  intros HD Hrun.
  assert (Hl : (44 <= length file)%nat).
  { destruct (Nat.lt_ge_cases (length file) 44) as [Hs|Hl]; [|exact Hl].
    rewrite (process_wav_file_short file H D Hs) in Hrun. discriminate. }
  rewrite (process_wav_file_layout file H D Hl) in Hrun by lia.
  apply mapM_Ok_length in Hrun. rewrite Hrun. unfold retained_samples.
  pose proof (spec_N_pos file Hl) as HN.
  set (N := spec_N (header_layout file) (Z.of_nat (length file))) in *.
  pose proof (takeWhile_length
                (complete (spec_bps (header_layout file)))
                (map (sample_at file (spec_bps (header_layout file))
                        (spec_ratio (header_layout file)))
                   (retained_indices D 0 (Z.to_nat N)))) as Ht.
  rewrite length_map in Ht.
  pose proof (retained_indices_length D 0 (Z.to_nat N) HD ltac:(lia)) as Hr.
  rewrite Z2Nat.id in Hr by lia.
  replace ((0 + D - 1) / D) with 0 in Hr by (symmetry; apply Z.div_small; lia).
  replace (0 + N + D - 1) with (N + D - 1) in Hr by lia. lia.
Qed.

Lemma X4_series_length_bound_witness :
  process_wav_file (silent_wav 1000) 100 5 = Ok [50; 50; 50]
  /\ Z.of_nat (length [50; 50; 50])
     <= (spec_N (header_layout (silent_wav 1000))
           (Z.of_nat (length (silent_wav 1000))) + 5 - 1) / 5.
Proof.
  split; [vm_compute; reflexivity|].
  apply (X4_series_length_bound (silent_wav 1000) 100 5 [50; 50; 50]);
    [lia | vm_compute; reflexivity].
Defined.

Lemma high_byte_table high :
  let hv := byte_val high in
  Z.land hv 127 + (if Z.land hv 128 =? 0 then 128 else 0) = Z.lxor hv 128
  /\ Z.lxor hv 128 = (if hv <? 128 then hv + 128 else hv - 128).
Proof. destruct high; vm_compute; split; reflexivity. Qed.

(** X5: a 16-bit sample is decoded from its high byte alone, with the top
    bit flipped: the byte value is the high byte xor 128, which is the
    signed little-endian sample shifted to the unsigned range and reduced
    to its upper eight bits, [(s + 32768) div 256].  The low byte has no
    influence. *)
Theorem X5_sample16_high_byte low high :
  sample_data 2 [low; high] = Z.lxor (byte_val high) 128
  /\ sample_data 2 [low; high] = (signed16 low high + 32768) / 256.
Proof.
  pose proof (high_byte_table high) as [Ht Hx]. cbv zeta in Ht, Hx.
  pose proof (byte_val_range low) as Hlow.
  pose proof (byte_val_range high) as Hhigh.
  assert (Hs : sample_data 2 [low; high] = Z.lxor (byte_val high) 128).
  { unfold sample_data, find_values. cbn [Z.eqb Pos.eqb nth].
    rewrite Ht. rewrite Z.div_add by lia.
    rewrite Z.div_small by lia. lia. }
  split; [exact Hs|]. rewrite Hs, Hx.
  unfold signed16. cbn [le_value].
  destruct (Z.ltb_spec (byte_val high) 128) as [Hlt|Hge].
  - destruct (Z.ltb_spec (byte_val low + 256 * (byte_val high + 256 * 0)) 32768);
      [|lia].
    apply Z.div_unique with (byte_val low); lia.
  - destruct (Z.ltb_spec (byte_val low + 256 * (byte_val high + 256 * 0)) 32768);
      [lia|].
    apply Z.div_unique with (byte_val low); lia.
Qed.

Lemma field_prefix n file offset size :
  (offset + size <= n)%nat ->
  field (firstn n file) offset size = field file offset size.
Proof.
  intros Hle. unfold field.
  rewrite skipn_firstn_comm, firstn_firstn.
  replace (Nat.min size (n - offset)) with size by lia. reflexivity.
Qed.

Lemma header_layout_prefix file :
  header_layout (firstn 44 file) = header_layout file.
Proof.
  unfold header_layout. rewrite !field_prefix by lia. reflexivity.
Qed.

(** X6: the sampler reads the header and the retained samples and nothing
    else.  Two files of the same size with the same 44 header bytes that
    agree on the sample window of every retained index give the same
    outcome, whatever the bytes in between are. *)
Theorem X6_skipped_bytes_unread file file' H D :
  D <> 0 ->
  length file' = length file ->
  firstn 44 file' = firstn 44 file ->
  (forall i,
     0 <= i < spec_N (header_layout file) (Z.of_nat (length file)) ->
     i mod D = 0 ->
     sample_at file' (spec_bps (header_layout file))
       (spec_ratio (header_layout file)) i
     = sample_at file (spec_bps (header_layout file))
         (spec_ratio (header_layout file)) i) ->
  process_wav_file file' H D = process_wav_file file H D.
Proof.
  intros HD Hlen Hhead Hsame.
  destruct (Nat.lt_ge_cases (length file) 44) as [Hs|Hl].
  - rewrite !process_wav_file_short by lia. reflexivity.
  - assert (Hhd : header_layout file' = header_layout file).
    { rewrite <- (header_layout_prefix file'), Hhead.
      apply header_layout_prefix. }
    rewrite !process_wav_file_layout by lia.
    rewrite Hhd, Hlen. f_equal. unfold retained_samples. f_equal.
    apply map_ext_in. intros i Hi.
    unfold retained_indices in Hi. apply filter_In in Hi.
    destruct Hi as [Hi Hm]. apply range_In in Hi. apply Z.eqb_eq in Hm.
    pose proof (spec_N_pos file Hl) as HN.
    rewrite Z2Nat.id in Hi by lia.
    apply Hsame; [lia|exact Hm].
Qed.

Lemma X6_skipped_bytes_unread_witness :
  process_wav_file
    (mono16_wav (repeat x00 2 ++ [xff] ++ repeat x00 997)) 100 5
  = process_wav_file (silent_wav 1000) 100 5.
Proof.
  apply (X6_skipped_bytes_unread (silent_wav 1000)
           (mono16_wav (repeat x00 2 ++ [xff] ++ repeat x00 997)) 100 5);
    [lia | reflexivity | reflexivity |].
  intros i Hi Hm.
  change (spec_N (header_layout (silent_wav 1000))
            (Z.of_nat (length (silent_wav 1000)))) with 13 in Hi.
  assert (Hcases : i = 0 \/ i = 5 \/ i = 10)
    by (apply Z.mod_divide in Hm; [destruct Hm as [k ->]; lia|lia]).
  destruct Hcases as [->|[->| ->]]; vm_compute; reflexivity.
Defined.

(** X7: a file that holds the header and less than one whole sample after
    it gives the empty series: the first read is short and ends the loop
    before any point is appended. *)
Theorem X7_short_payload_empty file H D :
  D <> 0 ->
  44 <= Z.of_nat (length file) < 44 + spec_bps (header_layout file) ->
  process_wav_file file H D = Ok [].
Proof.
  intros HD [Hl Hshort].
  assert (Hl' : (44 <= length file)%nat) by lia.
  rewrite (process_wav_file_layout file H D Hl' HD).
  pose proof (spec_N_pos file Hl') as HN.
  destruct (Z.to_nat (spec_N (header_layout file) (Z.of_nat (length file))))
    as [|n] eqn:En; [lia|].
  unfold retained_samples, retained_indices. cbn [range filter].
  rewrite Z.mod_0_l by exact HD. cbn [Z.eqb map takeWhile].
  assert (Hc : complete (spec_bps (header_layout file))
                 (sample_at file (spec_bps (header_layout file))
                    (spec_ratio (header_layout file)) 0) = false).
  { unfold complete, sample_at. apply negb_false_iff, Z.ltb_lt.
    rewrite length_firstn, length_skipn. cbn [Z.mul Z.add Z.to_nat]. lia. }
  rewrite Hc. reflexivity.
Qed.

Lemma X7_short_payload_empty_witness :
  process_wav_file empty_wav 100 5 = Ok [].
Proof.
  apply (X7_short_payload_empty empty_wav 100 5); [lia|].
  vm_compute. split; [discriminate|reflexivity].
Defined.


(** ** The renderer *)

Lemma pixel_height_exn d H e :
  pixel_height d H = Raise e -> sampler_exn e.
Proof.
  unfold pixel_height, PyFloat.mul_int, PyFloat.of_int, py_int, sampler_exn.
  destruct (PyFloat.truediv d 255) as [q|e0] eqn:Eq; cbn [bind].
  - destruct (binary_normalize _ _ H 0 false); cbn [bind];
      try (intros Hr; inversion Hr; auto);
      match goal with
      | Hr : PyFloat.trunc ?x = Raise _ |- _ =>
          destruct x; cbn [PyFloat.trunc] in Hr; inversion Hr; auto
      end.
  - intros Hr. inversion Hr; subst.
    apply truediv_errors in Eq. destruct Eq; auto.
Qed.

Lemma process_wav_file_exn file H D e :
  process_wav_file file H D = Raise e -> sampler_exn e.
Proof.
  intros Hr.
  destruct (Nat.lt_ge_cases (length file) 44) as [Hs|Hl].
  - rewrite process_wav_file_short in Hr by exact Hs.
    inversion Hr. left. reflexivity.
  - destruct (Z.eq_dec D 0) as [->|HD].
    + rewrite (process_wav_file_stride0 file H Hl) in Hr.
      inversion Hr. right. left. reflexivity.
    + rewrite (process_wav_file_layout file H D Hl HD) in Hr.
      revert Hr. apply mapM_errors. intros s e'. apply pixel_height_exn.
Qed.

Lemma painted_canvas_exn adp n H fg bg flat e :
  painted_canvas adp n H fg bg flat = Raise e ->
  e = NoData \/ e = InvalidColor \/ e = InvalidLiteral
  \/ e = ZeroDivisionError \/ e = OverflowError.
Proof.
  unfold painted_canvas.
  destruct adp as [|[|v first] rest]; try (intros Hr; inversion Hr; auto).
  revert Hr.
  destruct (negb (truthy bg)); cbn [bind].
  - destruct (if truthy fg then html2rgb fg else Ok (255, 0, 0))
      as [fgc|e0] eqn:Ef; cbn [bind].
    + intros Hr. apply paint_channels_errors in Hr. destruct Hr; auto.
    + intros Hr. inversion Hr; subst.
      destruct (truthy fg); [|discriminate].
      apply html2rgb_errors in Ef. destruct Ef; auto.
  - destruct (html2rgb bg) as [bgc|e0] eqn:Eb; cbn [bind].
    + destruct (if truthy fg then html2rgb fg else Ok (255, 0, 0))
        as [fgc|e1] eqn:Ef; cbn [bind].
      * intros Hr. apply paint_channels_errors in Hr. destruct Hr; auto.
      * intros Hr. inversion Hr; subst.
        destruct (truthy fg); [|discriminate].
        apply html2rgb_errors in Ef. destruct Ef; auto.
    + intros Hr. inversion Hr; subst.
      apply html2rgb_errors in Eb. destruct Eb; auto.
Qed.

Lemma painted_canvas_mode adp n H fg bg flat canvas :
  painted_canvas adp n H fg bg flat = Ok canvas ->
  im_mode canvas = if truthy bg then RGB else RGBA.
Proof.
  unfold painted_canvas.
  destruct adp as [|[|v first] rest]; try discriminate.
  destruct (truthy bg); cbn [negb bind].
  - destruct (html2rgb bg) as [bgc|]; cbn [bind]; [|discriminate].
    destruct (if truthy fg then html2rgb fg else Ok (255, 0, 0));
      cbn [bind]; [|discriminate].
    intros Hr. apply paint_channels_size in Hr. destruct Hr as (Hm & _).
    rewrite Hm. reflexivity.
  - destruct (if truthy fg then html2rgb fg else Ok (255, 0, 0));
      cbn [bind]; [|discriminate].
    intros Hr. apply paint_channels_size in Hr. destruct Hr as (Hm & _).
    rewrite Hm. reflexivity.
Qed.

Lemma in_image_draw_vline img x0 y1 y2 fill x y :
  in_image (draw_vline img x0 y1 y2 fill) x y = in_image img x y.
Proof. reflexivity. Qed.

Lemma in_image_same img img' x y :
  im_width img' = im_width img -> im_height img' = im_height img ->
  in_image img' x y = in_image img x y.
Proof. intros Hw Hh. unfold in_image. rewrite Hw, Hh. reflexivity. Qed.

(** The pixels after the inner loop: a pixel of the image is the fill
    colour when its column holds a drawn bar that covers its row, and is
    unchanged otherwise. *)
Lemma paint_columns_pixels H off flat fill l :
  forall x0 img img',
    paint_columns H off flat fill x0 l img = Ok img' ->
    forall x y,
      im_pixel img' x y
      = if in_image img x y && series_paints H off flat x0 l x y
        then fill else im_pixel img x y.
Proof.
  induction l as [|v rest IH]; intros x0 img img' Hp x y.
  - cbn [paint_columns] in Hp. inversion Hp; subst img'.
    unfold series_paints. destruct (Z.to_nat (x - x0)); cbn [nth_error];
      rewrite !andb_false_r; reflexivity.
  - cbn [paint_columns] in Hp.
    destruct (suppressed v H flat) as [skip|e] eqn:Es; cbn [bind] in Hp;
      [|discriminate].
    set (img1 := if skip then img
                 else if off + (H - v) >? off + v
                      then draw_vline img x0 (off + v) (off + (H - v)) fill
                      else draw_vline img x0 (off + (H - v)) (off + v) fill)
      in *.
    assert (Hin1 : in_image img1 x y = in_image img x y).
    { subst img1. destruct skip; [reflexivity|].
      destruct (_ >? _); reflexivity. }
    rewrite (IH (x0 + 1) img1 img' Hp x y), Hin1.
    assert (Hpx1 : im_pixel img1 x y
                   = if in_image img x y && (x =? x0) && negb skip
                        && bar H off v y
                     then fill else im_pixel img x y).
    { subst img1. unfold bar. destruct skip.
      - rewrite andb_false_r. reflexivity.
      - destruct (Z.gtb_spec (off + (H - v)) (off + v)) as [Hgt|Hle];
          cbn [draw_vline im_pixel]; unfold in_image;
          cbn [im_width im_height draw_vline];
          destruct (Z.eqb_spec x x0); zbool. }
    assert (Hd : drawn H flat v = negb skip).
    { unfold drawn. rewrite Es. destruct skip; reflexivity. }
    unfold series_paints.
    destruct (Z.eqb_spec x x0) as [->|Hne].
    + (* the column of this iteration *)
      replace (x0 + 1 <=? x0) with false by lia. rewrite andb_false_r.
      rewrite Hpx1, Z.sub_diag, Z.leb_refl. cbn [Z.to_nat nth_error andb].
      rewrite Hd, !andb_true_r. rewrite <- andb_assoc. reflexivity.
    + rewrite Hpx1. rewrite !andb_false_r. cbn [andb].
      destruct (Z.leb_spec (x0 + 1) x) as [Hge|Hlt].
      * replace (x0 <=? x) with true by lia. cbn [andb].
        replace (Z.to_nat (x - x0)) with (S (Z.to_nat (x - (x0 + 1)))) by lia.
        reflexivity.
      * replace (x0 <=? x) with false by lia. reflexivity.
Qed.

Lemma paint_channels_pixels H flat fill chans :
  forall idx img img',
    paint_channels H flat fill idx chans img = Ok img' ->
    forall x y,
      im_pixel img' x y
      = if in_image img x y && channels_paint H flat idx chans x y
        then fill else im_pixel img x y.
Proof.
  induction chans as [|l rest IH]; intros idx img img' Hp x y.
  - cbn [paint_channels] in Hp. inversion Hp; subst img'.
    cbn [channels_paint]. rewrite andb_false_r. reflexivity.
  - cbn [paint_channels] in Hp.
    destruct (paint_columns H (H * idx) flat fill 0 l img) as [img1|e] eqn:Ec;
      cbn [bind] in Hp; [|discriminate].
    pose proof (paint_columns_size _ _ _ _ _ _ _ _ Ec) as (_ & Hw & Hh).
    rewrite (IH (idx + 1) img1 img' Hp x y).
    rewrite (in_image_same img img1 x y Hw Hh).
    rewrite (paint_columns_pixels _ _ _ _ _ _ _ _ Ec x y).
    cbn [channels_paint].
    destruct (in_image img x y), (series_paints H (H * idx) flat 0 l x y),
      (channels_paint H flat (idx + 1) rest x y); reflexivity.
Qed.

(** X11: what the two painting loops leave on the canvas.  After the
    channels are painted, a pixel inside the canvas holds the foreground
    ink exactly when some channel has, in the pixel's column, an amplitude
    that the flat-line test did not suppress and whose bar, from row
    [H * idx + (H - v)] to row [H * idx + v] in either order, covers the
    pixel's row; every other pixel is unchanged. *)
Theorem X11_painted_pixels H flat fill chans :
  forall idx img img',
    paint_channels H flat fill idx chans img = Ok img' ->
    forall x y,
      im_pixel img' x y
      = if in_image img x y && channels_paint H flat idx chans x y
        then fill else im_pixel img x y.
Proof. apply paint_channels_pixels. Qed.

Lemma X11_painted_pixels_witness :
  exists img',
    paint_channels 100 true (Rgb 255 0 0) 0 [[50; 30]; [100]]
      (Image_new RGB 2 200 (Rgb 255 255 255)) = Ok img'
    /\ forall x y,
         im_pixel img' x y
         = if in_image (Image_new RGB 2 200 (Rgb 255 255 255)) x y
              && channels_paint 100 true 0 [[50; 30]; [100]] x y
           then Rgb 255 0 0 else Rgb 255 255 255.
Proof.
  destruct (paint_channels 100 true (Rgb 255 0 0) 0 [[50; 30]; [100]]
              (Image_new RGB 2 200 (Rgb 255 255 255))) as [img'|e] eqn:E.
  - exists img'. split; [reflexivity|].
    exact (X11_painted_pixels 100 true (Rgb 255 0 0) [[50; 30]; [100]] 0
             (Image_new RGB 2 200 (Rgb 255 255 255)) img' E).
  - vm_compute in E. discriminate.
Defined.

Lemma suppressed_half v flat :
  0 < v -> suppressed v (2 * v) flat = Ok (negb flat).
Proof.
  intros Hv. unfold suppressed. rewrite (truediv_half v Hv). cbn [bind].
  reflexivity.
Qed.

Lemma bar_half v off y :
  bar (2 * v) off v y = (y =? off + v).
Proof. unfold bar. zbool. Qed.

(** X12: flat-line suppression at any even height.  When every amplitude
    of every channel is half the height, the quotient is the float 0.5
    whatever the size of the integers, so without the flat flag the
    painting loops return the canvas untouched; with the flag a series
    paints the single row at the middle of its band in each of its
    columns. *)
Theorem X12_flat_line v fill :
  0 < v ->
  (forall chans idx img,
     Forall (Forall (fun a => a = v)) chans ->
     paint_channels (2 * v) false fill idx chans img = Ok img)
  /\ (forall l off x0 img,
        Forall (fun a => a = v) l ->
        exists img',
          paint_columns (2 * v) off true fill x0 l img = Ok img'
          /\ forall x y,
               im_pixel img' x y
               = if in_image img x y && (x0 <=? x)
                    && (x <? x0 + Z.of_nat (length l)) && (y =? off + v)
                 then fill else im_pixel img x y).
Proof.
  intros Hv. split.
  - induction chans as [|l rest IH]; intros idx img Hall; [reflexivity|].
    inversion Hall as [|? ? Hl Hrest]; subst.
    cbn [paint_channels].
    rewrite paint_columns_suppressed.
    + cbn [bind]. apply IH. exact Hrest.
    + eapply Forall_impl; [|exact Hl]. intros a ->.
      apply (suppressed_half v false Hv).
  - intros l off x0 img Hl.
    destruct (paint_columns (2 * v) off true fill x0 l img) as [img'|e] eqn:Ec.
    + exists img'. split; [reflexivity|]. intros x y.
      rewrite (paint_columns_pixels _ _ _ _ _ _ _ _ Ec x y).
      unfold series_paints.
      destruct (Z.leb_spec x0 x) as [Hge|Hlt]; cbn [andb];
        [|rewrite !andb_false_r; reflexivity].
      destruct (nth_error l (Z.to_nat (x - x0))) as [a|] eqn:En.
      * assert (Hlen : (Z.to_nat (x - x0) < length l)%nat)
          by (apply nth_error_Some; congruence).
        apply nth_error_In in En. rewrite Forall_forall in Hl.
        rewrite (Hl a En). unfold drawn.
        rewrite (suppressed_half v true Hv), bar_half. cbn [negb andb].
        replace (x <? x0 + Z.of_nat (length l)) with true by lia.
        destruct (in_image img x y), (y =? off + v); reflexivity.
      * apply nth_error_None in En.
        replace (x <? x0 + Z.of_nat (length l)) with false by lia.
        rewrite !andb_false_r. reflexivity.
    + exfalso. revert Ec. generalize x0 img.
      induction l as [|a rest IH]; intros x1 img1; [discriminate|].
      inversion Hl as [|? ? Ha Hrest]; subst.
      cbn [paint_columns]. rewrite (suppressed_half v true Hv). cbn [bind negb].
      apply IH. exact Hrest.
Qed.

Lemma X12_flat_line_witness :
  paint_channels (2 * 50) false (Rgb 255 0 0) 0 [[50; 50]; [50]]
    (Image_new RGB 2 200 (Rgb 255 255 255))
  = Ok (Image_new RGB 2 200 (Rgb 255 255 255)).
Proof.
  apply (X12_flat_line 50 (Rgb 255 0 0)); [lia|].
  repeat constructor.
Defined.

Lemma bar_mirror H off v y :
  bar H off v (2 * off + H - y) = bar H off v y.
Proof. unfold bar. zbool. Qed.

(** X13: every series is painted mirror-symmetric about the middle of its
    band.  After the inner loop, two pixels of one column whose rows are
    mirror images about the row [y_offset + H / 2] (rows [y] and
    [2 * y_offset + H - y]) hold the same colour, when they held the same
    colour before and are both inside or both outside the canvas. *)
Theorem X13_mirror_symmetry H off flat fill x0 l img img' x y :
  paint_columns H off flat fill x0 l img = Ok img' ->
  in_image img x (2 * off + H - y) = in_image img x y ->
  im_pixel img x (2 * off + H - y) = im_pixel img x y ->
  im_pixel img' x (2 * off + H - y) = im_pixel img' x y.
Proof.
  intros Hp Hin Hpx.
  rewrite !(paint_columns_pixels _ _ _ _ _ _ _ _ Hp).
  rewrite Hin, Hpx. unfold series_paints.
  destruct (nth_error l (Z.to_nat (x - x0))); [|reflexivity].
  rewrite bar_mirror. reflexivity.
Qed.

Lemma X13_mirror_symmetry_witness :
  exists img',
    paint_columns 100 0 true (Rgb 255 0 0) 0 [30]
      (Image_new RGB 1 101 (Rgb 255 255 255)) = Ok img'
    /\ im_pixel img' 0 (2 * 0 + 100 - 40) = im_pixel img' 0 40.
Proof.
  destruct (paint_columns 100 0 true (Rgb 255 0 0) 0 [30]
              (Image_new RGB 1 101 (Rgb 255 255 255))) as [img'|e] eqn:E.
  - exists img'. split; [reflexivity|].
    apply (X13_mirror_symmetry 100 0 true (Rgb 255 0 0) 0 [30]
             (Image_new RGB 1 101 (Rgb 255 255 255)) img' 0 40 E);
      reflexivity.
  - vm_compute in E. discriminate.
Defined.

Lemma bar_inside H off v y :
  0 <= v <= H -> bar H off v y = true -> off <= y <= off + H.
Proof.
  intros Hv. unfold bar. intros Hb. apply andb_prop in Hb.
  destruct Hb as [Hlo Hhi]. apply Z.leb_le in Hlo, Hhi. lia.
Qed.

Lemma series_paints_inside H off flat l x y :
  Forall (fun v => 0 <= v <= H) l ->
  series_paints H off flat 0 l x y = true ->
  0 <= x < Z.of_nat (length l) /\ off <= y <= off + H.
Proof.
  intros Hl. unfold series_paints. intros Hs. apply andb_prop in Hs.
  destruct Hs as [Hx Hs]. apply Z.leb_le in Hx.
  destruct (nth_error l (Z.to_nat (x - 0))) as [v|] eqn:En; [|discriminate].
  assert (Hlen : (Z.to_nat (x - 0) < length l)%nat)
    by (apply nth_error_Some; congruence).
  apply nth_error_In in En. rewrite Forall_forall in Hl.
  apply andb_prop in Hs. destruct Hs as [_ Hb].
  apply (bar_inside H off v y (Hl v En)) in Hb. lia.
Qed.

Lemma channels_paint_inside H flat W chans :
  0 <= H ->
  Forall (fun l => Z.of_nat (length l) <= W
                   /\ Forall (fun v => 0 <= v <= H) l) chans ->
  forall idx x y,
    channels_paint H flat idx chans x y = true ->
    0 <= x < W
    /\ H * idx <= y <= H * (idx + Z.of_nat (length chans)).
Proof.
  intros HH Hall. induction Hall as [|l rest [Hw Hl] _ IH]; intros idx x y.
  - cbn [channels_paint]. discriminate.
  - cbn [channels_paint length]. intros Hp. apply orb_prop in Hp.
    rewrite Nat2Z.inj_succ. destruct Hp as [Hp|Hp].
    + apply (series_paints_inside H (H * idx) flat l x y Hl) in Hp. nia.
    + apply IH in Hp. nia.
Qed.

(** X21: the painting loops stay inside the bands of their channels.
    When every amplitude lies between 0 and the height [H], as the sampler
    delivers them, and no series is longer than [W], a pixel left of
    column 0, from column [W] on, above row [H * idx] or below row
    [H * (idx + n)], for [n] channels painted from index [idx] on, keeps
    its colour. *)
Theorem X21_painting_confined H flat fill W chans idx img img' x y :
  0 <= H ->
  Forall (fun l => Z.of_nat (length l) <= W
                   /\ Forall (fun v => 0 <= v <= H) l) chans ->
  paint_channels H flat fill idx chans img = Ok img' ->
  x < 0 \/ W <= x \/ y < H * idx
  \/ H * (idx + Z.of_nat (length chans)) < y ->
  im_pixel img' x y = im_pixel img x y.
Proof.
  intros HH Hall Hp Hout.
  rewrite (paint_channels_pixels _ _ _ _ _ _ _ Hp x y).
  destruct (channels_paint H flat idx chans x y) eqn:Ec;
    [|rewrite andb_false_r; reflexivity].
  apply (channels_paint_inside H flat W chans HH Hall) in Ec. lia.
Qed.

Lemma X21_painting_confined_witness :
  exists img',
    paint_channels 100 true (Rgb 255 0 0) 0 [[50; 30]; [100]]
      (Image_new RGB 2 200 (Rgb 255 255 255)) = Ok img'
    /\ im_pixel img' 0 201 = Rgb 255 255 255.
Proof.
  destruct (paint_channels 100 true (Rgb 255 0 0) 0 [[50; 30]; [100]]
              (Image_new RGB 2 200 (Rgb 255 255 255))) as [img'|e] eqn:E.
  - exists img'. split; [reflexivity|].
    apply (X21_painting_confined 100 true (Rgb 255 0 0) 2 [[50; 30]; [100]] 0
             (Image_new RGB 2 200 (Rgb 255 255 255)) img' 0 201);
      [lia | repeat constructor; cbn; lia | exact E | cbn; lia].
  - vm_compute in E. discriminate.
Defined.

Section RendererProperties.

Variable lanczos : Image -> Z -> Z -> Z -> Z -> pixel.

Lemma invalid_dimension_iff wav_files width height fg bg flat :
  generate_waveform_image lanczos wav_files width height fg bg flat
  = Raise InvalidDimension
  <-> height <= 0 \/ width <= 0.
Proof.
  unfold generate_waveform_image.
  destruct (Z.leb_spec height 0) as [Hh|Hh]; [split; auto|].
  destruct (Z.leb_spec width 0) as [Hw|Hw]; [split; auto|].
  split; [|lia]. intros Hr. exfalso.
  destruct (mapM (fun wav_file => process_wav_file wav_file height DETAIL)
              wav_files) as [adp|e] eqn:Em; cbn [bind] in Hr.
  - destruct (painted_canvas adp (Z.of_nat (length wav_files)) height fg bg flat)
      as [img|e] eqn:Ep; cbn [bind] in Hr.
    + destruct (negb (width =? 0) && negb (width =? _)); discriminate.
    + inversion Hr; subst. apply painted_canvas_exn in Ep.
      destruct Ep as [|[|[|[|]]]]; discriminate.
  - inversion Hr; subst.
    assert (Hs : sampler_exn InvalidDimension).
    { revert Em. apply mapM_errors. intros f e'. apply process_wav_file_exn. }
    destruct Hs as [|[|[|]]]; discriminate.
Qed.

(** X9: the renderer raises the dimension error exactly when the height
    or the width is not positive; the test comes first, so that no file,
    colour or flag changes the outcome, and no later step raises it. *)
Theorem X9_invalid_dimension_iff wav_files width height fg bg flat :
  generate_waveform_image lanczos wav_files width height fg bg flat
  = Raise InvalidDimension
  <-> height <= 0 \/ width <= 0.
Proof. apply invalid_dimension_iff. Qed.

(** X10: a canvas that the renderer returns has exactly the requested
    width.  Its height is the requested height when the requested width
    differs from the length of the first series, and the requested height
    times the number of files when the two are equal; its mode is RGB for
    a non-empty background string and RGBA for the empty one. *)
Theorem X10_returned_canvas wav_files width height fg bg flat img :
  generate_waveform_image lanczos wav_files width height fg bg flat = Ok img ->
  exists first,
    process_wav_file (hd [] wav_files) height DETAIL = Ok first
    /\ first <> []
    /\ im_width img = width
    /\ im_height img
       = (if width =? Z.of_nat (length first) then
            height * Z.of_nat (length wav_files)
          else height)
    /\ im_mode img = if truthy bg then RGB else RGBA.
Proof.
  unfold generate_waveform_image.
  destruct (Z.leb_spec height 0) as [Hh|Hh]; [discriminate|].
  destruct (Z.leb_spec width 0) as [Hw|Hw]; [discriminate|].
  destruct (mapM (fun wav_file => process_wav_file wav_file height DETAIL)
              wav_files) as [adp|e] eqn:Em; cbn [bind]; [|discriminate].
  destruct (painted_canvas adp (Z.of_nat (length wav_files)) height fg bg flat)
    as [canvas|e] eqn:Ep; cbn [bind]; [|discriminate].
  pose proof (painted_canvas_size _ _ _ _ _ _ _ Ep) as [Hcw Hch].
  pose proof (painted_canvas_mode _ _ _ _ _ _ _ Ep) as Hcm.
  assert (Hne : hd [] adp <> []).
  { intros Hnil.
    pose proof (proj2 (painted_canvas_NoData adp
                         (Z.of_nat (length wav_files)) height fg bg flat)
                  Hnil) as Hno.
    rewrite Hno in Ep. discriminate. }
  apply mapM_Ok_Forall2 in Em.
  destruct Em as [|f first files rest Hf Hrest]; [contradiction Hne; reflexivity|].
  cbn [hd] in *. intros Hr. exists first. split; [exact Hf|]. split; [exact Hne|].
  destruct (Z.eqb_spec width 0) as [|_]; [lia|]. cbn [negb andb] in Hr.
  destruct (Z.eqb_spec width (Z.of_nat (length first))) as [Heq|Hneq];
    cbn [negb] in Hr; inversion Hr; subst img; clear Hr.
  - rewrite Hcw, Hch, Hcm. auto.
  - cbn [resize im_width im_height im_mode]. rewrite Hcm. auto.
Qed.

Lemma painted_canvas_default_foreground adp n H bg flat :
  painted_canvas adp n H EmptyString bg flat
  = painted_canvas adp n H DEFAULT_FOREGROUND bg flat.
Proof.
  unfold painted_canvas.
  change (html2rgb DEFAULT_FOREGROUND) with (Ok (A := Z * Z * Z) (255, 0, 0)).
  reflexivity.
Qed.

(** X19: an empty foreground string is rendered as the default foreground
    "#FF0000": the two calls have the same outcome, canvas or exception,
    for every other argument (the renderer falls back to red without
    parsing, and the default string parses to red). *)
Theorem X19_empty_foreground_is_default wav_files width height bg flat :
  generate_waveform_image lanczos wav_files width height EmptyString bg flat
  = generate_waveform_image lanczos wav_files width height
      DEFAULT_FOREGROUND bg flat.
Proof.
  unfold generate_waveform_image.
  destruct (height <=? 0); [reflexivity|].
  destruct (width <=? 0); [reflexivity|].
  destruct (mapM _ wav_files) as [adp|e]; cbn [bind]; [|reflexivity].
  rewrite painted_canvas_default_foreground. reflexivity.
Qed.

Section RequestProperties.

Variable int_of_text : string -> result Z.



End RequestProperties.

End RendererProperties.

Lemma X10_returned_canvas_witness :
  exists img,
    generate_waveform_image nearest [silent_wav 1000] 3 100
      DEFAULT_FOREGROUND EmptyString true = Ok img
    /\ im_width img = 3 /\ im_mode img = RGBA.
Proof.
  destruct (generate_waveform_image nearest [silent_wav 1000] 3 100
              DEFAULT_FOREGROUND EmptyString true) as [img|e] eqn:E.
  - exists img. split; [reflexivity|].
    destruct (X10_returned_canvas nearest [silent_wav 1000] 3 100
                DEFAULT_FOREGROUND EmptyString true img E)
      as (first & _ & _ & Hw & _ & Hm).
    split; [exact Hw|exact Hm].
  - vm_compute in E. discriminate.
Defined.


(** ** The heuristics of the music analysis *)

Open Scope string_scope.

(** The order of two float constants, by their keys. *)
Ltac key_order :=
  match goal with
  | |- lex_lt (fkey ?a) (fkey ?b) =>
      let ka := eval vm_compute in (fkey a) in
      let kb := eval vm_compute in (fkey b) in
      change (lex_lt ka kb); unfold lex_lt; lia
  end.

Lemma gtb_above x a b :
  PyFloat.isnan b = false -> lex_lt (fkey b) (fkey a) ->
  PyFloat.gtb x a = true -> PyFloat.gtb x b = true.
Proof.
  intros Hb Hlt Hg.
  pose proof (gtb_isnan_l _ _ Hg) as Hx. pose proof (gtb_isnan_r _ _ Hg) as Ha.
  apply gtb_key in Hg; try assumption. apply gtb_key; try assumption.
  eapply lex_lt_trans; eassumption.
Qed.

Lemma ltb_gtb_apart x a b :
  PyFloat.isnan a = false -> lex_lt (fkey a) (fkey b) ->
  PyFloat.gtb x b = true -> PyFloat.ltb x a = false.
Proof.
  intros Ha Hlt Hg.
  pose proof (gtb_isnan_l _ _ Hg) as Hx. pose proof (gtb_isnan_r _ _ Hg) as Hb.
  apply gtb_key in Hg; try assumption.
  destruct (PyFloat.ltb x a) eqn:El; [|reflexivity]. exfalso.
  unfold PyFloat.ltb in El. apply SFltb_key in El; try assumption.
  apply (lex_lt_irrefl (fkey x)).
  eapply lex_lt_trans; [exact El|]. eapply lex_lt_trans; eassumption.
Qed.

Lemma gtb_nan x a : PyFloat.isnan x = true -> PyFloat.gtb x a = false.
Proof.
  intros Hx. destruct (PyFloat.gtb x a) eqn:Eg; [|reflexivity].
  apply gtb_isnan_l in Eg. congruence.
Qed.

(** X14: the three energy classes split the values of the mean RMS by
    the two thresholds as numpy compares them (the Python floats 0.1 and
    0.05 rounded to float32 under weak scalars, taken as binary64
    otherwise): High exactly above the upper threshold, Medium exactly
    above the lower and not above the upper one, Low exactly for a value
    not above the lower one, which includes NaN.  The class can depend on
    the rule: the float32 number nearest to 0.1 is Medium under weak
    scalars and High otherwise. *)
Theorem X14_energy_classes weak r :
  let high := rms_threshold weak 1 10 in
  let low := rms_threshold weak 5 100 in
  (energy_of weak r = "High" <-> PyFloat.gtb r high = true)
  /\ (energy_of weak r = "Medium"
      <-> PyFloat.gtb r low = true /\ PyFloat.gtb r high = false)
  /\ (energy_of weak r = "Low" <-> PyFloat.gtb r low = false)
  /\ (PyFloat.isnan r = true -> energy_of weak r = "Low")
  /\ energy_of true (to_float32 (fdec 1 10)) = "Medium"
  /\ energy_of false (to_float32 (fdec 1 10)) = "High".
Proof.
  intros high low.
  assert (Hup : PyFloat.gtb r high = true -> PyFloat.gtb r low = true).
  { subst high low. apply gtb_above;
      [destruct weak; vm_compute; reflexivity
      |destruct weak; key_order]. }
  assert (Hn1 : PyFloat.isnan r = true -> PyFloat.gtb r high = false)
    by apply gtb_nan.
  assert (Hn2 : PyFloat.isnan r = true -> PyFloat.gtb r low = false)
    by apply gtb_nan.
  assert (Hex : energy_of true (to_float32 (fdec 1 10)) = "Medium"
                /\ energy_of false (to_float32 (fdec 1 10)) = "High")
    by (split; vm_compute; reflexivity).
  unfold energy_of. fold high low.
  set (above_high := PyFloat.gtb r high) in *.
  set (above_low := PyFloat.gtb r low) in *.
  clearbody above_high above_low high low.
  destruct above_high.
  - rewrite (Hup eq_refl).
    repeat split; intros; try discriminate; try reflexivity;
      try (destruct H; discriminate); try apply Hex.
    specialize (Hn1 H). discriminate.
  - destruct above_low;
      repeat split; intros; try discriminate; try reflexivity;
        try (destruct H; discriminate); try apply Hex.
    specialize (Hn2 H). discriminate.
Qed.

Lemma In_mem (s : string) l : In s l <-> existsb (String.eqb s) l = true.
Proof.
  rewrite existsb_exists. split.
  - intros Hin. exists s. split; [exact Hin|apply String.eqb_refl].
  - intros (x & Hin & Heq). apply String.eqb_eq in Heq. subst x. exact Hin.
Qed.

(** Membership of a label in a list of labels, both constants, is settled
    by evaluation. *)
Ltac hint_cases :=
  rewrite ?In_mem; vm_compute; repeat split; intros;
  repeat match goal with
         | H : _ /\ _ |- _ => destruct H
         end;
  try discriminate; try reflexivity; try assumption; try contradiction;
  try (exfalso;
       match goal with
       | H : _ -> False |- _ => apply H; repeat split; reflexivity
       end);
  try (repeat constructor).

(** X15: which genre hints are reported.  Each of the four rules puts its
    hint into the result exactly when its condition holds; the cap at
    three entries never drops one, because the first two rules ask for
    different energy classes and cannot both hold; Pop/General is reported
    exactly when no rule holds, and then alone; the result has between one
    and three entries. *)
Theorem X15_genre_hints tempo energy zc rolloff :
  let g := genre_hints_of tempo energy zc rolloff in
  (In "Electronic/Dance" g
   <-> PyFloat.gtb tempo (flit 120) = true /\ energy = "High")
  /\ (In "Ballad/Slow" g
      <-> PyFloat.ltb tempo (flit 80) = true /\ energy = "Low")
  /\ (In "Rock/Metal" g <-> PyFloat.gtb zc (fdec 1 10) = true)
  /\ (In "Jazz/Blues" g <-> PyFloat.ltb rolloff (flit 3000) = true)
  /\ (In "Pop/General" g <-> g = ["Pop/General"])
  /\ (g = ["Pop/General"]
      <-> ~ (PyFloat.gtb tempo (flit 120) = true /\ energy = "High")
          /\ ~ (PyFloat.ltb tempo (flit 80) = true /\ energy = "Low")
          /\ PyFloat.gtb zc (fdec 1 10) = false
          /\ PyFloat.ltb rolloff (flit 3000) = false)
  /\ (1 <= length g <= 3)%nat.
Proof.
  unfold genre_hints_of.
  set (fast := PyFloat.gtb tempo (flit 120)).
  set (slow := PyFloat.ltb tempo (flit 80)).
  set (noisy := PyFloat.gtb zc (fdec 1 10)).
  set (dark := PyFloat.ltb rolloff (flit 3000)).
  clearbody fast slow noisy dark.
  destruct (String.eqb_spec energy "High") as [->|Hh];
    [replace ("High" =? "Low") with false by reflexivity
    |destruct (String.eqb_spec energy "Low") as [->|Hl]];
    destruct fast, slow, noisy, dark; cbv beta iota zeta;
    cbn [andb app firstn]; hint_cases.
Qed.

(** X16: which instruments are reported.  Vocals and Percussion are
    reported exactly when their thresholds are exceeded; exactly one of
    Acoustic instruments and Mixed/Electronic closes the list, the former
    when the roll-off is below 2000 and the energy is Low; Percussion and
    Acoustic instruments are never reported together; the list has
    between one and three entries, so that the cap at three drops
    nothing. *)
Theorem X16_instruments mfcc1 rolloff energy :
  let i := instruments_of mfcc1 rolloff energy in
  (In "Vocals (likely)" i <-> PyFloat.gtb mfcc1 (flit 50) = true)
  /\ (In "Percussion" i <-> PyFloat.gtb rolloff (flit 5000) = true)
  /\ (In "Acoustic instruments" i
      <-> PyFloat.ltb rolloff (flit 2000) = true /\ energy = "Low")
  /\ (In "Mixed/Electronic" i <-> ~ In "Acoustic instruments" i)
  /\ ~ (In "Percussion" i /\ In "Acoustic instruments" i)
  /\ (1 <= length i <= 3)%nat.
Proof.
  assert (Hapart : PyFloat.gtb rolloff (flit 5000) = true ->
                   PyFloat.ltb rolloff (flit 2000) = false).
  { apply ltb_gtb_apart; [vm_compute; reflexivity|key_order]. }
  unfold instruments_of.
  set (voice := PyFloat.gtb mfcc1 (flit 50)).
  set (bright := PyFloat.gtb rolloff (flit 5000)) in *.
  set (dull := PyFloat.ltb rolloff (flit 2000)) in *.
  clearbody voice bright dull.
  destruct bright; [rewrite (Hapart eq_refl)|clear Hapart];
    destruct (String.eqb_spec energy "Low") as [->|Hl];
    destruct voice; try destruct dull; cbv beta iota zeta;
    cbn [andb app firstn]; hint_cases.
Qed.

Close Scope string_scope.

(** ** Chord fingerings *)

Lemma dict_get_set {V} (k c : string) (v : V) d :
  dict_get c (dict_set k v d) = if String.eqb k c then Some v else dict_get c d.
Proof.
  induction d as [|[k' v'] d IH]; cbn [dict_set dict_get]; [reflexivity|].
  destruct (String.eqb_spec k' k) as [->|Hne]; cbn [dict_get].
  - destruct (String.eqb k c); reflexivity.
  - rewrite IH. destruct (String.eqb_spec k' c) as [->|Hc]; [|reflexivity].
    destruct (String.eqb_spec k c) as [->|_]; [contradiction|reflexivity].
Qed.

Lemma dict_set_keys {V} (k : string) (v : V) d :
  map fst (dict_set k v d)
  = if existsb (String.eqb k) (map fst d) then map fst d
    else map fst d ++ [k].
Proof.
  induction d as [|[k' v'] d IH]; cbn [dict_set map fst existsb app];
    [reflexivity|].
  rewrite (String.eqb_sym k k').
  destruct (String.eqb_spec k' k) as [->|Hne]; cbn [map fst orb];
    [reflexivity|].
  rewrite IH. destruct (existsb (String.eqb k) (map fst d)); reflexivity.
Qed.

Lemma existsb_eqb_In (k : string) l :
  existsb (String.eqb k) l = true <-> In k l.
Proof.
  rewrite existsb_exists. split.
  - intros (x & Hin & Heq). apply String.eqb_eq in Heq. subst x. exact Hin.
  - intros Hin. exists k. split; [exact Hin|apply String.eqb_refl].
Qed.

Lemma dict_set_NoDup {V} (k : string) (v : V) d :
  NoDup (map fst d) -> NoDup (map fst (dict_set k v d)).
Proof.
  intros Hn. rewrite dict_set_keys.
  destruct (existsb (String.eqb k) (map fst d)) eqn:E; [exact Hn|].
  assert (Hnot : ~ In k (map fst d)).
  { intros Hin. apply existsb_eqb_In in Hin. congruence. }
  apply NoDup_app; [exact Hn|repeat constructor; intros []|].
  intros x Hx [<-|[]]. exact (Hnot Hx).
Qed.

Lemma resolve_all_get table chords :
  forall out c,
    dict_get c (resolve_all table chords out)
    = if existsb (String.eqb c) chords then
        match dict_get c table with
        | Some f => Some f
        | None => dict_get c out
        end
      else dict_get c out.
Proof.
  unfold resolve_all.
  induction chords as [|k rest IH]; intros out c; [reflexivity|].
  cbn [fold_left existsb]. rewrite IH.
  assert (Hstep : dict_get c (resolve table k out)
                  = if String.eqb c k then
                      match dict_get c table with
                      | Some f => Some f
                      | None => dict_get c out
                      end
                    else dict_get c out).
  { unfold resolve. destruct (String.eqb_spec c k) as [->|Hne].
    - destruct (dict_get k table) as [f|]; [|reflexivity].
      rewrite dict_get_set, String.eqb_refl. reflexivity.
    - destruct (dict_get k table) as [f|]; [|reflexivity].
      rewrite dict_get_set.
      destruct (String.eqb_spec k c) as [->|_]; [contradiction|reflexivity]. }
  rewrite Hstep.
  destruct (String.eqb c k), (existsb (String.eqb c) rest),
    (dict_get c table); reflexivity.
Qed.

Lemma resolve_all_NoDup table chords :
  forall out, NoDup (map fst out) ->
              NoDup (map fst (resolve_all table chords out)).
Proof.
  unfold resolve_all.
  induction chords as [|k rest IH]; intros out Hn; [exact Hn|].
  cbn [fold_left]. apply IH. unfold resolve.
  destruct (dict_get k table); [apply dict_set_NoDup|]; exact Hn.
Qed.

(** The loop over the chords runs the three instruments side by side. *)
Lemma generate_instrument_chords_split chords :
  generate_instrument_chords chords
  = [("guitar"%string, resolve_all guitar_chords chords []);
     ("piano"%string, resolve_all piano_chords chords []);
     ("ukulele"%string, resolve_all ukulele_chords chords [])].
Proof.
  unfold generate_instrument_chords, resolve_all.
  generalize (@nil (string * string)) at 1 4.
  generalize (@nil (string * string)) at 1 3.
  generalize (@nil (string * string)).
  induction chords as [|k rest IH]; intros u p g; [reflexivity|].
  cbn [fold_left]. apply IH.
Qed.

(** X17: the fingering dictionaries.  The result always lists the three
    instruments guitar, piano and ukulele, in this order; in each
    instrument's dictionary a chord is looked up with the fingering of the
    instrument's table when it is one of the given chords and the table
    has it, and is absent otherwise; a chord that is given twice is
    entered once. *)
Theorem X17_instrument_chords chords :
  exists g p u,
    generate_instrument_chords chords
    = [("guitar"%string, g); ("piano"%string, p); ("ukulele"%string, u)]
    /\ (forall c, dict_get c g
                  = if existsb (String.eqb c) chords
                    then dict_get c guitar_chords else None)
    /\ (forall c, dict_get c p
                  = if existsb (String.eqb c) chords
                    then dict_get c piano_chords else None)
    /\ (forall c, dict_get c u
                  = if existsb (String.eqb c) chords
                    then dict_get c ukulele_chords else None)
    /\ NoDup (map fst g) /\ NoDup (map fst p) /\ NoDup (map fst u).
Proof.
  exists (resolve_all guitar_chords chords []),
         (resolve_all piano_chords chords []),
         (resolve_all ukulele_chords chords []).
  split; [apply generate_instrument_chords_split|].
  assert (Hget : forall table c,
            dict_get c (resolve_all table chords [])
            = if existsb (String.eqb c) chords
              then dict_get c table else None).
  { intros table c. rewrite resolve_all_get. cbn [dict_get].
    destruct (existsb (String.eqb c) chords); [|reflexivity].
    destruct (dict_get c table); reflexivity. }
  repeat split; try apply Hget; apply resolve_all_NoDup; constructor.
Qed.

Lemma nodupb_NoDup l : nodupb l = true -> NoDup l.
Proof.
  induction l as [|x r IH]; cbn [nodupb]; intros H; [constructor|].
  apply andb_prop in H. destruct H as [Hx Hr]. constructor; [|apply IH; exact Hr].
  intros Hin. apply existsb_eqb_In in Hin. rewrite Hin in Hx. discriminate.
Qed.

Lemma NoDup_map_filter {A B} (f : A -> B) (p : A -> bool) l :
  NoDup (map f l) -> NoDup (map f (filter p l)).
Proof.
  induction l as [|a l IH]; cbn [map filter]; intros Hn; [constructor|].
  inversion Hn as [|? ? Hnot Hrest]; subst.
  destruct (p a); cbn [map]; [|apply IH; exact Hrest].
  constructor; [|apply IH; exact Hrest].
  intros Hin. apply Hnot. apply in_map_iff in Hin.
  destruct Hin as (b & Hb & Hin). apply filter_In in Hin.
  apply in_map_iff. exists b. tauto.
Qed.

Lemma NoDup_firstn {A} n (l : list A) : NoDup l -> NoDup (firstn n l).
Proof.
  intros Hn. rewrite <- (firstn_skipn n l) in Hn.
  apply NoDup_app_remove_r in Hn. exact Hn.
Qed.

Lemma dict_get_In {V} (k : string) (v : V) d :
  dict_get k d = Some v -> In (k, v) d.
Proof.
  induction d as [|[k' v'] d IH]; cbn [dict_get]; [discriminate|].
  destruct (String.eqb_spec k' k) as [->|_].
  - intros H. inversion H. left. reflexivity.
  - intros H. right. apply IH. exact H.
Qed.

Lemma dict_set_fresh {V} (k : string) (v : V) d :
  dict_get k d = None -> dict_set k v d = d ++ [(k, v)].
Proof.
  induction d as [|[k' v'] d IH]; cbn [dict_get dict_set app]; [reflexivity|].
  destruct (String.eqb k' k); [discriminate|].
  intros H. rewrite IH by exact H. reflexivity.
Qed.

(** Chords without repetition that the table knows and the dictionary
    does not hold yet are appended in their order. *)
Lemma resolve_all_fresh table chords :
  forall out,
    NoDup chords ->
    (forall c, In c chords -> dict_get c table <> None) ->
    (forall c, In c chords -> dict_get c out = None) ->
    resolve_all table chords out
    = out ++ map (fun c => (c, fingering table c)) chords.
Proof.
  unfold resolve_all.
  induction chords as [|k rest IH]; intros out Hn Ht Ho.
  - cbn. rewrite app_nil_r. reflexivity.
  - cbn [fold_left map]. inversion Hn as [|? ? Hk Hrest]; subst.
    assert (Hstep : resolve table k out = out ++ [(k, fingering table k)]).
    { unfold resolve, fingering.
      destruct (dict_get k table) as [f|] eqn:Ef.
      - apply dict_set_fresh. apply Ho. left. reflexivity.
      - exfalso. apply (Ht k); [left; reflexivity|exact Ef]. }
    rewrite IH.
    + rewrite Hstep, <- app_assoc. reflexivity.
    + exact Hrest.
    + intros c Hc. apply Ht. right. exact Hc.
    + intros c Hc. unfold resolve.
      destruct (dict_get k table) as [f|]; [|apply Ho; right; exact Hc].
      rewrite dict_get_set.
      destruct (String.eqb_spec k c) as [->|_]; [contradiction|].
      apply Ho. right. exact Hc.
Qed.

Lemma grid_labels_distinct : NoDup (map chord_label chord_grid).
Proof. apply nodupb_NoDup. vm_compute. reflexivity. Qed.

Lemma grid_labels_fingered c :
  In c (map chord_label chord_grid) ->
  dict_get c guitar_chords <> None /\ dict_get c piano_chords <> None
  /\ dict_get c ukulele_chords <> None.
Proof.
  intros Hin.
  assert (Hall : forallb (fun c =>
                   match dict_get c guitar_chords, dict_get c piano_chords,
                         dict_get c ukulele_chords with
                   | Some _, Some _, Some _ => true
                   | _, _, _ => false
                   end) (map chord_label chord_grid) = true)
    by (vm_compute; reflexivity).
  rewrite forallb_forall in Hall. specialize (Hall c Hin).
  destruct (dict_get c guitar_chords), (dict_get c piano_chords),
    (dict_get c ukulele_chords); try discriminate.
  repeat split; discriminate.
Qed.

Section ClassifierProperties.

Variable corrcoef : list PyFloat.float -> list Z -> PyFloat.float.

Lemma rank_chords_labels chroma :
  NoDup (rank_chords corrcoef chroma)
  /\ incl (rank_chords corrcoef chroma) (map chord_label chord_grid).
Proof.
  unfold rank_chords.
  set (cands := chord_candidates corrcoef chroma).
  pose proof (sort_desc_perm cands) as Hperm.
  assert (Hsub : incl (map fst cands) (map chord_label chord_grid)).
  { subst cands. rewrite chord_candidates_grid. intros c Hc.
    apply in_map_iff in Hc. destruct Hc as (e & <- & He).
    apply filter_In in He. destruct He as [He _].
    apply in_map_iff in He. destruct He as (g & <- & Hg).
    apply in_map_iff. exists g. split; [reflexivity|exact Hg]. }
  assert (Hnd : NoDup (map fst cands)).
  { subst cands. rewrite chord_candidates_grid. apply NoDup_map_filter.
    rewrite map_map. exact grid_labels_distinct. }
  split.
  - rewrite <- firstn_map. apply NoDup_firstn.
    eapply Permutation_NoDup; [|exact Hnd].
    apply Permutation_map, Permutation_sym. exact Hperm.
  - intros c Hc. apply Hsub. rewrite <- firstn_map in Hc.
    apply In_firstn in Hc.
    eapply Permutation_in; [|exact Hc].
    apply Permutation_map. exact Hperm.
Qed.

(** X18: every chord of the ranking gets its fingerings.  For every
    chroma vector the labels that the ranking returns are pairwise
    distinct, and the fingering dictionaries built from them list guitar,
    piano and ukulele, each with exactly the ranked chords as keys, in the
    order of the ranking, and each entry taken from the instrument's
    table: the three tables cover every label that the ranking can
    produce. *)
Theorem X18_ranked_chords_fingered chroma :
  let chords := rank_chords corrcoef chroma in
  NoDup chords
  /\ exists g p u,
       generate_instrument_chords chords
       = [("guitar"%string, g); ("piano"%string, p); ("ukulele"%string, u)]
       /\ map fst g = chords
       /\ map fst p = chords
       /\ map fst u = chords
       /\ incl g guitar_chords /\ incl p piano_chords
       /\ incl u ukulele_chords.
Proof.
  intros chords0.
  destruct (rank_chords_labels chroma) as [Hnd Hsub].
  set (chords := rank_chords corrcoef chroma) in *.
  clearbody chords. subst chords0.
  split; [exact Hnd|].
  assert (Hbuild : forall table,
            (forall c, In c chords -> dict_get c table <> None) ->
            resolve_all table chords []
            = map (fun c => (c, fingering table c)) chords).
  { intros table Ht.
    apply (resolve_all_fresh table chords [] Hnd Ht). reflexivity. }
  assert (Hkeys : forall table,
            map fst (map (fun c => (c, fingering table c)) chords) = chords).
  { intros table. rewrite map_map. cbn [fst]. apply map_id. }
  assert (Hincl : forall table,
            (forall c, In c chords -> dict_get c table <> None) ->
            incl (map (fun c => (c, fingering table c)) chords) table).
  { intros table Ht e He. apply in_map_iff in He.
    destruct He as (c & <- & Hc). unfold fingering.
    destruct (dict_get c table) as [v|] eqn:Ev;
      [apply dict_get_In; exact Ev|].
    exfalso. exact (Ht c Hc Ev). }
  assert (HG : forall c, In c chords -> dict_get c guitar_chords <> None)
    by (intros c Hc;
        destruct (grid_labels_fingered c (Hsub c Hc)) as (H1 & H2 & H3);
        exact H1).
  assert (HP : forall c, In c chords -> dict_get c piano_chords <> None)
    by (intros c Hc;
        destruct (grid_labels_fingered c (Hsub c Hc)) as (H1 & H2 & H3);
        exact H2).
  assert (HU : forall c, In c chords -> dict_get c ukulele_chords <> None)
    by (intros c Hc;
        destruct (grid_labels_fingered c (Hsub c Hc)) as (H1 & H2 & H3);
        exact H3).
  rewrite generate_instrument_chords_split.
  rewrite (Hbuild _ HG), (Hbuild _ HP), (Hbuild _ HU).
  exists (map (fun c => (c, fingering guitar_chords c)) chords),
         (map (fun c => (c, fingering piano_chords c)) chords),
         (map (fun c => (c, fingering ukulele_chords c)) chords).
  split; [reflexivity|].
  rewrite !Hkeys.
  split; [reflexivity|]. split; [reflexivity|]. split; [reflexivity|].
  split; [apply Hincl; exact HG|].
  split; [apply Hincl; exact HP|apply Hincl; exact HU].
Qed.

End ClassifierProperties.
